(** * convert_to_coreml.py: the SHARP model conversion and validation pipeline

    A shallow embedding of
    [src/addons/apple_native/ofxSharp/scripts/convert_to_coreml.py]:
    the output decomposition of [SharpModelWrapper.forward], the checkpoint
    loader [load_pytorch_model], the conversion [convert_to_coreml], the
    numerical comparison [validate_coreml_model] and the command line
    driver [main].

    Python objects that are mutated in place (the [nn.Module] under
    construction) live in a store; exceptions are results; everything the
    script does to the outside world (files, library calls, prints) is
    recorded, in order, in a log. *)

From stdpp Require Import gmap strings list fin_maps pretty.
From Stdlib Require Import Ascii QArith Qabs.

Local Close Scope Q_scope.
Local Open Scope string_scope.
Local Open Scope list_scope.
Local Open Scope nat_scope.
Local Set Warnings "-register-all".

(** ** Tensors of rank three and slicing on the last axis *)

Module Tensor.
Section Rank3.
Context {A : Type}.

(** A rank-3 tensor, outermost axis first. *)
Definition t : Type := list (list (list A)).

(** [has_shape d0 d1 d2 x]: [x] is rectangular of shape (d0, d1, d2). *)
Definition has_shape (d0 d1 d2 : nat) (x : t) : Prop :=
  length x = d0 ∧
  Forall (λ m, length m = d1 ∧ Forall (λ r, length r = d2) m) x.

(** Python's [l[a:b]] for non-negative [a] and [b]: the bounds are
    clamped to the list, never an error. *)
Definition slice (a b : nat) (l : list A) : list A := take (b - a) (drop a l).

(** [x[:, :, a:b]] *)
Definition slice_last (a b : nat) (x : t) : t := map (map (slice a b)) x.

(** [torch.cat([x, y], dim=-1)] on tensors that agree on the two leading
    axes. *)
Definition cat_last (x y : t) : t := zip_with (zip_with app) x y.

(** All scalars of the tensor, in row-major order ([ndarray.ravel]). *)
Definition ravel (x : t) : list A := concat (concat x).
End Rank3.
Arguments t : clear implicits.
End Tensor.

(** The five named buffers of one Gaussian parameter set, in the order
    [forward] returns them. *)
Record Gaussians (A : Type) := mkGaussians {
  positions : Tensor.t A;
  colors    : Tensor.t A;
  opacities : Tensor.t A;
  scales    : Tensor.t A;
  rotations : Tensor.t A;
}.
Arguments mkGaussians {A}.
Arguments positions {A}.
Arguments colors {A}.
Arguments opacities {A}.
Arguments scales {A}.
Arguments rotations {A}.

(** The slicing half of [SharpModelWrapper.forward] (lines 78-84): the raw
    output, a tensor of rank three as the three-place indexing asks for, is
    cut on its last axis at the offsets 0, 3, 6, 7, 10, 14. *)
Definition decompose {A} (output : Tensor.t A) : Gaussians A :=
  {| positions := Tensor.slice_last 0 3 output;
     colors    := Tensor.slice_last 3 6 output;
     opacities := Tensor.slice_last 6 7 output;
     scales    := Tensor.slice_last 7 10 output;
     rotations := Tensor.slice_last 10 14 output |}.

(** The five buffers joined again on the last axis, in the same order. *)
Definition recompose {A} (g : Gaussians A) : Tensor.t A :=
  Tensor.cat_last (positions g)
    (Tensor.cat_last (colors g)
      (Tensor.cat_last (opacities g)
        (Tensor.cat_last (scales g) (rotations g)))).

(** ** Python exceptions and results *)

(** The exception classes the pipeline can meet.  [OtherException] stands
    for any further class deriving directly from [Exception]. *)
Inductive PyClass :=
| RuntimeError | NotImplementedError | RecursionError
| TypeError | ValueError | KeyError | IndexError | AttributeError
| EOFError | OSError | FileNotFoundError | PermissionError
| UnpicklingError
| OtherException (name : string).

(** A raised object: an instance of [Exception], or one of the two
    [BaseException]s that [except Exception] lets through. *)
Inductive exn :=
| PyExn (cls : PyClass) (msg : string)
| SystemExit (code : Z)
| KeyboardInterrupt.

(** [isinstance(e, RuntimeError)]: the class itself and its two built-in
    subclasses. *)
Definition is_RuntimeError (e : exn) : bool :=
  match e with
  | PyExn (RuntimeError | NotImplementedError | RecursionError) _ => true
  | _ => false
  end.

(** [isinstance(e, Exception)] *)
Definition is_Exception (e : exn) : bool :=
  match e with
  | PyExn _ _ => true
  | SystemExit _ | KeyboardInterrupt => false
  end.

Inductive result (A : Type) :=
| Ok (a : A)
| Raise (e : exn).
Arguments Ok {A}.
Arguments Raise {A}.

Definition is_Ok {A} (r : result A) : bool :=
  match r with Ok _ => true | Raise _ => false end.

(** ** Checkpoints and models *)

(** The contents of a weight tensor are not inspected by the script; they
    are kept as a tag: fresh out of the module constructors, or stored in a
    checkpoint under an identifier. *)
Inductive TData :=
| RandomInit
| Stored (id : N).

Record WTensor := mkWTensor { t_shape : list Z; t_data : TData }.

#[global] Instance TData_eq_dec : EqDecision TData := ltac:(solve_decision).
#[global] Instance WTensor_eq_dec : EqDecision WTensor := ltac:(solve_decision).

(** What [torch.load] can hand back: a tensor, a [dict] with string keys,
    a number, or any other unpickled object (for instance a whole
    module). *)
Inductive PyObj :=
| PTensor (w : WTensor)
| PDict (d : gmap string PyObj)
| PInt (z : Z)
| PObject (type_name : string).

(** An [nn.Module]: its named parameters and the [training] flag. *)
Record Model := mkModel { params : gmap string WTensor; training : bool }.

(** The placeholder architecture of lines 115-122.  Of the six layers only
    [Conv2d(3, 64, 3)] (index 0) and [Linear(64, 14000)] (index 4) own
    parameters; a new module is in training mode. *)
Definition placeholder_model : Model :=
  {| params := list_to_map
       [ ("0.weight", mkWTensor [64; 3; 3; 3]%Z RandomInit);
         ("0.bias",   mkWTensor [64]%Z RandomInit);
         ("4.weight", mkWTensor [14000; 64]%Z RandomInit);
         ("4.bias",   mkWTensor [14000]%Z RandomInit) ];
     training := true |}.

(** [model.eval()] *)
Definition eval_mode (m : Model) : Model :=
  {| params := params m; training := false |}.

(** Lines 102-111: the weights collection inside a checkpoint. *)
Definition extract_state_dict (checkpoint : PyObj) : PyObj :=
  match checkpoint with
  | PDict d =>
      match d !! "model" with
      | Some v => v
      | None =>
          match d !! "state_dict" with
          | Some v => v
          | None => checkpoint
          end
      end
  | _ => checkpoint
  end.

(** *** [nn.Module.load_state_dict]

    The library routine, as PyTorch documents it.  Every parameter of the
    module whose key is in the state dict and whose value there is a tensor
    of the same shape is overwritten in place, whether or not the call
    then fails.  A value that is not a tensor, or a tensor of another
    shape, is an error in both modes; a missing or an unexpected key is an
    error in strict mode only.  Any error raises [RuntimeError]; a state
    dict that is not a mapping raises [TypeError]. *)

Definition copy_param (sd : gmap string PyObj) (k : string) (p : WTensor) : WTensor :=
  match sd !! k with
  | Some (PTensor w) => if decide (t_shape w = t_shape p) then w else p
  | _ => p
  end.

(** The parameter [k] takes its value from the state dict. *)
Definition binds (sd : gmap string PyObj) (k : string) (p : WTensor) : bool :=
  match sd !! k with
  | Some (PTensor w) => bool_decide (t_shape w = t_shape p)
  | _ => false
  end.

(** The key is present but its value cannot be copied. *)
Definition copy_error (sd : gmap string PyObj) (k : string) (p : WTensor) : bool :=
  match sd !! k with
  | Some (PTensor w) => negb (bool_decide (t_shape w = t_shape p))
  | Some _ => true
  | None => false
  end.

(** Keys of the module whose value in the state dict cannot be copied. *)
Definition copy_failures (sd : gmap string PyObj) (m : Model) : gset string :=
  dom (filter (λ kp, copy_error sd kp.1 kp.2 = true) (params m)).

Definition missing_keys (sd : gmap string PyObj) (m : Model) : gset string :=
  dom (params m) ∖ dom sd.

Definition unexpected_keys (sd : gmap string PyObj) (m : Model) : gset string :=
  dom sd ∖ dom (params m).

Definition state_dict_error : exn :=
  PyExn RuntimeError "Error(s) in loading state_dict for Sequential".

Definition not_a_mapping_error : exn :=
  PyExn TypeError "Expected state_dict to be dict-like".

(** [model.load_state_dict(state_dict, strict)]: the module as the call
    leaves it, and how the call ends. *)
Definition torch_load_state_dict (strict : bool) (state_dict : PyObj) (m : Model)
    : Model * result unit :=
  match state_dict with
  | PDict sd =>
      let m' := {| params := map_imap (λ k p, Some (copy_param sd k p)) (params m);
                   training := training m |} in
      let clean :=
        bool_decide (copy_failures sd m = ∅) &&
        (negb strict ||
         (bool_decide (missing_keys sd m = ∅) &&
          bool_decide (unexpected_keys sd m = ∅))) in
      (m', if clean then Ok () else Raise state_dict_error)
  | _ => (m, Raise not_a_mapping_error)
  end.

(** ** Images, schemas and converted models *)

(** An image tensor: its shape and the state of the generator that drew
    its entries. *)
Record Image := mkImage { img_shape : list Z; img_seed : N }.

Inductive DType := Float32 | Float16 | Int32.

(** [ct.TensorType(name, shape, dtype)]; a port declared without [shape]
    has [tt_shape = None]. *)
Record TensorType := mkTensorType {
  tt_name : string;
  tt_shape : option (list Z);
  tt_dtype : DType;
}.

Inductive ComputeUnit := ALL | CPU_AND_NE | CPU_ONLY.

(** What [torch.jit.trace] returns: the module as it was when traced and
    the example it was traced on. *)
Record TracedGraph := mkTracedGraph { tg_module : Model; tg_example : Image }.

(** A [ct.models.MLModel]: the converted program, its declared ports and
    its metadata. *)
Record MLModel := mkMLModel {
  ml_program : TracedGraph;
  ml_inputs : list TensorType;
  ml_outputs : list TensorType;
  ml_compute_units : ComputeUnit;
  ml_deployment_target : string;
  ml_format : string;
  ml_weight_bits : option nat;
  ml_author : string;
  ml_license : string;
  ml_short_description : string;
  ml_version : string;
  ml_input_description : gmap string string;
  ml_output_description : gmap string string;
}.

(** ** The world the script runs in *)

(** A file: a checkpoint (what deserializing it gives, an exception for a
    truncated or corrupt one), a saved model package, or a directory. *)
Inductive File :=
| FCheckpoint (content : result PyObj)
| FArtifact (m : MLModel)
| FDirectory.

(** One line of standard output.  Lines whose text depends on a float
    format keep their fields instead. *)
Inductive Line :=
| Text (s : string)
| ValidationLine (passed : bool) (name : string) (max_diff mean_diff : Q)
| ValidationFailed (tolerance : Q)
| Traceback (e : exn).

Inductive Event :=
| EvPrint (l : Line)
| EvTorchLoad (path : string)
| EvLoadStateDict (strict : bool)
| EvRand (shape : list Z)
| EvForward (image : Image)
| EvJitTrace
| EvCtConvert (inputs outputs : list TensorType)
| EvQuantize (nbits : nat)
| EvSave (path : string)
| EvPredict (image : Image)
| EvMakedirs (dir : string).

(** A reference to a module in the store. *)
Definition ModelRef := N.

Record World := mkWorld {
  fs : gmap string File;
  heap : gmap N Model;
  next_ref : N;
  rng : N;
  log : list Event;
}.

(** The library code the script calls and whose outcome it cannot
    influence. *)
Record Externals := mkExternals {
  (** [nn.Module.load_state_dict] *)
  nn_load_state_dict : bool → PyObj → Model → Model * result unit;
  (** one inference pass of the raw network *)
  raw_forward : Model → Image → result (Tensor.t Q);
  (** graph capture can fail after the pass has run *)
  jit_trace_error : Model → Image → option exn;
  ct_convert_error : TracedGraph → list TensorType → list TensorType → option exn;
  quantize_error : MLModel → option exn;
  save_error : string → MLModel → option exn;
  coreml_predict : MLModel → Image → result (gmap string (Tensor.t Q));
  makedirs_error : string → option exn;
}.

(** ** The monad of effects: a world that is threaded, and exceptions *)

Definition M (A : Type) : Type := World → result A * World.

#[global] Instance M_ret : MRet M := λ A a w, (Ok a, w).
#[global] Instance M_bind : MBind M := λ A B f m w,
  match m w with
  | (Ok a, w') => f a w'
  | (Raise e, w') => (Raise e, w')
  end.

Definition raise {A} (e : exn) : M A := λ w, (Raise e, w).

Definition lift {A} (r : result A) : M A := λ w, (r, w).

Definition raise_if (o : option exn) : M unit :=
  match o with Some e => raise e | None => mret () end.

(** [try: body  except <class> as e: handler e] *)
Definition try_except {A} (body : M A) (catches : exn → bool) (handler : exn → M A) : M A :=
  λ w, match body w with
       | (Raise e, w') => if catches e then handler e w' else (Raise e, w')
       | r => r
       end.

Definition emit (ev : Event) : M unit := λ w,
  (Ok (), {| fs := fs w; heap := heap w; next_ref := next_ref w; rng := rng w;
             log := log w ++ [ev] |}).

(** [print(s)]; the blank line some messages start with is left out. *)
Definition print (s : string) : M unit := emit (EvPrint (Text s)).

Definition get_world : M World := λ w, (Ok w, w).

(** A module constructor: a new object in the store. *)
Definition new_module (m : Model) : M ModelRef := λ w,
  (Ok (next_ref w),
   {| fs := fs w; heap := <[next_ref w := m]> (heap w);
      next_ref := N.succ (next_ref w); rng := rng w; log := log w |}).

Definition set_module (r : ModelRef) (m : Model) : M unit := λ w,
  (Ok (), {| fs := fs w; heap := <[r := m]> (heap w); next_ref := next_ref w;
             rng := rng w; log := log w |}).

Definition get_module (r : ModelRef) : M Model := λ w,
  match heap w !! r with
  | Some m => (Ok m, w)
  | None => (Raise (PyExn AttributeError "no such module"), w)
  end.

(** [module.eval()], in place. *)
Definition module_eval (r : ModelRef) : M unit :=
  m ← get_module r; set_module r (eval_mode m).

Definition write_file (path : string) (f : File) : M unit := λ w,
  (Ok (), {| fs := <[path := f]> (fs w); heap := heap w; next_ref := next_ref w;
             rng := rng w; log := log w |}).

(** [sys.exit(code)] *)
Definition sys_exit {A} (code : Z) : M A := raise (SystemExit code).

(** [os.path.exists(path)] *)
Definition os_path_exists (path : string) : M bool := λ w,
  (Ok (bool_decide (is_Some (fs w !! path))), w).

(** [torch.load(path, map_location='cpu')] *)
Definition torch_load (path : string) : M PyObj :=
  emit (EvTorchLoad path);;
  w ← get_world;
  match fs w !! path with
  | Some (FCheckpoint content) => lift content
  | Some (FArtifact _) => raise (PyExn UnpicklingError "invalid load key")
  | Some FDirectory => raise (PyExn OSError "Is a directory")
  | None => raise (PyExn FileNotFoundError "No such file or directory")
  end.

(** [torch.rand] at the given shape: a fresh draw; a negative dimension is
    refused. *)
Definition torch_rand (shape : list Z) : M Image := λ w,
  if forallb (λ d, 0 <=? d)%Z shape then
    (Ok (mkImage shape (rng w)),
     {| fs := fs w; heap := heap w; next_ref := next_ref w; rng := N.succ (rng w);
        log := log w ++ [EvRand shape] |})
  else
    (Raise (PyExn RuntimeError "Trying to create tensor with negative dimension"),
     {| fs := fs w; heap := heap w; next_ref := next_ref w; rng := rng w;
        log := log w ++ [EvRand shape] |}).

(** ** Numerics of the comparison: [numpy] on exact rationals

    Tensor entries are rationals: the rounding of 32-bit floats and the
    values NaN and infinity are outside this model. *)

Definition Qltb (a b : Q) : bool := negb (Qle_bool b a).

(** Map a fallible function over a list; the first failure wins. *)
Fixpoint traverse {A B} (f : A → result B) (l : list A) : result (list B) :=
  match l with
  | [] => Ok []
  | x :: l' =>
      match f x with
      | Ok y => match traverse f l' with Ok ys => Ok (y :: ys) | Raise e => Raise e end
      | Raise e => Raise e
      end
  end.

Definition broadcast_error : exn :=
  PyExn ValueError "operands could not be broadcast together".

(** One axis of a broadcast binary operation: equal lengths pair up, a
    length of one is repeated, anything else is refused. *)
Definition broadcast {A B C} (f : A → B → result C) (xs : list A) (ys : list B)
    : result (list C) :=
  if decide (length xs = length ys) then traverse (λ xy, f xy.1 xy.2) (zip xs ys)
  else match xs, ys with
       | [x], _ => traverse (f x) ys
       | _, [y] => traverse (λ x, f x y) xs
       | _, _ => Raise broadcast_error
       end.

(** [x - y] on arrays of rank three. *)
Definition np_sub (x y : Tensor.t Q) : result (Tensor.t Q) :=
  broadcast (broadcast (broadcast (λ a b, Ok (a - b)%Q))) x y.

(** [np.abs(x)] *)
Definition np_abs (x : Tensor.t Q) : Tensor.t Q := map (map (map Qabs)) x.

Definition Qmaximum (a b : Q) : Q := if Qltb a b then b else a.

(** [np.max(x)]: an array without entries has no maximum. *)
Definition np_max (x : Tensor.t Q) : result Q :=
  match Tensor.ravel x with
  | [] => Raise (PyExn ValueError
            "zero-size array to reduction operation maximum which has no identity")
  | a :: l => Ok (foldl Qmaximum a l)
  end.

Definition Qsum (l : list Q) : Q := foldl Qplus 0%Q l.

(** [np.mean(x)].  The script reaches it only after [np.max] has accepted
    the same array, which then has entries. *)
Definition np_mean (x : Tensor.t Q) : Q :=
  (Qsum (Tensor.ravel x) / inject_Z (Z.of_nat (length (Tensor.ravel x))))%Q.

(** [d[key]] *)
Definition getitem {V} (d : gmap string V) (key : string) : result V :=
  match d !! key with
  | Some v => Ok v
  | None => Raise (PyExn KeyError key)
  end.

(** ** Small pieces of the standard library *)

(** [str(e)] *)
Definition str_exn (e : exn) : string :=
  match e with
  | PyExn _ msg => msg
  | SystemExit code => pretty code
  | KeyboardInterrupt => ""
  end.

(** The double quote character, as a string. *)
Definition dquote : string := String (ascii_of_nat 34) EmptyString.

Definition str_bool (b : bool) : string := if b then "True" else "False".

Definition str_compute_unit (c : ComputeUnit) : string :=
  match c with
  | ALL => "ComputeUnit.ALL"
  | CPU_AND_NE => "ComputeUnit.CPU_AND_NE"
  | CPU_ONLY => "ComputeUnit.CPU_ONLY"
  end.

Definition is_slash (c : ascii) : bool := bool_decide (c = "/"%char).

Fixpoint drop_while {A} (p : A → bool) (l : list A) : list A :=
  match l with
  | [] => []
  | x :: l' => if p x then drop_while p l' else l
  end.

(** [os.path.dirname(p)] of [posixpath]: everything up to the last slash,
    with trailing slashes removed unless the head consists of slashes
    only. *)
Definition os_path_dirname (p : string) : string :=
  let head := reverse (drop_while (λ c, negb (is_slash c)) (reverse (String.list_ascii_of_string p))) in
  if forallb is_slash head then String.string_of_list_ascii head
  else String.string_of_list_ascii (reverse (drop_while is_slash (reverse head))).

(** ** The script *)

(** The parsed command line ([argparse] has already accepted it). *)
Record Args := mkArgs {
  input : string;
  output : string;
  width : Z;
  height : Z;
  compute_units : ComputeUnit;
  quantize : bool;
  skip_validation : bool;
  tolerance : Q;
}.

Section Pipeline.
Variable ext : Externals.

(** *** [SharpModelWrapper] *)

(** The wrapper holds the raw network as its only child. *)
Record SharpModelWrapper := mkWrapper { model : ModelRef }.

(** [wrapper.eval()] reaches the child. *)
Definition wrapper_eval (self : SharpModelWrapper) : M unit :=
  module_eval (model self).

(** [forward], lines 60-84: one inference pass, then the slicing. *)
Definition forward (self : SharpModelWrapper) (image : Image) : M (Gaussians Q) :=
  emit (EvForward image);;
  m ← get_module (model self);
  output ← lift (raw_forward ext m image);
  mret (decompose output).

(** *** [load_pytorch_model], lines 87-134 *)

Definition load_state_dict (model : ModelRef) (state_dict : PyObj) (strict : bool)
    : M unit :=
  emit (EvLoadStateDict strict);;
  m ← get_module model;
  set_module model (nn_load_state_dict ext strict state_dict m).1;;
  lift (nn_load_state_dict ext strict state_dict m).2.

Definition load_pytorch_model (model_path : string) : M ModelRef :=
  print ("Loading PyTorch model from: " +:+ model_path);;
  checkpoint ← torch_load model_path;
  let state_dict := extract_state_dict checkpoint in
  model ← new_module placeholder_model;
  try_except (load_state_dict model state_dict true) is_RuntimeError
    (λ e,
       print ("Warning: Could not load state dict directly: " +:+ str_exn e);;
       print "Attempting to load with strict=False...";;
       load_state_dict model state_dict false);;
  module_eval model;;
  print "✓ Model loaded successfully";;
  mret model.

(** *** [create_example_input], lines 137-148 *)

Definition create_example_input (height width : Z) : M Image :=
  torch_rand [1; 3; height; width]%Z.

(** *** [convert_to_coreml], lines 151-269 *)

(** [torch.jit.trace(wrapper, example)]: the tracer runs the wrapper on
    the example (the tracing pass; what the tracer repeats of it to check
    itself is part of that pass), and the recorded operations become the
    graph. *)
Definition torch_jit_trace (wrapped : SharpModelWrapper) (example : Image)
    : M TracedGraph :=
  emit EvJitTrace;;
  _ ← forward wrapped example;
  m ← get_module (model wrapped);
  raise_if (jit_trace_error ext m example);;
  mret (mkTracedGraph m example).

(** [ct.convert(traced, inputs, outputs, compute_units,
    minimum_deployment_target, convert_to)]: the model it returns declares
    the ports it was given and carries no metadata yet. *)
Definition ct_convert (traced : TracedGraph) (inputs outputs : list TensorType)
    (units : ComputeUnit) (target format : string) : M MLModel :=
  emit (EvCtConvert inputs outputs);;
  raise_if (ct_convert_error ext traced inputs outputs);;
  mret {| ml_program := traced; ml_inputs := inputs; ml_outputs := outputs;
          ml_compute_units := units; ml_deployment_target := target;
          ml_format := format; ml_weight_bits := None;
          ml_author := ""; ml_license := ""; ml_short_description := "";
          ml_version := ""; ml_input_description := ∅;
          ml_output_description := ∅ |}.

(** [quantization_utils.quantize_weights(mlmodel, nbits)]: a transform of
    the stored weights only; ports and metadata are those of its
    argument. *)
Definition quantize_weights (mlmodel : MLModel) (nbits : nat) : M MLModel :=
  emit (EvQuantize nbits);;
  raise_if (quantize_error ext mlmodel);;
  mret {| ml_program := ml_program mlmodel; ml_inputs := ml_inputs mlmodel;
          ml_outputs := ml_outputs mlmodel;
          ml_compute_units := ml_compute_units mlmodel;
          ml_deployment_target := ml_deployment_target mlmodel;
          ml_format := ml_format mlmodel; ml_weight_bits := Some nbits;
          ml_author := ml_author mlmodel; ml_license := ml_license mlmodel;
          ml_short_description := ml_short_description mlmodel;
          ml_version := ml_version mlmodel;
          ml_input_description := ml_input_description mlmodel;
          ml_output_description := ml_output_description mlmodel |}.

(** [mlmodel.save(path)] *)
Definition mlmodel_save (mlmodel : MLModel) (path : string) : M unit :=
  emit (EvSave path);;
  raise_if (save_error ext path mlmodel);;
  write_file path (FArtifact mlmodel).

Definition shape_text (input_shape : Z * Z) : string :=
  "(1, 3, " +:+ pretty input_shape.1 +:+ ", " +:+ pretty input_shape.2 +:+ ")".

(** Lines 188-193. *)
Definition image_input (input_shape : Z * Z) : TensorType :=
  {| tt_name := "image";
     tt_shape := Some [1; 3; input_shape.1; input_shape.2]%Z;
     tt_dtype := Float32 |}.

(** Lines 196-202. *)
Definition output_ports : list TensorType :=
  [ {| tt_name := "positions"; tt_shape := None; tt_dtype := Float32 |};
    {| tt_name := "colors";    tt_shape := None; tt_dtype := Float32 |};
    {| tt_name := "opacities"; tt_shape := None; tt_dtype := Float32 |};
    {| tt_name := "scales";    tt_shape := None; tt_dtype := Float32 |};
    {| tt_name := "rotations"; tt_shape := None; tt_dtype := Float32 |} ].

(** Lines 216-242: the attribute and dictionary assignments on the
    converted model. *)
Definition add_metadata (input_shape : Z * Z) (mlmodel : MLModel) : MLModel :=
  {| ml_program := ml_program mlmodel; ml_inputs := ml_inputs mlmodel;
     ml_outputs := ml_outputs mlmodel;
     ml_compute_units := ml_compute_units mlmodel;
     ml_deployment_target := ml_deployment_target mlmodel;
     ml_format := ml_format mlmodel; ml_weight_bits := ml_weight_bits mlmodel;
     ml_author := "oflike-metal";
     ml_license := "MIT";
     ml_short_description := "SHARP: Single-image 3D Gaussian Splatting";
     ml_version := "1.0.0";
     ml_input_description :=
       <["image" := "Input RGB image normalized to [0, 1] range. Shape: "
                    +:+ shape_text input_shape]> (ml_input_description mlmodel);
     ml_output_description :=
       <["rotations" := "Rotation quaternions (w, x, y, z) (N, 4)"]>
       (<["scales" := "Scale factors for Gaussian covariance (N, 3)"]>
       (<["opacities" := "Opacity values [0, 1] (N, 1)"]>
       (<["colors" := "RGB colors of Gaussians [0, 1] (N, 3)"]>
       (<["positions" := "3D positions of Gaussians in world space (N, 3)"]>
         (ml_output_description mlmodel))))) |}.

Definition convert_to_coreml (pytorch_model : ModelRef) (output_path : string)
    (input_shape : Z * Z) (units : ComputeUnit) (quantize : bool) : M MLModel :=
  print "Converting to Core ML...";;
  print ("  Input shape: " +:+ shape_text input_shape);;
  print ("  Compute units: " +:+ str_compute_unit units);;
  print ("  Quantization: " +:+ str_bool quantize);;
  let wrapped_model := mkWrapper pytorch_model in
  wrapper_eval wrapped_model;;
  example_input ← create_example_input input_shape.1 input_shape.2;
  print "Tracing model...";;
  traced_model ← torch_jit_trace wrapped_model example_input;
  print "Converting to Core ML format...";;
  mlmodel ← ct_convert traced_model [image_input input_shape] output_ports
              units "macOS13" "mlprogram";
  let mlmodel := add_metadata input_shape mlmodel in
  mlmodel ← (if quantize
             then print "Applying INT8 quantization...";;
                  quantize_weights mlmodel 8
             else mret mlmodel);
  print ("Saving Core ML model to: " +:+ output_path);;
  mlmodel_save mlmodel output_path;;
  print "✓ Conversion complete!";;
  print "Model Details:";;
  print "  - Format: ML Program";;
  print "  - Deployment Target: macOS 13.0+";;
  print ("  - Compute Units: " +:+ str_compute_unit units);;
  print ("  - Input: image " +:+ shape_text input_shape);;
  print "  - Outputs:";;
  print "    • positions (N, 3)";;
  print "    • colors (N, 3)";;
  print "    • opacities (N, 1)";;
  print "    • scales (N, 3)";;
  print "    • rotations (N, 4)";;
  mret mlmodel.

(** *** [validate_coreml_model], lines 272-336 *)

(** One turn of the loop of lines 316-329 for the output [name]; the
    result is the new value of [all_passed]. *)
Definition compare_output (coreml_output : gmap string (Tensor.t Q)) (tolerance : Q)
    (all_passed : bool) (name : string) (pt_np : Tensor.t Q) : M bool :=
  coreml_np ← lift (getitem coreml_output name);
  diff ← lift (np_sub pt_np coreml_np);
  max_diff ← lift (np_max (np_abs diff));
  let mean_diff := np_mean (np_abs diff) in
  let passed := Qltb max_diff tolerance in
  emit (EvPrint (ValidationLine passed name max_diff mean_diff));;
  mret (if negb passed then false else all_passed).

(** The loop itself. *)
Fixpoint compare_outputs (coreml_output : gmap string (Tensor.t Q)) (tolerance : Q)
    (all_passed : bool) (outputs : list (string * Tensor.t Q)) : M bool :=
  match outputs with
  | [] => mret all_passed
  | (name, pt_np) :: rest =>
      all_passed ← compare_output coreml_output tolerance all_passed name pt_np;
      compare_outputs coreml_output tolerance all_passed rest
  end.

(** Lines 307-313. *)
Definition named_outputs (g : Gaussians Q) : list (string * Tensor.t Q) :=
  [ ("positions", positions g); ("colors", colors g); ("opacities", opacities g);
    ("scales", scales g); ("rotations", rotations g) ].

(** Lines 306-336: the comparison of the reference tensors with the
    converted model's answer. *)
Definition compare_all (pt : Gaussians Q) (coreml_output : gmap string (Tensor.t Q))
    (tolerance : Q) : M bool :=
  all_passed ← compare_outputs coreml_output tolerance true (named_outputs pt);
  (if all_passed : bool then print "✓ Validation passed!"
   else emit (EvPrint (ValidationFailed tolerance)));;
  mret all_passed.

(** [mlmodel.predict({"image": x})] *)
Definition mlmodel_predict (mlmodel : MLModel) (image : Image)
    : M (gmap string (Tensor.t Q)) :=
  emit (EvPredict image);;
  lift (coreml_predict ext mlmodel image).

Definition validate_coreml_model (mlmodel : MLModel) (pytorch_model : ModelRef)
    (input_shape : Z * Z) (tolerance : Q) : M bool :=
  print "Validating Core ML model...";;
  test_input ← create_example_input input_shape.1 input_shape.2;
  module_eval pytorch_model;;
  let wrapped := mkWrapper pytorch_model in
  pt ← forward wrapped test_input;
  coreml_output ← mlmodel_predict mlmodel test_input;
  compare_all pt coreml_output tolerance.

(** *** [main], lines 339-474, from the parsed arguments on *)

(** [os.makedirs(dir, exist_ok=True)] *)
Definition os_makedirs (dir : string) : M unit :=
  emit (EvMakedirs dir);;
  raise_if (makedirs_error ext dir);;
  write_file dir FDirectory.

Definition success_banner (args : Args) : M unit :=
  print "============================================================";;
  print "SUCCESS: Model conversion complete!";;
  print "============================================================";;
  print ("Output: " +:+ output args);;
  print "Next steps:";;
  print "  1. Copy model to: src/addons/apple_native/ofxSharp/models/";;
  print "  2. Compile .mlpackage to .mlmodelc (Xcode does this automatically)";;
  print "  3. Load in ofxSharp:";;
  print "     Sharp::SharpModel model;";;
  print ("     model.load(" +:+ dquote +:+ "sharp.mlmodelc" +:+ dquote +:+ ");").

(** Lines 416-419. *)
Definition check_input (args : Args) : M unit :=
  exists_ ← os_path_exists (input args);
  if negb exists_ : bool
  then print ("Error: Input file not found: " +:+ input args);; sys_exit 1
  else mret ().

(** Lines 421-424. *)
Definition make_output_dir (args : Args) : M unit :=
  let output_dir := os_path_dirname (output args) in
  if bool_decide (output_dir = "") then mret () else os_makedirs output_dir.

(** Lines 447-454: the return value of the validation is dropped. *)
Definition validate_unless_skipped (args : Args) (mlmodel : MLModel)
    (pytorch_model : ModelRef) : M unit :=
  if negb (skip_validation args)
  then _ ← validate_coreml_model mlmodel pytorch_model
             (height args, width args) (tolerance args);
       mret ()
  else mret ().

(** Lines 435-465, the body of the [try]. *)
Definition pipeline (args : Args) : M unit :=
  pytorch_model ← load_pytorch_model (input args);
  mlmodel ← convert_to_coreml pytorch_model (output args)
              (height args, width args) (compute_units args) (quantize args);
  validate_unless_skipped args mlmodel pytorch_model;;
  success_banner args.

(** Lines 467-474, the handler of [except Exception as e]. *)
Definition report_failure (e : exn) : M unit :=
  print "============================================================";;
  print "ERROR: Conversion failed!";;
  print "============================================================";;
  print (str_exn e);;
  emit (EvPrint (Traceback e));;
  sys_exit 1.

Definition main (args : Args) : M unit :=
  check_input args;;
  make_output_dir args;;
  try_except (pipeline args) is_Exception report_failure.
End Pipeline.

(** The status the process ends with, from how [main] ends: a normal
    return is 0, [sys.exit(n)] is [n], an exception that nothing caught
    is 1; an interrupt ends the process by its signal, without a status
    of the script's choosing. *)
Definition exit_status (r : result unit) : option Z :=
  match r with
  | Ok _ => Some 0%Z
  | Raise (SystemExit code) => Some code
  | Raise (PyExn _ _) => Some 1%Z
  | Raise KeyboardInterrupt => None
  end.

(** ** Vocabulary of the specifications *)


(** A world before anything has happened. *)
Definition initial_world (files : gmap string File) : World :=
  {| fs := files; heap := ∅; next_ref := 0; rng := 0; log := [] |}.

(** What a caller sees of a run of the loader: the reference it returns
    with the module behind it, or the exception; and the log. *)
Definition loaded (x : result ModelRef * World)
    : result (ModelRef * option Model) * list Event :=
  (match x.1 with Ok r => Ok (r, heap x.2 !! r) | Raise e => Raise e end, log x.2).

(** The parameters of [m] after a pass of [load_state_dict] over the
    mapping [sd]. *)
Definition bound_params (sd : gmap string PyObj) (m : Model) : gmap string WTensor :=
  map_imap (λ k p, Some (copy_param sd k p)) (params m).


(** Kinds of events. *)
Definition is_bind (ev : Event) : bool :=
  match ev with EvLoadStateDict _ => true | _ => false end.
Definition is_relaxed_bind (ev : Event) : bool :=
  match ev with EvLoadStateDict false => true | _ => false end.
Definition is_forward (ev : Event) : bool :=
  match ev with EvForward _ => true | _ => false end.
Definition is_predict (ev : Event) : bool :=
  match ev with EvPredict _ => true | _ => false end.
Definition is_trace (ev : Event) : bool :=
  match ev with EvJitTrace => true | _ => false end.
Definition is_convert (ev : Event) : bool :=
  match ev with EvCtConvert _ _ => true | _ => false end.
Definition is_quantize (ev : Event) : bool :=
  match ev with EvQuantize _ => true | _ => false end.
Definition is_save (ev : Event) : bool :=
  match ev with EvSave _ => true | _ => false end.

(** How many events of a kind a log holds. *)
Definition count (p : Event → bool) (l : list Event) : nat := length (List.filter p l).



(** The two order properties, computed. *)
Fixpoint preceded_byb (p q : Event → bool) (seen : bool) (l : list Event) : bool :=
  match l with
  | [] => true
  | e :: l' => (negb (q e) || seen) && preceded_byb p q (seen || p e) l'
  end.

Fixpoint never_afterb (p q : Event → bool) (seen : bool) (l : list Event) : bool :=
  match l with
  | [] => true
  | e :: l' => negb (seen && q e) && never_afterb p q (seen || p e) l'
  end.

(** *** The comparison, said without the code *)

(** Two tensors of the same shape: as many matrices, rows per matrix and
    entries per row. *)
Definition same_shape (x y : Tensor.t Q) : Prop :=
  Forall2 (Forall2 (λ r1 r2 : list Q, length r1 = length r2)) x y.

(** The absolute differences of corresponding entries. *)
Definition abs_diffs (x y : Tensor.t Q) : list Q :=
  zip_with (λ a b, Qabs (a - b)%Q) (Tensor.ravel x) (Tensor.ravel y).

(** [m] is the greatest element of [l]. *)
Definition is_max (m : Q) (l : list Q) : Prop :=
  In m l ∧ ∀ a, In a l → (a <= m)%Q.

(** [m] is the arithmetic mean of [l]. *)
Definition is_mean (m : Q) (l : list Q) : Prop :=
  (m * inject_Z (Z.of_nat (length l)) == Qsum l)%Q.

(** The reference tensor [x] called [name] has a candidate of its shape in
    [coreml_output], and both have entries. *)
Definition comparable (coreml_output : gmap string (Tensor.t Q))
    (nx : string * Tensor.t Q) : Prop :=
  ∃ y, coreml_output !! nx.1 = Some y ∧ same_shape nx.2 y ∧ Tensor.ravel nx.2 ≠ [].

(** The printed line [ev] reports the comparison of the reference tensor
    [x] called [name]: the greatest and the mean absolute difference, and a
    pass exactly when the greatest one is below the tolerance. *)
Definition reports (coreml_output : gmap string (Tensor.t Q)) (tolerance : Q)
    (nx : string * Tensor.t Q) (ev : Event) : Prop :=
  ∃ y passed max_diff mean_diff,
    coreml_output !! nx.1 = Some y ∧
    ev = EvPrint (ValidationLine passed nx.1 max_diff mean_diff) ∧
    is_max max_diff (abs_diffs nx.2 y) ∧
    is_mean mean_diff (abs_diffs nx.2 y) ∧
    (passed = true ↔ (max_diff < tolerance)%Q).

(** The verdict a report line carries. *)
Definition line_passed (ev : Event) : bool :=
  match ev with
  | EvPrint (ValidationLine passed _ _ _) => passed
  | _ => false
  end.


(** The world [w] after the events [evs]. *)
Definition add_log (w : World) (evs : list Event) : World :=
  {| fs := fs w; heap := heap w; next_ref := next_ref w; rng := rng w;
     log := log w ++ evs |}.

(** ** A concrete run, for the examples *)

(** A raw output of two primitives. *)
Definition sample_output : Tensor.t Q :=
  [ [ map inject_Z [1; 2; 3; 4; 5; 6; 7; 8; 9; 10; 11; 12; 13; 14]%Z;
      map inject_Z [21; 22; 23; 24; 25; 26; 27; 28; 29; 30; 31; 32; 33; 34]%Z ] ].

(** The answer of a converted model whose outputs are those of [raw]. *)
Definition predicted (raw : Tensor.t Q) : gmap string (Tensor.t Q) :=
  list_to_map
    [ ("positions", positions (decompose raw)); ("colors", colors (decompose raw));
      ("opacities", opacities (decompose raw)); ("scales", scales (decompose raw));
      ("rotations", rotations (decompose raw)) ].

(** Library code that never fails, around a network that answers
    [sample_output] and a converted model that answers [answer]. *)
Definition sample_externals (answer : Tensor.t Q) : Externals :=
  {| nn_load_state_dict := torch_load_state_dict;
     raw_forward := λ _ _, Ok sample_output;
     jit_trace_error := λ _ _, None;
     ct_convert_error := λ _ _ _, None;
     quantize_error := λ _, None;
     save_error := λ _ _, None;
     coreml_predict := λ _ _, Ok (predicted answer);
     makedirs_error := λ _, None |}.

(** A converted model that reproduces the network exactly. *)
Definition faithful_externals : Externals := sample_externals sample_output.

(** A converted model all of whose outputs are off by one hundredth. *)
Definition drifting_externals : Externals :=
  sample_externals (map (map (map (λ a, (a + (1 # 100))%Q))) sample_output).

(** A checkpoint that nests, under [model], the weights of the
    convolution only. *)
Definition conv_weights : gmap string PyObj :=
  list_to_map
    [ ("0.weight", PTensor (mkWTensor [64; 3; 3; 3]%Z (Stored 1)));
      ("0.bias",   PTensor (mkWTensor [64]%Z (Stored 2))) ].

Definition sample_checkpoint : PyObj :=
  PDict (list_to_map [ ("model", PDict conv_weights); ("epoch", PInt 10) ]).

Definition sample_world : World :=
  initial_world {[ "sharp.pth" := FCheckpoint (Ok sample_checkpoint) ]}.

Definition sample_args : Args :=
  {| input := "sharp.pth"; output := "models/sharp.mlpackage";
     width := 512; height := 512; compute_units := ALL;
     quantize := true; skip_validation := false; tolerance := 1 # 1000 |}.


(** ** Further vocabulary and examples *)

Definition is_torch_load (ev : Event) : bool :=
  match ev with EvTorchLoad _ => true | _ => false end.


(** A raw output of one primitive that carries ten values only, of shape
    (1, 1, 10). *)
Definition narrow_output : Tensor.t Q :=
  [ [ map inject_Z [1; 2; 3; 4; 5; 6; 7; 8; 9; 10]%Z ] ].

(** Library code that never fails, around a network that answers
    [narrow_output]. *)
Definition narrow_externals : Externals :=
  {| nn_load_state_dict := torch_load_state_dict;
     raw_forward := λ _ _, Ok narrow_output;
     jit_trace_error := λ _ _, None;
     ct_convert_error := λ _ _ _, None;
     quantize_error := λ _, None;
     save_error := λ _ _, None;
     coreml_predict := λ _ _, Ok (predicted narrow_output);
     makedirs_error := λ _, None |}.

(** A converted model that cannot run. *)
Definition broken_runtime_externals : Externals :=
  {| nn_load_state_dict := torch_load_state_dict;
     raw_forward := λ _ _, Ok sample_output;
     jit_trace_error := λ _ _, None;
     ct_convert_error := λ _ _ _, None;
     quantize_error := λ _, None;
     save_error := λ _ _, None;
     coreml_predict := λ _ _, Raise (PyExn RuntimeError "Error computing NN outputs");
     makedirs_error := λ _, None |}.

(** An output directory that cannot be made. *)
Definition read_only_externals : Externals :=
  {| nn_load_state_dict := torch_load_state_dict;
     raw_forward := λ _ _, Ok sample_output;
     jit_trace_error := λ _ _, None;
     ct_convert_error := λ _ _ _, None;
     quantize_error := λ _, None;
     save_error := λ _ _, None;
     coreml_predict := λ _ _, Ok (predicted sample_output);
     makedirs_error := λ _, Some (PyExn PermissionError "models") |}.

(** The weights of both layers of the placeholder that own parameters. *)
Definition all_weights : gmap string PyObj :=
  list_to_map
    [ ("0.weight", PTensor (mkWTensor [64; 3; 3; 3]%Z (Stored 1)));
      ("0.bias",   PTensor (mkWTensor [64]%Z (Stored 2)));
      ("4.weight", PTensor (mkWTensor [14000; 64]%Z (Stored 3)));
      ("4.bias",   PTensor (mkWTensor [14000]%Z (Stored 4))) ].

(** A checkpoint that keeps a whole module under [model] and the weights
    under [state_dict]. *)
Definition module_checkpoint : gmap string PyObj :=
  list_to_map [ ("model", PObject "Sequential"); ("state_dict", PDict all_weights) ].

(** * projectGenerator.py: the generator of project skeletons

    A shallow embedding of [src/tools/projectGenerator.py]: the command
    line driver [main] and [create_project], over a file system that is a
    tree of directories and text files, and a standard output that is the
    list of the printed strings.  A Python [str] is the list of its code
    points, so that [str.isalnum] and [str.replace] see characters and not
    bytes.  Paths are absolute and resolved: the components from the root
    down, none of them [..] (a component [..] is a name like any other
    here, so the properties are stated for paths without it).  Symbolic
    links, permissions and full disks are not in the model: the operating
    system does what it is asked whenever the tree allows it. *)

Module Gen.

(** ** Strings *)

Abbreviation str := (list N).

(** A string literal of the script; all of them are ASCII. *)
Definition lit (s : string) : str := N_of_ascii <$> String.list_ascii_of_string s.

Definition newline : str := [10%N].
Definition dq : str := [34%N].

(** [s.startswith(p)] *)
Fixpoint starts_with (p s : str) : bool :=
  match p, s with
  | [], _ => true
  | a :: p', b :: s' => bool_decide (a = b) && starts_with p' s'
  | _ :: _, [] => false
  end.

(** The scan of [str.replace] for a pattern that is not empty: from left
    to right, an occurrence is replaced and the scan goes on behind it;
    [skip] counts the characters of the occurrence still to be passed. *)
Fixpoint replace_from (old new : str) (skip : nat) (s : str) : str :=
  match s with
  | [] => []
  | c :: s' =>
      match skip with
      | S k => replace_from old new k s'
      | O => if starts_with old s
             then new ++ replace_from old new (length old - 1) s'
             else c :: replace_from old new 0 s'
      end
  end.

(** [s.replace(old, new)]; an empty [old] matches before every character
    and at the end. *)
Definition replace (old new s : str) : str :=
  match old with
  | [] => new ++ flat_map (λ c, c :: new) s
  | _ :: _ => replace_from old new 0 s
  end.

(** [s.isalnum()]: at least one character, and all of them alphanumeric
    according to the Unicode tables [alnum]. *)
Definition isalnum (alnum : N → bool) (s : str) : bool :=
  negb (bool_decide (s = [])) && forallb alnum s.

(** [c * n] *)
Definition times (c : str) (n : nat) : str := concat (replicate n c).

(** ** Paths *)

Abbreviation Path := (list (list N)).

(** [s.split(sep)] for a separator of one character. *)
Fixpoint split (sep : N) (s : str) : list str :=
  match s with
  | [] => [[]]
  | c :: s' =>
      if bool_decide (c = sep) then [] :: split sep s'
      else match split sep s' with
           | w :: ws => (c :: w) :: ws
           | [] => [[c]]
           end
  end.

(** The components a string adds to a path: empty ones and [.] are
    dropped, [..] is kept. *)
Definition parts (s : str) : list str :=
  filter (λ c, c ≠ [] ∧ c ≠ lit ".") (split 47%N s).

(** [p / s]: a string that begins with a slash replaces [p].  (Two
    leading slashes, which pathlib keeps apart from one, are read as
    one.) *)
Definition joinpath (p : Path) (s : str) : Path :=
  if starts_with (lit "/") s then parts s else p ++ parts s.

(** [p.parent]; the root is its own parent. *)
Definition parent (p : Path) : Path := removelast p.

(** [str(p)] *)
Definition path_str (p : Path) : str :=
  match p with
  | [] => lit "/"
  | _ :: _ => flat_map (λ c, 47%N :: c) p
  end.

(** [os.path.basename] of a path, as the components it adds. *)
Definition basename (p : Path) : list str :=
  match last p with Some c => [c] | None => [] end.

(** ** Exceptions *)

(** The error numbers the tree can give; Python raises them as
    [FileExistsError], [FileNotFoundError], [NotADirectoryError] and
    [IsADirectoryError], all of them [OSError]s. *)
Inductive errno := EEXIST | ENOENT | ENOTDIR | EISDIR.

Inductive raised :=
| OSError (e : errno)
| SameFileError
| SystemExit (code : Z)
| LibraryError (e : exn).

Inductive outcome (A : Type) :=
| Returns (a : A)
| Raises (e : raised).
Arguments Returns {A}.
Arguments Raises {A}.

(** The status the process ends with. *)
Definition exit_status (r : outcome unit) : Z :=
  match r with
  | Returns _ => 0%Z
  | Raises (SystemExit code) => code
  | Raises _ => 1%Z
  end.

(** ** The file system and the standard output *)

Inductive Node :=
| Dir
| File (content : str) (mode : N).

#[global] Instance Node_eq_dec : EqDecision Node := ltac:(solve_decision).

Record State := mkState {
  files : gmap Path Node;
  stdout : list str;
}.

Definition G (A : Type) : Type := State → outcome A * State.

#[global] Instance G_ret : MRet G := λ A a s, (Returns a, s).
#[global] Instance G_bind : MBind G := λ A B f m s,
  match m s with
  | (Returns a, s') => f a s'
  | (Raises e, s') => (Raises e, s')
  end.

Definition raise {A} (e : raised) : G A := λ s, (Raises e, s).

Definition lift {A} (r : outcome A) : G A := λ s, (r, s).

(** [try: body  except ... as e: handler e] *)
Definition try_except {A} (body : G A) (handler : raised → G A) : G A :=
  λ s, match body s with
       | (Raises e, s') => handler e s'
       | r => r
       end.

(** [print(line)] *)
Definition print (line : str) : G unit := λ s,
  (Returns (), {| files := files s; stdout := stdout s ++ [line] |}).

(** [sys.exit(code)] *)
Definition sys_exit {A} (code : Z) : G A := raise (SystemExit code).

Definition set_node (p : Path) (n : Node) : G unit := λ s,
  (Returns (), {| files := <[p := n]> (files s); stdout := stdout s |}).

(** The walk from the directory [here], which is the node [n], down the
    components [todo]: what [os.stat] finds, or why it fails. *)
Fixpoint stat_from (fs : gmap Path Node) (here : Path) (n : Node) (todo : list str)
    : outcome Node :=
  match todo with
  | [] => Returns n
  | c :: todo' =>
      match n with
      | File _ _ => Raises (OSError ENOTDIR)
      | Dir =>
          match fs !! (here ++ [c]) with
          | Some n' => stat_from fs (here ++ [c]) n' todo'
          | None => Raises (OSError ENOENT)
          end
      end
  end.

(** [os.stat(p)]; the root is a directory. *)
Definition stat (fs : gmap Path Node) (p : Path) : outcome Node := stat_from fs [] Dir p.

(** [p.exists()] *)
Definition path_exists (p : Path) : G bool := λ s,
  (Returns (match stat (files s) p with Returns _ => true | Raises _ => false end), s).

(** [p.is_dir()] *)
Definition is_dir (p : Path) : G bool := λ s,
  (Returns (match stat (files s) p with Returns Dir => true | _ => false end), s).

(** [os.mkdir(p)] *)
Definition os_mkdir (p : Path) : G unit := λ s,
  match p with
  | [] => (Raises (OSError EEXIST), s)
  | _ :: _ =>
      match stat (files s) (parent p) with
      | Raises e => (Raises e, s)
      | Returns (File _ _) => (Raises (OSError ENOTDIR), s)
      | Returns Dir =>
          match files s !! p with
          | Some _ => (Raises (OSError EEXIST), s)
          | None => set_node p Dir s
          end
      end
  end.

(** The clause [except OSError] of [Path.mkdir]: the error stands unless
    [exist_ok] was given and the path is a directory. *)
Definition mkdir_except_OSError (p : Path) (exist_ok : bool) (e : raised) : G unit :=
  d ← is_dir p;
  if negb exist_ok || negb d then raise e else mret ().

(** [p.mkdir(parents=False, exist_ok=exist_ok)] *)
Definition mkdir_one (p : Path) (exist_ok : bool) : G unit :=
  try_except (os_mkdir p) (λ e,
    match e with
    | OSError ENOENT => raise e
    | OSError _ | SameFileError => mkdir_except_OSError p exist_ok e
    | _ => raise e
    end).

(** [p.mkdir(parents=True, exist_ok=exist_ok)] for the path whose
    components, from the last to the first, are [rp]: when the parent is
    missing, the parent is made first, with its own parents, and then the
    directory itself. *)
Fixpoint mkdir_parents_rev (rp : list str) (exist_ok : bool) : G unit :=
  try_except (os_mkdir (rev rp)) (λ e,
    match e with
    | OSError ENOENT =>
        match rp with
        | [] => raise e
        | _ :: rparent =>
            mkdir_parents_rev rparent true;;
            mkdir_one (rev rp) exist_ok
        end
    | OSError _ | SameFileError => mkdir_except_OSError (rev rp) exist_ok e
    | _ => raise e
    end).

(** [p.mkdir(parents=True)] *)
Definition mkdir_parents (p : Path) : G unit := mkdir_parents_rev (rev p) false.

(** [open(p, 'r').read()] *)
Definition read_text (p : Path) : G str := λ s,
  match stat (files s) p with
  | Returns (File content _) => (Returns content, s)
  | Returns Dir => (Raises (OSError EISDIR), s)
  | Raises e => (Raises e, s)
  end.

(** [open(p, 'w').write(content)]: a new file gets the mode
    [new_file_mode], a file that is there keeps its own. *)
Definition write_text (new_file_mode : N) (p : Path) (content : str) : G unit := λ s,
  match p with
  | [] => (Raises (OSError EISDIR), s)
  | _ :: _ =>
      match stat (files s) (parent p) with
      | Raises e => (Raises e, s)
      | Returns (File _ _) => (Raises (OSError ENOTDIR), s)
      | Returns Dir =>
          match files s !! p with
          | Some Dir => (Raises (OSError EISDIR), s)
          | Some (File _ mode) => set_node p (File content mode) s
          | None => set_node p (File content new_file_mode) s
          end
      end
  end.

(** [os.chmod(p, mode)]; directories carry no mode in this model. *)
Definition os_chmod (p : Path) (mode : N) : G unit := λ s,
  match stat (files s) p with
  | Returns (File content _) => set_node p (File content mode) s
  | Returns Dir => (Returns (), s)
  | Raises e => (Raises e, s)
  end.

(** The permission bits of [os.stat(p).st_mode]; a directory answers
    0o755, and the script asks for the mode of files only. *)
Definition stat_mode (p : Path) : G N := λ s,
  match stat (files s) p with
  | Returns (File _ mode) => (Returns mode, s)
  | Returns Dir => (Returns 493%N, s)
  | Raises e => (Raises e, s)
  end.

(** [shutil.copy(src, dst)]: into [dst] when it is a directory; the
    contents, then the permission bits. *)
Definition shutil_copy (new_file_mode : N) (src dst : Path) : G unit :=
  d ← is_dir dst;
  let dst := if d : bool then dst ++ basename src else dst in
  same ← (if bool_decide (src = dst) then path_exists src else mret false);
  (if same : bool then raise SameFileError else mret ());;
  content ← read_text src;
  write_text new_file_mode dst content;;
  mode ← stat_mode src;
  os_chmod dst mode.

(** ** The script *)

(** What the script cannot know from its text: the Unicode tables behind
    [str.isalnum], what [Path(s).resolve()] and [Path.cwd()] answer, the
    resolved directory of the script, and the mode the operating system
    gives a new file. *)
Record Env := mkEnv {
  unicode_alnum : N → bool;
  resolve : str → outcome Path;
  cwd : outcome Path;
  SCRIPT_DIR : Path;
  new_file_mode : N;
}.

(** The docstring of the module (lines 2-11). *)
Definition doc : str :=
  newline ++
  lit "oflike Project Generator" ++ newline ++
  newline ++
  lit "Usage:" ++ newline ++
  lit "  python projectGenerator.py <project_name> [output_path]" ++ newline ++
  newline ++
  lit "Examples:" ++ newline ++
  lit "  python projectGenerator.py mySketch" ++ newline ++
  lit "  python projectGenerator.py mySketch ~/Projects" ++ newline.

(** Lines 67-73. *)
Definition build_content : str :=
  lit "#!/bin/bash" ++ newline ++
  lit "cd " ++ dq ++ lit "$(dirname " ++ dq ++ lit "$0" ++ dq ++ lit ")" ++ dq ++ newline ++
  lit "mkdir -p build" ++ newline ++
  lit "cd build" ++ newline ++
  lit "cmake .." ++ newline ++
  lit "make -j4" ++ newline.

(** Lines 81-84. *)
Definition run_content (project_name : str) : str :=
  lit "#!/bin/bash" ++ newline ++
  lit "cd " ++ dq ++ lit "$(dirname " ++ dq ++ lit "$0" ++ dq ++ lit ")" ++ dq ++ newline ++
  lit "./build.sh && open " ++ dq ++ lit "build/" ++ project_name ++ lit ".app" ++ dq ++ newline.

(** Lines 58-59: the two placeholders of the CMake template. *)
Definition fill_template (project_name oflike_path template : str) : str :=
  replace (lit "{{OFLIKE_PATH}}") oflike_path
    (replace (lit "{{PROJECT_NAME}}") project_name template).

(** Line 122: the test on the project name. *)
Definition valid_name (alnum : N → bool) (project_name : str) : bool :=
  isalnum alnum (replace (lit "-") [] (replace (lit "_") [] project_name)).

Section Script.
Variable env : Env.

(** Lines 19-21; the parent of a resolved path is resolved. *)
Definition OFLIKE_PATH : Path := parent (SCRIPT_DIR env).
Definition TEMPLATES_DIR : Path := joinpath (SCRIPT_DIR env) (lit "templates").

(** Lines 90-103: the closing report. *)
Definition report (project_name : str) (project_dir : Path) : G unit :=
  print [];;
  print (times (lit "=") 50);;
  print (lit "Project '" ++ project_name ++ lit "' created successfully!");;
  print [];;
  print (lit "To build and run:");;
  print (lit "  cd " ++ dq ++ path_str project_dir ++ dq);;
  print (lit "  ./run.sh");;
  print [];;
  print (lit "Or manually:");;
  print (lit "  cd " ++ dq ++ path_str project_dir ++ lit "/build" ++ dq);;
  print (lit "  cmake ..");;
  print (lit "  make");;
  print (lit "  open " ++ project_name ++ lit ".app");;
  print (times (lit "=") 50).

(** Lines 24-103. *)
Definition create_project (project_name : str) (output_path : Path) : G unit :=
  let project_dir := joinpath output_path project_name in
  there ← path_exists project_dir;
  (if there : bool
   then print (lit "Error: Directory '" ++ path_str project_dir ++ lit "' already exists.");;
        sys_exit 1
   else mret ());;
  print (lit "Creating project: " ++ project_name);;
  print (lit "Location: " ++ path_str project_dir);;
  print (lit "oflike path: " ++ path_str OFLIKE_PATH);;
  print [];;
  mkdir_parents (joinpath project_dir (lit "src"));;
  mkdir_parents (joinpath project_dir (lit "bin"));;
  mkdir_parents (joinpath project_dir (lit "build"));;
  let main_template := joinpath TEMPLATES_DIR (lit "main.cpp") in
  let main_dest := joinpath (joinpath project_dir (lit "src")) (lit "main.cpp") in
  shutil_copy (new_file_mode env) main_template main_dest;;
  print (lit "  Created: src/main.cpp");;
  let cmake_template := joinpath TEMPLATES_DIR (lit "CMakeLists.txt.template") in
  let cmake_dest := joinpath project_dir (lit "CMakeLists.txt") in
  cmake_content ← read_text cmake_template;
  let cmake_content := fill_template project_name (path_str OFLIKE_PATH) cmake_content in
  write_text (new_file_mode env) cmake_dest cmake_content;;
  print (lit "  Created: CMakeLists.txt");;
  let build_script := joinpath project_dir (lit "build.sh") in
  write_text (new_file_mode env) build_script build_content;;
  os_chmod build_script 493%N;;
  print (lit "  Created: build.sh");;
  let run_script := joinpath project_dir (lit "run.sh") in
  write_text (new_file_mode env) run_script (run_content project_name);;
  os_chmod run_script 493%N;;
  print (lit "  Created: run.sh");;
  report project_name project_dir.

(** Lines 106-107. *)
Definition print_usage : G unit := print doc.

(** Lines 110-138, on the argument vector [sys.argv]. *)
Definition main (argv : list str) : G unit :=
  match argv with
  | [] | [_] => print_usage;; sys_exit 1
  | _ :: project_name :: rest =>
      if bool_decide (project_name ∈ [lit "-h"; lit "--help"])
      then print_usage;; sys_exit 0
      else
        (if negb (valid_name (unicode_alnum env) project_name)
         then print (lit "Error: Invalid project name '" ++ project_name ++ lit "'");;
              print (lit "Project name should only contain letters, numbers, underscores, and hyphens.");;
              sys_exit 1
         else mret ());;
        output_path ← match rest with
                       | arg :: _ => lift (resolve env arg)
                       | [] => lift (cwd env)
                       end;
        templates ← path_exists TEMPLATES_DIR;
        (if templates : bool
         then mret ()
         else print (lit "Error: Templates directory not found: " ++ path_str TEMPLATES_DIR);;
              sys_exit 1);;
        create_project project_name output_path
  end.

End Script.

End Gen.

(** ** Vocabulary for the generator *)

(** The node at [p] in the tree [fs]; the root is a directory. *)
Definition gen_node (fs : gmap Gen.Path Gen.Node) (p : Gen.Path) : option Gen.Node :=
  match p with
  | [] => Some Gen.Dir
  | _ :: _ => fs !! p
  end.

(** A tree: whatever is there sits in a directory that is there. *)
Definition gen_tree (fs : gmap Gen.Path Gen.Node) : Prop :=
  ∀ p n, fs !! p = Some n → gen_node fs (Gen.parent p) = Some Gen.Dir.

(** The directories from the root down to the path whose components,
    from the last to the first, are [rp]. *)
Fixpoint gen_ancestors_rev (rp : list Gen.str) : gmap Gen.Path Gen.Node :=
  match rp with
  | [] => ∅
  | _ :: rparent => <[rev rp := Gen.Dir]> (gen_ancestors_rev rparent)
  end.

(** The directories from the root down to [p], [p] included. *)
Definition gen_ancestors (p : Gen.Path) : gmap Gen.Path Gen.Node :=
  gen_ancestors_rev (rev p).

(** The state [s] after the lines [lines] were printed. *)
Definition gen_printed (s : Gen.State) (lines : list Gen.str) : Gen.State :=
  {| Gen.files := Gen.files s; Gen.stdout := Gen.stdout s ++ lines |}.

(** The lines [create_project] prints before it touches the tree. *)
Definition gen_opening (env : Gen.Env) (project_name : Gen.str) (project_dir : Gen.Path)
    : list Gen.str :=
  [ Gen.lit "Creating project: " ++ project_name;
    Gen.lit "Location: " ++ Gen.path_str project_dir;
    Gen.lit "oflike path: " ++ Gen.path_str (Gen.OFLIKE_PATH env);
    [] ].




(** A string that names one entry of a directory: not empty, without
    slash, and neither [.] nor [..]. *)
Definition gen_component (c : Gen.str) : Prop :=
  c ≠ [] ∧ (47%N ∉ c) ∧ c ≠ Gen.lit "." ∧ c ≠ Gen.lit "..".

(** No opening brace of [s] is the last character or followed by another
    opening brace: the text does not run into a placeholder. *)
Fixpoint gen_lone_braces (s : Gen.str) : bool :=
  match s with
  | [] => true
  | c :: s' =>
      (if bool_decide (c = 123%N)
       then match s' with
            | d :: _ => negb (bool_decide (d = 123%N))
            | [] => false
            end
       else true) && gen_lone_braces s'
  end.

(** The tree [fs] has grown out of the tree [fs0] around the project
    directory [pd] only: it is a tree, nothing of [fs0] is gone or
    changed, and whatever is new is the project directory, something below
    it, or a directory on the way down to it. *)
Definition gen_confined (fs0 : gmap Gen.Path Gen.Node) (pd : Gen.Path)
    (fs : gmap Gen.Path Gen.Node) : Prop :=
  gen_tree fs ∧ fs0 ⊆ fs ∧
  ∀ q n, fs !! q = Some n → fs0 !! q = None →
         pd `prefix_of` q ∨ (q `prefix_of` pd ∧ n = Gen.Dir).

(** The same, of a state. *)
Definition gen_around (fs0 : gmap Gen.Path Gen.Node) (pd : Gen.Path) (s : Gen.State) : Prop :=
  gen_confined fs0 pd (Gen.files s).

(** The computation [m] keeps the property [I] of the state, however it
    ends. *)
Definition gen_keeps {A} (I : Gen.State → Prop) (m : Gen.G A) : Prop :=
  ∀ s, I s → I (m s).2.

(** ** A concrete generator run, for the examples *)

(** The ASCII part of the Unicode tables: digits and letters. *)
Definition gen_ascii_alnum (c : N) : bool :=
  ((48 <=? c) && (c <=? 57) || (65 <=? c) && (c <=? 90) || (97 <=? c) && (c <=? 122))%N.

(** A script installed in [/opt/oflike/tools], run from [/home/me]. *)
Definition gen_sample_env : Gen.Env :=
  {| Gen.unicode_alnum := gen_ascii_alnum;
     Gen.resolve := λ s, Gen.Returns (Gen.parts s);
     Gen.cwd := Gen.Returns [Gen.lit "home"; Gen.lit "me"];
     Gen.SCRIPT_DIR := [Gen.lit "opt"; Gen.lit "oflike"; Gen.lit "tools"];
     Gen.new_file_mode := 420%N |}.

Definition gen_sample_cmake : Gen.str :=
  Gen.lit "project({{PROJECT_NAME}})" ++ Gen.newline ++
  Gen.lit "add_subdirectory({{OFLIKE_PATH}} ${CMAKE_BINARY_DIR}/oflike)" ++ Gen.newline.

(** A disk with the templates, and a home directory without projects. *)
Definition gen_sample_disk (templates : list (Gen.str * Gen.Node)) : gmap Gen.Path Gen.Node :=
  list_to_map
    ([ ([Gen.lit "opt"], Gen.Dir);
       ([Gen.lit "opt"; Gen.lit "oflike"], Gen.Dir);
       ([Gen.lit "opt"; Gen.lit "oflike"; Gen.lit "tools"], Gen.Dir);
       ([Gen.lit "opt"; Gen.lit "oflike"; Gen.lit "tools"; Gen.lit "templates"], Gen.Dir);
       ([Gen.lit "home"], Gen.Dir);
       ([Gen.lit "home"; Gen.lit "me"], Gen.Dir) ]
     ++ ((λ t, ([Gen.lit "opt"; Gen.lit "oflike"; Gen.lit "tools"; Gen.lit "templates"; t.1], t.2))
           <$> templates)).

Definition gen_sample_templates : list (Gen.str * Gen.Node) :=
  [ (Gen.lit "main.cpp", Gen.File (Gen.lit "int main() { return 0; }") 420%N);
    (Gen.lit "CMakeLists.txt.template", Gen.File gen_sample_cmake 420%N) ].

Definition gen_sample_state (templates : list (Gen.str * Gen.Node)) : Gen.State :=
  {| Gen.files := gen_sample_disk templates; Gen.stdout := [] |}.

(** * Proofs *)

(** ** Running the script by hand *)

Arguments String.append : simpl never.
Arguments pretty : simpl never.

(** One step of symbolic execution of a monadic term applied to a world
    whose components are variables. *)
Ltac exec_step :=
  first
    [ progress lazy beta iota zeta delta
        [ print emit raise lift raise_if get_world new_module set_module get_module
          module_eval write_file sys_exit os_path_exists torch_load torch_rand
          try_except mbind M_bind mret M_ret
          wrapper_eval forward load_state_dict load_pytorch_model create_example_input
          torch_jit_trace ct_convert quantize_weights mlmodel_save
          convert_to_coreml compare_output compare_outputs compare_all
          mlmodel_predict validate_coreml_model os_makedirs success_banner check_input
          make_output_dir validate_unless_skipped pipeline report_failure main
          fs heap next_ref rng log fst snd model negb ]
    | rewrite lookup_insert_eq
    | rewrite insert_insert_eq ].
Ltac exec := repeat exec_step.

(** A case split on the next answer of the outside world. *)
Ltac case_oracle :=
  match goal with
  | |- context [match ?h !! ?r with _ => _ end] => destruct (h !! r) eqn:?
  | |- context [if forallb ?f ?l then _ else _] => destruct (forallb f l) eqn:?
  | |- context [match raw_forward ?e ?m ?i with _ => _ end] =>
      destruct (raw_forward e m i) eqn:?
  | |- context [match jit_trace_error ?e ?m ?i with _ => _ end] =>
      destruct (jit_trace_error e m i) eqn:?
  | |- context [match ct_convert_error ?e ?a ?b ?c with _ => _ end] =>
      destruct (ct_convert_error e a b c) eqn:?
  | |- context [match quantize_error ?e ?m with _ => _ end] =>
      destruct (quantize_error e m) eqn:?
  | |- context [match save_error ?e ?p ?m with _ => _ end] =>
      destruct (save_error e p m) eqn:?
  | |- context [match makedirs_error ?e ?d with _ => _ end] =>
      destruct (makedirs_error e d) eqn:?
  end.
Ltac run := exec; repeat (case_oracle; exec).

(** Logs as one list appended to the initial log. *)
Ltac norm_log := repeat rewrite <- app_assoc; cbn [app].

(** A run is determined by its result and its final world. *)
Lemma run_eq {A} (x : result A * World) (r : result A) : x.1 = r → x = (r, x.2).
Proof. intros <-. by destruct x. Qed.

Lemma add_log_nil w : add_log w [] = w.
Proof. destruct w. unfold add_log. simpl. by rewrite app_nil_r. Qed.

Lemma add_log_app w l1 l2 : add_log (add_log w l1) l2 = add_log w (l1 ++ l2).
Proof. unfold add_log. simpl. by rewrite app_assoc. Qed.

(** ** Counting and ordering events *)

Lemma count_app p l1 l2 : count p (l1 ++ l2) = count p l1 + count p l2.
Proof. unfold count. by rewrite List.filter_app, length_app. Qed.

Lemma count_prints p evs :
  (∀ l, p (EvPrint l) = false) → Forall (λ ev, ∃ l, ev = EvPrint l) evs → count p evs = 0.
Proof.
  intros Hp H. induction H as [|ev evs [l ->] _ IH]; [done|].
  unfold count in *. simpl. by rewrite Hp.
Qed.





(** ** The decomposition of the raw output *)

Lemma zip_with_map_same {A B C D} (f : B → C → D) (g : A → B) (h : A → C) (l : list A) :
  zip_with f (map g l) (map h l) = map (λ a, f (g a) (h a)) l.
Proof. induction l; simpl; congruence. Qed.

Section SliceLemmas.
Context {A : Type}.
Implicit Types (l r : list A) (x : Tensor.t A).

Lemma slice_length a b l : length (Tensor.slice a b l) = (b - a) `min` (length l - a).
Proof. unfold Tensor.slice. by rewrite length_take, length_drop. Qed.

Lemma slice_app a b c l :
  a ≤ b → b ≤ c → Tensor.slice a b l ++ Tensor.slice b c l = Tensor.slice a c l.
Proof.
  intros Hab Hbc. unfold Tensor.slice.
  replace (c - a) with ((b - a) + (c - b)) by lia.
  rewrite <- take_take_drop, drop_drop.
  by replace (a + (b - a)) with b by lia.
Qed.

Lemma slice_all n l : length l = n → Tensor.slice 0 n l = l.
Proof. intros <-. unfold Tensor.slice. rewrite drop_0, Nat.sub_0_r. apply firstn_all. Qed.

Lemma cat_last_slices (f g : list A → list A) x :
  Tensor.cat_last (map (map f) x) (map (map g) x) = map (map (λ r, f r ++ g r)) x.
Proof.
  unfold Tensor.cat_last. rewrite zip_with_map_same.
  apply map_ext. intros m. apply zip_with_map_same.
Qed.

Lemma slice_last_shape a b d0 d1 d2 x :
  Tensor.has_shape d0 d1 d2 x → b ≤ d2 →
  Tensor.has_shape d0 d1 (b - a) (Tensor.slice_last a b x).
Proof.
  intros [H0 Hx] Hb. split; [by unfold Tensor.slice_last; rewrite length_map|].
  unfold Tensor.slice_last. apply Forall_map. eapply Forall_impl; [exact Hx|].
  intros m [Hm Hr]. split; [by rewrite length_map|].
  apply Forall_map. eapply Forall_impl; [exact Hr|].
  intros r Hlen. simpl in *. rewrite slice_length, Hlen. lia.
Qed.

Lemma recompose_decompose N x : Tensor.has_shape 1 N 14 x → recompose (decompose x) = x.
Proof.
  intros [_ Hx]. unfold decompose, recompose, Tensor.slice_last.
  cbn [positions colors opacities scales rotations].
  rewrite !cat_last_slices.
  transitivity (map id x); [|apply map_id].
  apply map_ext_Forall. eapply Forall_impl; [exact Hx|].
  intros m [_ Hr]. simpl.
  transitivity (map id m); [|apply map_id].
  apply map_ext_Forall. eapply Forall_impl; [exact Hr|].
  intros r Hlen. simpl.
  rewrite !slice_app by lia. by apply slice_all.
Qed.
End SliceLemmas.

(** C1.  When the raw network answers a tensor of shape (1, N, 14), the
    wrapper's [forward] returns the five tensors cut from its last axis at
    [0:3), [3:6), [6:7), [7:10) and [10:14), in the order positions, colors,
    opacities, scales, rotations; their shapes are (1,N,3), (1,N,3),
    (1,N,1), (1,N,3) and (1,N,4); and joined again on the last axis they
    are the raw tensor. *)
Theorem decompose_roundtrip (ext : Externals) (self : SharpModelWrapper) (image : Image)
    (w : World) (m : Model) (output : Tensor.t Q) (N : nat) :
  heap w !! model self = Some m →
  raw_forward ext m image = Ok output →
  Tensor.has_shape 1 N 14 output →
  ∃ g, (forward ext self image w).1 = Ok g ∧
    positions g = Tensor.slice_last 0 3 output ∧
    colors g = Tensor.slice_last 3 6 output ∧
    opacities g = Tensor.slice_last 6 7 output ∧
    scales g = Tensor.slice_last 7 10 output ∧
    rotations g = Tensor.slice_last 10 14 output ∧
    Tensor.has_shape 1 N 3 (positions g) ∧
    Tensor.has_shape 1 N 3 (colors g) ∧
    Tensor.has_shape 1 N 1 (opacities g) ∧
    Tensor.has_shape 1 N 3 (scales g) ∧
    Tensor.has_shape 1 N 4 (rotations g) ∧
    recompose g = output.
Proof.
  intros Hm Hraw Hs. exists (decompose output). split.
  { destruct w as [wfs wheap wnext wrng wlog], self as [r]. simpl in Hm. exec.
    rewrite Hm. exec. rewrite Hraw. by exec. }
  unfold decompose at 1 2 3 4 5 6 7 8 9 10.
  cbn [positions colors opacities scales rotations].
  repeat split_and; try reflexivity;
    try (match goal with
         | |- Tensor.has_shape _ _ _ (Tensor.slice_last ?a ?b _) =>
             by apply (slice_last_shape a b 1 N 14); [exact Hs | lia]
         end).
  by apply (recompose_decompose N).
Qed.

Lemma decompose_roundtrip_sample :
  ∃ g, (forward faithful_externals (mkWrapper 0%N)
          (mkImage [1; 3; 512; 512]%Z 0)
          {| fs := ∅; heap := {[ 0%N := placeholder_model ]}; next_ref := 1; rng := 1;
             log := [] |}).1 = Ok g ∧
    Tensor.has_shape 1 2 4 (rotations g) ∧
    recompose g = sample_output.
Proof.
  destruct (decompose_roundtrip faithful_externals (mkWrapper 0%N)
              (mkImage [1; 3; 512; 512]%Z 0)
              {| fs := ∅; heap := {[ 0%N := placeholder_model ]}; next_ref := 1; rng := 1;
                 log := [] |}
              placeholder_model sample_output 2)
    as (g & Hg & _ & _ & _ & _ & _ & _ & _ & _ & _ & Hrot & Hcat).
  - reflexivity.
  - reflexivity.
  - split; [reflexivity|]. repeat constructor.
  - exists g. split_and!; assumption.
Defined.

(** ** The loader *)

(** The loader on a checkpoint that deserializes, in full: what the caller
    sees as a function of the two binding attempts. *)
Lemma load_run ext path w c :
  fs w !! path = Some (FCheckpoint (Ok c)) →
  let sd := extract_state_dict c in
  let strict := nn_load_state_dict ext true sd placeholder_model in
  let relaxed := nn_load_state_dict ext false sd strict.1 in
  let pre := [EvPrint (Text ("Loading PyTorch model from: " +:+ path)); EvTorchLoad path;
              EvLoadStateDict true] in
  let retry := [EvPrint (Text ("Warning: Could not load state dict directly: " +:+
                                match strict.2 with Raise e => str_exn e | Ok _ => "" end));
                EvPrint (Text "Attempting to load with strict=False...");
                EvLoadStateDict false] in
  let done := [EvPrint (Text "✓ Model loaded successfully")] in
  loaded (load_pytorch_model ext path w) =
  match strict.2 with
  | Ok _ => (Ok (next_ref w, Some (eval_mode strict.1)), log w ++ pre ++ done)
  | Raise e =>
      if is_RuntimeError e then
        match relaxed.2 with
        | Ok _ => (Ok (next_ref w, Some (eval_mode relaxed.1)), log w ++ pre ++ retry ++ done)
        | Raise e' => (Raise e', log w ++ pre ++ retry)
        end
      else (Raise e, log w ++ pre)
  end.
Proof.
  intros Hf. destruct w as [wfs wheap wnext wrng wlog]. simpl in Hf.
  unfold loaded. exec. rewrite Hf. exec.
  destruct (nn_load_state_dict ext true (extract_state_dict c) placeholder_model)
    as [m1 [[]|e1]] eqn:H1; exec.
  { norm_log. reflexivity. }
  destruct (is_RuntimeError e1) eqn:He; exec; [|norm_log; reflexivity].
  destruct (nn_load_state_dict ext false (extract_state_dict c) m1) as [m2 [[]|e2]] eqn:H2; exec;
    norm_log; reflexivity.
Qed.

Lemma loaded_raise x e l : loaded x = (Raise e, l) → x.1 = Raise e ∧ log x.2 = l.
Proof. unfold loaded. destruct x.1; intros [= ? ?]; by subst. Qed.

Lemma loaded_ok x r m l :
  loaded x = (Ok (r, m), l) → x.1 = Ok r ∧ heap x.2 !! r = m ∧ log x.2 = l.
Proof. unfold loaded. destruct x.1; intros [= ? ? ?]; by subst. Qed.

(** The loader on anything else: the exception of [torch.load]. *)
Lemma load_unreadable ext path w :
  (∀ c, fs w !! path ≠ Some (FCheckpoint (Ok c))) →
  ∃ e, (load_pytorch_model ext path w).1 = Raise e ∧
       (∀ e', fs w !! path = Some (FCheckpoint (Raise e')) → e = e').
Proof.
  intros Hf. destruct w as [wfs wheap wnext wrng wlog]. simpl in *. exec.
  destruct (wfs !! path) as [[[c|e]| |]|] eqn:E; exec.
  - by destruct (Hf c).
  - eexists; split; [done|]. by intros ? [= ->].
  - eexists; split; done.
  - eexists; split; done.
  - eexists; split; done.
Qed.


(** *** Where the weights are looked for *)

Lemma extract_model d v : d !! "model" = Some v → extract_state_dict (PDict d) = v.
Proof. intros H. simpl. by rewrite H. Qed.






(** *** [load_state_dict] on a mapping *)

Lemma copy_param_idem sd k p : copy_param sd k (copy_param sd k p) = copy_param sd k p.
Proof.
  unfold copy_param. destruct (sd !! k) as [[t| | |]|]; try done.
  destruct (decide (t_shape t = t_shape p)).
  - by rewrite decide_True.
  - by rewrite decide_False.
Qed.

Lemma copy_param_unbound sd k p : binds sd k p = false → copy_param sd k p = p.
Proof.
  unfold binds, copy_param. destruct (sd !! k) as [[t| | |]|]; try done.
  intros H. apply bool_decide_eq_false in H. by rewrite decide_False.
Qed.

Lemma bound_params_lookup sd m k :
  bound_params sd m !! k = copy_param sd k <$> params m !! k.
Proof. unfold bound_params. rewrite map_lookup_imap. by destruct (params m !! k). Qed.

Lemma bound_params_idem sd m :
  bound_params sd {| params := bound_params sd m; training := training m |} = bound_params sd m.
Proof.
  apply map_eq. intros k. rewrite !bound_params_lookup. simpl. rewrite bound_params_lookup.
  destruct (params m !! k); simpl; [|done]. by rewrite copy_param_idem.
Qed.

Lemma bound_params_none sd m :
  (∀ k p, params m !! k = Some p → binds sd k p = false) → bound_params sd m = params m.
Proof.
  intros H. apply map_eq. intros k. rewrite bound_params_lookup.
  destruct (params m !! k) eqn:E; simpl; [|done]. by rewrite copy_param_unbound; [|eauto].
Qed.

(** A second pass meets the failures of the first. *)
Lemma copy_failures_bound sd m :
  copy_failures sd {| params := bound_params sd m; training := training m |} = copy_failures sd m.
Proof.
  unfold copy_failures. simpl. apply set_eq. intros k.
  rewrite !elem_of_dom. unfold is_Some.
  setoid_rewrite map_lookup_filter_Some. simpl. setoid_rewrite bound_params_lookup.
  unfold copy_error, copy_param.
  split.
  - intros (x & Hx & He). destruct (params m !! k) as [p|] eqn:Ep; [|done]. simpl in Hx.
    exists p. split; [done|]. injection Hx as <-.
    destruct (sd !! k) as [[t| | |]|]; try done.
    destruct (decide (t_shape t = t_shape p)); [|done].
    rewrite bool_decide_eq_true_2 in He; done.
  - intros (p & Hp & He). rewrite Hp. simpl. eexists; split; [done|].
    destruct (sd !! k) as [[t| | |]|]; try done.
    destruct (decide (t_shape t = t_shape p)); [|done].
    rewrite bool_decide_eq_true_2 in He; done.
Qed.

Lemma torch_strict_partial sd m :
  copy_failures sd m = ∅ → missing_keys sd m ≠ ∅ ∨ unexpected_keys sd m ≠ ∅ →
  torch_load_state_dict true (PDict sd) m =
    ({| params := bound_params sd m; training := training m |}, Raise state_dict_error).
Proof.
  intros Hc Hk. unfold torch_load_state_dict. fold (bound_params sd m). f_equal.
  rewrite (bool_decide_eq_true_2 _ Hc). simpl.
  destruct Hk as [Hk|Hk]; rewrite (bool_decide_eq_false_2 _ Hk); [done|].
  by rewrite andb_false_r.
Qed.

Lemma torch_strict_exact sd m :
  copy_failures sd m = ∅ → missing_keys sd m = ∅ → unexpected_keys sd m = ∅ →
  torch_load_state_dict true (PDict sd) m =
    ({| params := bound_params sd m; training := training m |}, Ok ()).
Proof.
  intros Hc H1 H2. unfold torch_load_state_dict. fold (bound_params sd m). f_equal.
  by rewrite !bool_decide_eq_true_2.
Qed.

Lemma torch_strict_copy_failure sd m :
  copy_failures sd m ≠ ∅ →
  torch_load_state_dict true (PDict sd) m =
    ({| params := bound_params sd m; training := training m |}, Raise state_dict_error).
Proof.
  intros Hc. unfold torch_load_state_dict. fold (bound_params sd m). f_equal.
  by rewrite (bool_decide_eq_false_2 _ Hc).
Qed.

Lemma torch_relaxed sd m :
  torch_load_state_dict false (PDict sd) m =
    ({| params := bound_params sd m; training := training m |},
     if bool_decide (copy_failures sd m = ∅) then Ok () else Raise state_dict_error).
Proof.
  unfold torch_load_state_dict. fold (bound_params sd m). f_equal.
  simpl. by rewrite andb_true_r.
Qed.

Lemma torch_not_mapping strict o m :
  (∀ d, o ≠ PDict d) → torch_load_state_dict strict o m = (m, Raise not_a_mapping_error).
Proof. intros H. destruct o; try done. by destruct (H d). Qed.

(** C6.  When the weights collection is a mapping none of whose entries
    fails to copy, and some key of the architecture is missing from it or
    some key of it is unexpected, the loader does not raise: after the
    strict attempt it makes one relaxed attempt, prints the warning and
    nothing else about the mismatch, and returns the module in evaluation
    mode, each parameter holding the checkpoint's tensor where the key is
    present and its initial value elsewhere. *)
Theorem partial_binding_recovers (ext : Externals) (path : string) (w : World)
    (c : PyObj) (sd : gmap string PyObj) :
  nn_load_state_dict ext = torch_load_state_dict →
  fs w !! path = Some (FCheckpoint (Ok c)) →
  extract_state_dict c = PDict sd →
  copy_failures sd placeholder_model = ∅ →
  missing_keys sd placeholder_model ≠ ∅ ∨ unexpected_keys sd placeholder_model ≠ ∅ →
  ∃ m,
    loaded (load_pytorch_model ext path w) =
      (Ok (next_ref w, Some m),
       log w ++
       [ EvPrint (Text ("Loading PyTorch model from: " +:+ path));
         EvTorchLoad path;
         EvLoadStateDict true;
         EvPrint (Text ("Warning: Could not load state dict directly: " +:+
                        str_exn state_dict_error));
         EvPrint (Text "Attempting to load with strict=False...");
         EvLoadStateDict false;
         EvPrint (Text "✓ Model loaded successfully") ]) ∧
    training m = false ∧
    ∀ k, params m !! k = copy_param sd k <$> params placeholder_model !! k.
Proof.
  intros Hext Hf Hsd Hc Hk.
  rewrite (load_run ext path w c Hf). cbv zeta. rewrite Hext, Hsd.
  rewrite (torch_strict_partial sd _ Hc Hk). cbn [fst snd is_RuntimeError state_dict_error].
  rewrite torch_relaxed. cbn [fst snd].
  rewrite copy_failures_bound, (bool_decide_eq_true_2 _ Hc).
  eexists. split; [reflexivity|]. split; [done|].
  intros k. cbn [eval_mode params]. rewrite bound_params_idem. apply bound_params_lookup.
Qed.

Lemma partial_binding_sample :
  ∃ m, (loaded (load_pytorch_model faithful_externals "sharp.pth" sample_world)).1 =
         Ok (0%N, Some m) ∧
       training m = false ∧
       params m !! "0.bias" = Some (mkWTensor [64]%Z (Stored 2)) ∧
       params m !! "4.bias" = Some (mkWTensor [14000]%Z RandomInit).
Proof.
  destruct (partial_binding_recovers faithful_externals "sharp.pth" sample_world
              sample_checkpoint conv_weights) as (m & Hrun & Ht & Hp).
  - reflexivity.
  - reflexivity.
  - reflexivity.
  - by vm_compute.
  - left. intros H. vm_compute in H. discriminate H.
  - exists m. rewrite Hrun. split_and!; [done|done| |]; by rewrite Hp.
Defined.

(** C3, as amended.  The loader raises when the checkpoint cannot be
    deserialized (the exception is the deserializer's own), when the
    weights collection is not a mapping, and when an entry under a key of
    the architecture cannot be copied (it is not a tensor, or has another
    shape).  On a mapping without such an entry it returns the module in
    evaluation mode, whatever the keys: when no parameter is bound at all
    the module it returns still has its initial weights. *)
Theorem loader_failures (ext : Externals) (path : string) (w : World) :
  nn_load_state_dict ext = torch_load_state_dict →
  let out := load_pytorch_model ext path w in
  (∀ e, fs w !! path = Some (FCheckpoint (Raise e)) → out.1 = Raise e) ∧
  ((∀ c, fs w !! path ≠ Some (FCheckpoint (Ok c))) → is_Ok out.1 = false) ∧
  (∀ c, fs w !! path = Some (FCheckpoint (Ok c)) →
     (∀ d, extract_state_dict c ≠ PDict d) → out.1 = Raise not_a_mapping_error) ∧
  (∀ c sd, fs w !! path = Some (FCheckpoint (Ok c)) → extract_state_dict c = PDict sd →
     copy_failures sd placeholder_model ≠ ∅ → out.1 = Raise state_dict_error) ∧
  (∀ c sd, fs w !! path = Some (FCheckpoint (Ok c)) → extract_state_dict c = PDict sd →
     copy_failures sd placeholder_model = ∅ →
     out.1 = Ok (next_ref w) ∧
     heap out.2 !! next_ref w =
       Some {| params := bound_params sd placeholder_model; training := false |} ∧
     ((∀ k p, params placeholder_model !! k = Some p → binds sd k p = false) →
      heap out.2 !! next_ref w = Some (eval_mode placeholder_model))).
Proof.
  intros Hext out. split_and!.
  - intros e Hf. destruct (load_unreadable ext path w) as (e' & H1 & H2).
    { intros c. by rewrite Hf. }
    fold out in H1. rewrite H1. f_equal. by apply H2.
  - intros Hf. destruct (load_unreadable ext path w Hf) as (e' & H1 & _).
    fold out in H1. by rewrite H1.
  - intros c Hf Hno. pose proof (load_run ext path w c Hf) as Hrun. cbv zeta in Hrun.
    rewrite Hext, !(torch_not_mapping _ _ _ Hno) in Hrun. cbn in Hrun.
    by apply loaded_raise in Hrun as [? _].
  - intros c sd Hf Hsd Hc. pose proof (load_run ext path w c Hf) as Hrun. cbv zeta in Hrun.
    rewrite Hext, Hsd, (torch_strict_copy_failure _ _ Hc), torch_relaxed in Hrun.
    cbn [fst snd is_RuntimeError state_dict_error] in Hrun.
    rewrite copy_failures_bound, (bool_decide_eq_false_2 _ Hc) in Hrun.
    by apply loaded_raise in Hrun as [? _].
  - intros c sd Hf Hsd Hc. pose proof (load_run ext path w c Hf) as Hrun. cbv zeta in Hrun.
    rewrite Hext, Hsd in Hrun.
    assert (Hfin : ∃ m, out.1 = Ok (next_ref w) ∧
                        heap out.2 !! next_ref w = Some (eval_mode m) ∧
                        params m = bound_params sd placeholder_model).
    { destruct (decide (missing_keys sd placeholder_model = ∅)) as [H1|H1];
      [destruct (decide (unexpected_keys sd placeholder_model = ∅)) as [H2|H2]|].
      - rewrite (torch_strict_exact _ _ Hc H1 H2) in Hrun. cbn [fst snd] in Hrun.
        apply loaded_ok in Hrun as (? & ? & _). eexists; split_and!; done.
      - rewrite (torch_strict_partial _ _ Hc (or_intror H2)), torch_relaxed in Hrun.
        cbn [fst snd is_RuntimeError state_dict_error] in Hrun.
        rewrite copy_failures_bound, (bool_decide_eq_true_2 _ Hc) in Hrun.
        apply loaded_ok in Hrun as (? & ? & _). eexists; split_and!; [done|done|].
        cbn [params]. apply bound_params_idem.
      - rewrite (torch_strict_partial _ _ Hc (or_introl H1)), torch_relaxed in Hrun.
        cbn [fst snd is_RuntimeError state_dict_error] in Hrun.
        rewrite copy_failures_bound, (bool_decide_eq_true_2 _ Hc) in Hrun.
        apply loaded_ok in Hrun as (? & ? & _). eexists; split_and!; [done|done|].
        cbn [params]. apply bound_params_idem. }
    destruct Hfin as (m & Hres & Hheap & Hp).
    assert (Hm : eval_mode m =
                 {| params := bound_params sd placeholder_model; training := false |}).
    { unfold eval_mode. by rewrite Hp. }
    rewrite Hm in Hheap. split_and!; [done|done|].
    intros Hnone. rewrite Hheap. unfold eval_mode. by rewrite (bound_params_none _ _ Hnone).
Qed.

Lemma loader_failures_sample :
  (load_pytorch_model faithful_externals "sharp.pth"
     (initial_world {[ "sharp.pth" := FCheckpoint (Raise (PyExn EOFError "Ran out of input")) ]})).1
    = Raise (PyExn EOFError "Ran out of input") ∧
  (load_pytorch_model faithful_externals "sharp.pth"
     (initial_world {[ "sharp.pth" := FCheckpoint (Ok (PInt 7)) ]})).1
    = Raise not_a_mapping_error ∧
  (load_pytorch_model faithful_externals "sharp.pth" sample_world).1 = Ok 0%N.
Proof.
  split_and!.
  - refine (proj1 (loader_failures faithful_externals "sharp.pth" _ eq_refl) _ _).
    reflexivity.
  - refine (proj1 (proj2 (proj2 (loader_failures faithful_externals "sharp.pth" _ eq_refl)))
              (PInt 7) _ _).
    + reflexivity.
    + intros d. discriminate.
  - refine (proj1 (proj2 (proj2 (proj2 (proj2
              (loader_failures faithful_externals "sharp.pth" sample_world eq_refl))))
              sample_checkpoint conv_weights _ _ _)).
    + reflexivity.
    + reflexivity.
    + by vm_compute.
Defined.

(** C3, as stated, fails: a checkpoint that holds the empty mapping
    deserializes and binds no parameter, neither strictly nor relaxed, yet
    the loader returns a module, whose weights are all the initial ones. *)
Lemma empty_mapping_loads_silently :
  let out := load_pytorch_model faithful_externals "sharp.pth"
               (initial_world {[ "sharp.pth" := FCheckpoint (Ok (PDict ∅)) ]}) in
  (∀ k p, params placeholder_model !! k = Some p → binds ∅ k p = false) ∧
  out.1 = Ok 0%N ∧
  heap out.2 !! 0%N = Some (eval_mode placeholder_model) ∧
  map_Forall (λ _ p, t_data p = RandomInit) (params (eval_mode placeholder_model)).
Proof.
  split_and!.
  - intros k p _. unfold binds. by rewrite lookup_empty.
  - by vm_compute.
  - by vm_compute.
  - apply map_Forall_to_list. vm_compute. repeat constructor.
Qed.

(** C10.  The relaxed attempt is made exactly when the strict attempt
    raises an instance of [RuntimeError].  Any other exception of the
    strict attempt leaves the loader as it is, after one attempt; an
    exception of the relaxed attempt leaves the loader as it is, after two
    attempts. *)
Theorem fallback_only_on_RuntimeError (ext : Externals) (path : string) (w : World)
    (c : PyObj) :
  fs w !! path = Some (FCheckpoint (Ok c)) →
  let sd := extract_state_dict c in
  let strict := nn_load_state_dict ext true sd placeholder_model in
  let relaxed := nn_load_state_dict ext false sd strict.1 in
  let out := load_pytorch_model ext path w in
  let fell_back := match strict.2 with Raise e => is_RuntimeError e | Ok _ => false end in
  count is_relaxed_bind (log out.2) =
    count is_relaxed_bind (log w) + (if fell_back then 1 else 0) ∧
  count is_bind (log out.2) = count is_bind (log w) + (if fell_back then 2 else 1) ∧
  (∀ e, strict.2 = Raise e → is_RuntimeError e = false → out.1 = Raise e) ∧
  (∀ e e', strict.2 = Raise e → is_RuntimeError e = true → relaxed.2 = Raise e' →
           out.1 = Raise e').
Proof.
  intros Hf sd strict relaxed out fell_back.
  pose proof (load_run ext path w c Hf) as Hrun. cbv zeta in Hrun.
  fold sd in Hrun. fold strict in Hrun. fold relaxed in Hrun. fold out in Hrun.
  subst fell_back.
  destruct (strict.2) as [[]|e] eqn:Hs.
  - apply loaded_ok in Hrun as (Hres & _ & Hlog).
    rewrite Hlog, !count_app. cbn. split_and!; try lia; done.
  - destruct (is_RuntimeError e) eqn:He.
    + destruct (relaxed.2) as [[]|e'] eqn:Hr.
      * apply loaded_ok in Hrun as (Hres & _ & Hlog).
        rewrite Hlog, !count_app. cbn. split_and!; [lia|lia|congruence|done].
      * apply loaded_raise in Hrun as (Hres & Hlog).
        rewrite Hlog, !count_app. cbn. split_and!; [lia|lia|congruence|congruence].
    + apply loaded_raise in Hrun as (Hres & Hlog).
      rewrite Hlog, !count_app. cbn. split_and!; [lia|lia|congruence|congruence].
Qed.

Lemma fallback_sample :
  (* a state dict that is no mapping: TypeError, one attempt *)
  (let out := load_pytorch_model faithful_externals "sharp.pth"
                (initial_world {[ "sharp.pth" := FCheckpoint (Ok (PInt 7)) ]}) in
   out.1 = Raise not_a_mapping_error ∧ count is_bind (log out.2) = 1) ∧
  (* a tensor of the wrong shape: RuntimeError twice, two attempts *)
  (let out := load_pytorch_model faithful_externals "sharp.pth"
                (initial_world {[ "sharp.pth" := FCheckpoint (Ok (PDict
                   {[ "0.bias" := PTensor (mkWTensor [32]%Z (Stored 3)) ]})) ]}) in
   out.1 = Raise state_dict_error ∧ count is_bind (log out.2) = 2).
Proof.
  split.
  - pose proof (fallback_only_on_RuntimeError faithful_externals "sharp.pth"
                  (initial_world {[ "sharp.pth" := FCheckpoint (Ok (PInt 7)) ]})
                  (PInt 7) eq_refl) as (_ & H2 & H3 & _).
    split; [by apply (H3 not_a_mapping_error)|exact H2].
  - pose proof (fallback_only_on_RuntimeError faithful_externals "sharp.pth"
                  (initial_world {[ "sharp.pth" := FCheckpoint (Ok (PDict
                     {[ "0.bias" := PTensor (mkWTensor [32]%Z (Stored 3)) ]})) ]})
                  _ eq_refl) as (_ & H2 & _ & H4).
    split; [|exact H2]. apply (H4 state_dict_error state_dict_error); by vm_compute.
Defined.

(** ** The conversion *)

(** Every run of the conversion, whatever the library calls answer: the
    order of its events, what it leaves on disk, and the model it
    returns. *)
Lemma convert_effects ext pm path shape units q w :
  let out := convert_to_coreml ext pm path shape units q w in
  ∃ evs, log out.2 = log w ++ evs ∧
    preceded_byb is_trace is_quantize false evs = true ∧
    never_afterb is_quantize is_trace false evs = true ∧
    preceded_byb is_trace is_save false evs = true ∧
    preceded_byb is_convert is_save false evs = true ∧
    (if q then preceded_byb is_quantize is_save false evs
     else bool_decide (count is_quantize evs = 0)) = true ∧
    count is_forward evs = count is_trace evs ∧
    count is_trace evs ≤ 1 ∧
    count is_predict evs = 0 ∧
    (count is_save evs = 0 → fs out.2 = fs w) ∧
    match out.1 with
    | Raise _ => fs out.2 = fs w
    | Ok m =>
        fs out.2 = <[path := FArtifact m]> (fs w) ∧
        count is_trace evs = 1 ∧ count is_save evs = 1 ∧
        ml_inputs m = [image_input shape] ∧ ml_outputs m = output_ports ∧
        ml_weight_bits m = (if q then Some 8 else None) ∧
        (ml_author m, ml_license m, ml_short_description m, ml_version m) =
          ("oflike-metal", "MIT", "SHARP: Single-image 3D Gaussian Splatting", "1.0.0") ∧
        dom (ml_input_description m) = {["image"]} ∧
        dom (ml_output_description m) =
          {["positions"; "colors"; "opacities"; "scales"; "rotations"]}
    end.
Proof.
  intros out; subst out. destruct w as [wfs wheap wnext wrng wlog], shape as [h wd].
  destruct q; run.
  all: norm_log.
  all: (eexists; split; [reflexivity|]).
  all: (split_and!; try reflexivity).
  all: try (cbn; lia).
  all: try done.
  all: try (by vm_compute).
Qed.





(** ** The comparison *)

Lemma traverse_ok {A B} (f : A → result B) (g : A → B) l :
  Forall (λ a, f a = Ok (g a)) l → traverse f l = Ok (map g l).
Proof. induction 1 as [|a l Ha _ IH]; simpl; [done|]. by rewrite Ha, IH. Qed.

(** On lists of equal length, broadcasting pairs the elements up. *)
Lemma broadcast_same {A B C} (f : A → B → result C) (g : A → B → C) xs ys :
  Forall2 (λ a b, f a b = Ok (g a b)) xs ys →
  broadcast f xs ys = Ok (zip_with g xs ys).
Proof.
  intros H. unfold broadcast. rewrite decide_True by (by eapply Forall2_length).
  rewrite (traverse_ok _ (λ xy, g xy.1 xy.2)).
  - f_equal. clear H. revert ys. induction xs; intros [|??]; simpl; congruence.
  - induction H; simpl; constructor; done.
Qed.

Lemma same_length_Forall2 {A B} (r1 : list A) (r2 : list B) (P : A → B → Prop) :
  length r1 = length r2 → (∀ a b, P a b) → Forall2 P r1 r2.
Proof.
  intros Hr HP. revert r2 Hr.
  induction r1; intros [|??] ?; simplify_eq/=; constructor; auto.
Qed.

Lemma np_sub_same_shape x y :
  same_shape x y → np_sub x y = Ok (zip_with (zip_with (zip_with Qminus)) x y).
Proof.
  intros H. unfold np_sub. apply broadcast_same.
  eapply Forall2_impl; [exact H|]. intros m1 m2 Hm. apply broadcast_same.
  eapply Forall2_impl; [exact Hm|]. intros r1 r2 Hr. apply broadcast_same.
  by apply same_length_Forall2.
Qed.

Lemma concat_zip_with {A B C} (f : A → B → C) (xs : list (list A)) (ys : list (list B)) :
  Forall2 (λ a b, length a = length b) xs ys →
  concat (zip_with (zip_with f) xs ys) = zip_with f (concat xs) (concat ys).
Proof.
  induction 1 as [|a b xs ys Hab _ IH]; simpl; [done|].
  rewrite IH. clear IH. revert b Hab.
  induction a; intros [|??] ?; simplify_eq/=; [done|]. f_equal. auto.
Qed.

Lemma map_zip_with {A B C D} (g : C → D) (f : A → B → C) (l : list A) (k : list B) :
  map g (zip_with f l k) = zip_with (λ a b, g (f a b)) l k.
Proof. revert k. induction l; intros [|??]; simpl; congruence. Qed.

Lemma zip_with_ext_same {A B C} (f g : A → B → C) (l : list A) (k : list B) :
  (∀ a b, f a b = g a b) → zip_with f l k = zip_with g l k.
Proof. intros H. revert k. induction l; intros [|??]; simpl; congruence. Qed.

Lemma Forall2_concat_rows {A B} (P : A → B → Prop) (xs : list (list A)) (ys : list (list B)) :
  Forall2 (Forall2 P) xs ys → Forall2 P (concat xs) (concat ys).
Proof. induction 1; simpl; [constructor|]. by apply Forall2_app. Qed.

(** What the script takes the maximum and the mean of. *)
Lemma ravel_abs_sub x y :
  same_shape x y →
  Tensor.ravel (np_abs (zip_with (zip_with (zip_with Qminus)) x y)) = abs_diffs x y.
Proof.
  intros H. unfold Tensor.ravel, np_abs, abs_diffs.
  rewrite map_zip_with.
  rewrite (zip_with_ext_same _ (zip_with (zip_with (λ a b, Qabs (a - b)%Q)))).
  2: { intros m1 m2. rewrite map_zip_with. apply zip_with_ext_same.
       intros r1 r2. apply map_zip_with. }
  rewrite concat_zip_with.
  2: { eapply Forall2_impl; [exact H|]. intros ??. apply Forall2_length. }
  apply concat_zip_with. by apply Forall2_concat_rows.
Qed.

Lemma abs_diffs_length x y :
  same_shape x y → length (abs_diffs x y) = length (Tensor.ravel x).
Proof.
  intros H. unfold abs_diffs. rewrite length_zip_with.
  assert (length (Tensor.ravel x) = length (Tensor.ravel y)); [|lia].
  unfold Tensor.ravel. apply Forall2_length with (P := λ _ _, True).
  apply Forall2_concat_rows. apply Forall2_concat_rows.
  eapply Forall2_impl; [exact H|]. intros m1 m2 Hm.
  eapply Forall2_impl; [exact Hm|]. intros r1 r2 Hr.
  by apply same_length_Forall2.
Qed.

Lemma Qltb_lt a b : Qltb a b = true ↔ (a < b)%Q.
Proof.
  unfold Qltb. rewrite negb_true_iff. split.
  - intros H. apply Qnot_le_lt. intros Hle. apply Qle_bool_iff in Hle. congruence.
  - intros H. destruct (Qle_bool b a) eqn:E; [|done].
    apply Qle_bool_iff in E. by apply Qlt_not_le in H.
Qed.

Lemma Qmaximum_cases a b :
  (Qmaximum a b = a ∧ (b <= a)%Q) ∨ (Qmaximum a b = b ∧ (a <= b)%Q).
Proof.
  unfold Qmaximum. destruct (Qltb a b) eqn:E.
  - right. split; [done|]. apply Qlt_le_weak. by apply Qltb_lt.
  - left. split; [done|]. apply Qnot_lt_le. intros H. apply Qltb_lt in H. congruence.
Qed.

Lemma foldl_Qmaximum a l : is_max (foldl Qmaximum a l) (a :: l).
Proof.
  revert a. induction l as [|b l IH]; intros a; simpl.
  - split; [by left|]. intros x [<-|[]]. apply Qle_refl.
  - destruct (IH (Qmaximum a b)) as [Hin Hub].
    destruct (Qmaximum_cases a b) as [[E Hle]|[E Hle]]; rewrite E in *.
    + split.
      * destruct Hin as [<-|Hin]; [by left|]. right. by right.
      * intros x [<-|[<-|Hx]].
        -- apply Hub. by left.
        -- eapply Qle_trans; [exact Hle|]. apply Hub. by left.
        -- apply Hub. by right.
    + split.
      * right. destruct Hin as [<-|Hin]; [by left|by right].
      * intros x [<-|[<-|Hx]].
        -- eapply Qle_trans; [exact Hle|]. apply Hub. by left.
        -- apply Hub. by left.
        -- apply Hub. by right.
Qed.

Lemma np_max_nonempty x :
  Tensor.ravel x ≠ [] → ∃ m, np_max x = Ok m ∧ is_max m (Tensor.ravel x).
Proof.
  intros H. unfold np_max. destruct (Tensor.ravel x) as [|a l]; [done|].
  eexists. split; [done|]. apply foldl_Qmaximum.
Qed.

Lemma np_mean_nonempty x : Tensor.ravel x ≠ [] → is_mean (np_mean x) (Tensor.ravel x).
Proof.
  intros H. unfold is_mean, np_mean. unfold Qdiv.
  rewrite <- Qmult_assoc, (Qmult_comm (/ _)), Qmult_inv_r, Qmult_1_r; [reflexivity|].
  destruct (Tensor.ravel x); [done|]. simpl length. unfold Qeq. simpl. lia.
Qed.

(** One turn of the loop. *)
Lemma compare_output_run out t acc nx w :
  comparable out nx →
  ∃ ev, reports out t nx ev ∧
        compare_output out t acc nx.1 nx.2 w = (Ok (acc && line_passed ev), add_log w [ev]).
Proof.
  intros (y & Hy & Hs & Hne). destruct nx as [name x]. simpl in *.
  set (d := zip_with (zip_with (zip_with Qminus)) x y).
  assert (Hne' : Tensor.ravel (np_abs d) ≠ []).
  { unfold d. rewrite ravel_abs_sub by done. intros E. apply (f_equal length) in E.
    rewrite abs_diffs_length in E by done. by destruct (Tensor.ravel x). }
  destruct (np_max_nonempty _ Hne') as (mx & Hmax & Hismax).
  pose proof (np_mean_nonempty _ Hne') as Hmean.
  unfold d in Hismax, Hmean. rewrite ravel_abs_sub in Hismax, Hmean by done. fold d in Hmean.
  exists (EvPrint (ValidationLine (Qltb mx t) name mx (np_mean (np_abs d)))).
  split.
  - exists y, (Qltb mx t), mx, (np_mean (np_abs d)). simpl.
    split_and!; try done. apply Qltb_lt.
  - unfold compare_output, getitem. rewrite Hy.
    destruct w as [wfs wheap wnext wrng wlog]. exec.
    rewrite (np_sub_same_shape x y Hs). fold d. exec. rewrite Hmax. exec.
    unfold add_log. simpl. by destruct (Qltb mx t), acc.
Qed.

(** The whole loop. *)
Lemma compare_outputs_run out t outputs : ∀ acc w,
  Forall (comparable out) outputs →
  ∃ rows, Forall2 (reports out t) outputs rows ∧
          compare_outputs out t acc outputs w =
            (Ok (acc && forallb line_passed rows), add_log w rows).
Proof.
  induction outputs as [|[name x] outputs IH]; intros acc w H.
  - exists []. split; [constructor|]. simpl. by rewrite andb_true_r, add_log_nil.
  - apply Forall_cons in H as [H1 H2].
    destruct (compare_output_run out t acc (name, x) w H1) as (ev & Hev & Hrun).
    destruct (IH (acc && line_passed ev) (add_log w [ev]) H2) as (rows & Hrows & Hrest).
    exists (ev :: rows). split; [by constructor|].
    cbn [compare_outputs]. unfold mbind, M_bind. simpl in Hrun. rewrite Hrun, Hrest, add_log_app.
    simpl. by rewrite andb_assoc.
Qed.


Lemma comparable_sample answer :
  same_shape sample_output answer →
  Forall (comparable (predicted answer)) (named_outputs (decompose sample_output)).
Proof.
  intros Hs.
  assert (Hsl : ∀ a b, same_shape (Tensor.slice_last a b sample_output)
                                    (Tensor.slice_last a b answer)).
  { intros a b. unfold same_shape, Tensor.slice_last.
    apply Forall2_fmap. eapply Forall2_impl; [exact Hs|]. intros m1 m2 Hm.
    apply Forall2_fmap. eapply Forall2_impl; [exact Hm|]. intros r1 r2 Hr. simpl.
    simpl in Hr. unfold Tensor.slice. rewrite !length_take, !length_drop. lia. }
  repeat constructor; eexists; (split; [reflexivity|]); (split; [apply Hsl|done]).
Qed.



(** ** The driver *)

Lemma success_banner_run args w :
  ∃ evs, success_banner args w = (Ok (), add_log w evs) ∧
         Forall (λ ev, ∃ l, ev = EvPrint l) evs.
Proof.
  destruct w as [wfs wheap wnext wrng wlog]. unfold add_log. exec. norm_log.
  eexists; split; [reflexivity|]. repeat constructor; eauto.
Qed.

Lemma report_failure_run e w :
  ∃ evs, report_failure e w = (Raise (SystemExit 1), add_log w evs) ∧
         Forall (λ ev, ∃ l, ev = EvPrint l) evs.
Proof.
  destruct w as [wfs wheap wnext wrng wlog]. unfold add_log. exec. norm_log.
  eexists; split; [reflexivity|]. repeat constructor; eauto.
Qed.

Lemma check_input_run args w :
  check_input args w =
  if bool_decide (is_Some (fs w !! input args)) then (Ok (), w)
  else (Raise (SystemExit 1),
        add_log w [EvPrint (Text ("Error: Input file not found: " +:+ input args))]).
Proof.
  destruct w as [wfs wheap wnext wrng wlog]. unfold add_log. exec.
  by destruct (bool_decide (is_Some (wfs !! input args))).
Qed.


Lemma validate_unless_skipped_run ext args m pm w :
  validate_unless_skipped ext args m pm w =
  if skip_validation args then (Ok (), w)
  else match validate_coreml_model ext m pm (height args, width args) (tolerance args) w with
       | (Ok _, w') => (Ok (), w')
       | (Raise e, w') => (Raise e, w')
       end.
Proof. unfold validate_unless_skipped. by destruct (skip_validation args). Qed.

Lemma pipeline_unfold ext args w :
  pipeline ext args w =
  match load_pytorch_model ext (input args) w with
  | (Ok pm, w1) =>
      match convert_to_coreml ext pm (output args) (height args, width args)
              (compute_units args) (quantize args) w1 with
      | (Ok m, w2) =>
          match validate_unless_skipped ext args m pm w2 with
          | (Ok _, w3) => success_banner args w3
          | (Raise e, w3) => (Raise e, w3)
          end
      | (Raise e, w2) => (Raise e, w2)
      end
  | (Raise e, w1) => (Raise e, w1)
  end.
Proof. reflexivity. Qed.

Lemma main_unfold ext args w :
  main ext args w =
  match check_input args w with
  | (Ok _, w0) =>
      match make_output_dir ext args w0 with
      | (Ok _, w1) =>
          match pipeline ext args w1 with
          | (Raise e, w2) => if is_Exception e then report_failure e w2 else (Raise e, w2)
          | r => r
          end
      | (Raise e, w1) => (Raise e, w1)
      end
  | (Raise e, w0) => (Raise e, w0)
  end.
Proof. reflexivity. Qed.

(** C4.  The process ends with status 1 when the input file is absent.
    When it is present and the output directory is there: with status 1
    when the loader raises an exception, with status 1 when the
    conversion raises an exception, and with status 0 when both return,
    whether the validation is skipped or returns, and whatever verdict it
    returns. *)
Theorem exit_codes (ext : Externals) (args : Args) (w : World) :
  let status := exit_status (main ext args w).1 in
  (fs w !! input args = None → status = Some 1%Z) ∧
  ∀ w1,
    is_Some (fs w !! input args) →
    make_output_dir ext args w = (Ok (), w1) →
    (∀ e w2, load_pytorch_model ext (input args) w1 = (Raise e, w2) →
             is_Exception e = true → status = Some 1%Z) ∧
    (∀ pm w2, load_pytorch_model ext (input args) w1 = (Ok pm, w2) →
       let convert := convert_to_coreml ext pm (output args) (height args, width args)
                        (compute_units args) (quantize args) w2 in
       (∀ e w3, convert = (Raise e, w3) → is_Exception e = true → status = Some 1%Z) ∧
       (∀ m w3, convert = (Ok m, w3) →
          (skip_validation args = true → status = Some 0%Z) ∧
          (∀ verdict w4,
             validate_coreml_model ext m pm (height args, width args) (tolerance args) w3
               = (Ok verdict, w4) →
             status = Some 0%Z))).
Proof.
  intros status. subst status. rewrite main_unfold, check_input_run. split.
  - intros Hno. rewrite bool_decide_eq_false_2; [done|]. rewrite Hno. by intros [? ?].
  - intros w1 Hin Hdir. rewrite bool_decide_eq_true_2 by done. rewrite Hdir, pipeline_unfold.
    split.
    + intros e w2 Hload He. rewrite Hload, He.
      by destruct (report_failure_run e w2) as (evs & -> & _).
    + intros pm w2 Hload convert. subst convert. rewrite Hload. split.
      * intros e w3 Hconv He. rewrite Hconv, He.
        by destruct (report_failure_run e w3) as (evs & -> & _).
      * intros m w3 Hconv. rewrite Hconv, validate_unless_skipped_run. split.
        -- intros ->. by destruct (success_banner_run args w3) as (evs & -> & _).
        -- intros verdict w4 Hval. destruct (skip_validation args).
           ++ by destruct (success_banner_run args w3) as (evs & -> & _).
           ++ rewrite Hval. by destruct (success_banner_run args w4) as (evs & -> & _).
Qed.

(** A converted model that drifts: the validation fails, the status is 0.
    A checkpoint that is not there: the status is 1. *)
Lemma exit_codes_sample :
  (∃ m w3 w4,
     validate_coreml_model drifting_externals m 0%N (512, 512)%Z (1 # 1000) w3 = (Ok false, w4) ∧
     exit_status (main drifting_externals sample_args sample_world).1 = Some 0%Z) ∧
  exit_status (main drifting_externals sample_args (initial_world ∅)).1 = Some 1%Z.
Proof.
  split.
  - pose proof (exit_codes drifting_externals sample_args sample_world) as [_ H].
    set (d := make_output_dir drifting_externals sample_args sample_world) in *.
    destruct (H d.2 (ltac:(by eexists)) (run_eq d (Ok ()) eq_refl)) as [_ H2].
    set (l := load_pytorch_model drifting_externals (input sample_args) d.2) in *.
    destruct (H2 0%N l.2 (run_eq l (Ok 0%N) (ltac:(by vm_compute)))) as [_ H3].
    set (c := convert_to_coreml drifting_externals 0%N (output sample_args)
                (height sample_args, width sample_args) (compute_units sample_args)
                (quantize sample_args) l.2) in *.
    assert (Hc : is_Ok c.1 = true) by (by vm_compute).
    destruct c.1 as [m|e] eqn:E; [|discriminate Hc].
    destruct (H3 m c.2 (run_eq c (Ok m) E)) as [_ H4].
    set (v := validate_coreml_model drifting_externals m 0%N
                (height sample_args, width sample_args) (tolerance sample_args) c.2) in *.
    assert (Hv : v.1 = Ok false).
    { assert (Hm : Ok m = c.1) by (by rewrite E).
      subst v. vm_compute in Hm. injection Hm as ->. by vm_compute. }
    exists m, c.2, v.2. split; [exact (run_eq v (Ok false) Hv)|].
    exact (H4 false v.2 (run_eq v (Ok false) Hv)).
  - by apply (proj1 (exit_codes drifting_externals sample_args (initial_world ∅))).
Defined.



(** * Further properties of the conversion pipeline *)

(** ** Beyond the contract: raw outputs of any shape *)

Lemma slice_last_shape_clamped {A} a b d0 d1 d2 (x : Tensor.t A) :
  Tensor.has_shape d0 d1 d2 x →
  Tensor.has_shape d0 d1 ((b - a) `min` (d2 - a)) (Tensor.slice_last a b x).
Proof.
  intros [H0 Hx]. split; [by unfold Tensor.slice_last; rewrite length_map|].
  unfold Tensor.slice_last. apply Forall_map. eapply Forall_impl; [exact Hx|].
  intros m [Hm Hr]. split; [by rewrite length_map|].
  apply Forall_map. eapply Forall_impl; [exact Hr|].
  intros r Hlen. simpl in *. by rewrite slice_length, Hlen.
Qed.

(** X1.  Whatever the width of the last axis of the raw output, the wrapper
    answers: it never checks for fourteen values. Each of the five tensors
    keeps the first two axes and is as wide as its column range clamped to the
    width the output has (so empty when the output ends before the range
    begins), and the five laid side by side are the first fourteen columns of
    the output. *)
Theorem decompose_unchecked (ext : Externals) (self : SharpModelWrapper) (image : Image)
    (w : World) (m : Model) (output : Tensor.t Q) (d0 d1 d2 : nat) :
  heap w !! model self = Some m →
  raw_forward ext m image = Ok output →
  Tensor.has_shape d0 d1 d2 output →
  (forward ext self image w).1 = Ok (decompose output) ∧
  Tensor.has_shape d0 d1 (3 `min` d2) (positions (decompose output)) ∧
  Tensor.has_shape d0 d1 (3 `min` (d2 - 3)) (colors (decompose output)) ∧
  Tensor.has_shape d0 d1 (1 `min` (d2 - 6)) (opacities (decompose output)) ∧
  Tensor.has_shape d0 d1 (3 `min` (d2 - 7)) (scales (decompose output)) ∧
  Tensor.has_shape d0 d1 (4 `min` (d2 - 10)) (rotations (decompose output)) ∧
  recompose (decompose output) = Tensor.slice_last 0 14 output.
Proof.
  intros Hm Hraw Hs. split.
  { destruct w as [wfs wheap wnext wrng wlog], self as [r]. simpl in Hm. exec.
    rewrite Hm. exec. rewrite Hraw. by exec. }
  unfold decompose; cbn [positions colors opacities scales rotations].
  split_and!.
  - apply (slice_last_shape_clamped 0 3) in Hs. by rewrite !Nat.sub_0_r in Hs.
  - by apply (slice_last_shape_clamped 3 6) in Hs.
  - by apply (slice_last_shape_clamped 6 7) in Hs.
  - by apply (slice_last_shape_clamped 7 10) in Hs.
  - by apply (slice_last_shape_clamped 10 14) in Hs.
  - unfold recompose, Tensor.slice_last; cbn [positions colors opacities scales rotations].
    rewrite !cat_last_slices. apply map_ext. intros mm. apply map_ext. intros r.
    by rewrite !slice_app by lia.
Qed.

(** A raw output with ten values: the wrapper answers, and the rotations
    are empty. *)
Lemma decompose_unchecked_sample :
  let w := (load_pytorch_model narrow_externals "sharp.pth" sample_world).2 in
  (forward narrow_externals (mkWrapper 0%N) (mkImage [1; 3; 4; 4]%Z 0%N) w).1
    = Ok (decompose narrow_output) ∧
  Tensor.has_shape 1 1 3 (scales (decompose narrow_output)) ∧
  Tensor.has_shape 1 1 0 (rotations (decompose narrow_output)) ∧
  recompose (decompose narrow_output) = narrow_output.
Proof.
  intros w.
  assert (Hm : is_Some (heap w !! 0%N)) by (eexists; vm_compute; reflexivity).
  destruct Hm as [m Hm].
  destruct (decompose_unchecked narrow_externals (mkWrapper 0%N) (mkImage [1; 3; 4; 4]%Z 0%N)
              w m narrow_output 1 1 10 Hm eq_refl)
    as (Hf & _ & _ & _ & Hs & Hr & Hrec).
  - vm_compute. repeat constructor.
  - split_and!; [exact Hf | exact Hs | exact Hr | exact Hrec].
Defined.

(** ** More on the loader *)




Lemma dom_bound_params sd m : dom (bound_params sd m) = dom (params m).
Proof.
  apply set_eq. intros k. rewrite !elem_of_dom, bound_params_lookup.
  destruct (params m !! k); simpl; split; intros [? ?]; by eauto.
Qed.

Lemma no_missing_key sd m k :
  missing_keys sd m = ∅ → k ∈ dom (params m) → k ∈ dom sd.
Proof.
  intros Hmiss Hk. destruct (decide (k ∈ dom sd)) as [|Hn]; [done|].
  assert (H : k ∈ missing_keys sd m) by (unfold missing_keys; by apply elem_of_difference).
  rewrite Hmiss in H. by apply not_elem_of_empty in H.
Qed.

Lemma no_unexpected_key sd m k :
  unexpected_keys sd m = ∅ → k ∈ dom sd → k ∈ dom (params m).
Proof.
  intros Hun Hk. destruct (decide (k ∈ dom (params m))) as [|Hn]; [done|].
  assert (H : k ∈ unexpected_keys sd m) by (unfold unexpected_keys; by apply elem_of_difference).
  rewrite Hun in H. by apply not_elem_of_empty in H.
Qed.

Lemma no_copy_failure sd m k p :
  copy_failures sd m = ∅ → params m !! k = Some p → copy_error sd k p = false.
Proof.
  intros Hc Hp. destruct (copy_error sd k p) eqn:E; [|done].
  assert (H : k ∈ copy_failures sd m).
  { unfold copy_failures. apply elem_of_dom. exists p. by apply map_lookup_filter_Some. }
  rewrite Hc in H. by apply not_elem_of_empty in H.
Qed.

(** X3.  With the library binder of PyTorch, a weights collection that names
    exactly the parameters of the placeholder, each with its shape, is bound
    strictly and once: the output is the opening line and the success line, no
    warning, no second binding, and every parameter of the returned module is
    the one of the checkpoint. *)
Theorem exact_checkpoint_loads_quietly (ext : Externals) (path : string) (w : World)
    (c : PyObj) (sd : gmap string PyObj) :
  nn_load_state_dict ext = torch_load_state_dict →
  fs w !! path = Some (FCheckpoint (Ok c)) →
  extract_state_dict c = PDict sd →
  copy_failures sd placeholder_model = ∅ →
  missing_keys sd placeholder_model = ∅ →
  unexpected_keys sd placeholder_model = ∅ →
  ∃ m,
    loaded (load_pytorch_model ext path w) =
      (Ok (next_ref w, Some m),
       log w ++
       [ EvPrint (Text ("Loading PyTorch model from: " +:+ path));
         EvTorchLoad path;
         EvLoadStateDict true;
         EvPrint (Text "✓ Model loaded successfully") ]) ∧
    training m = false ∧
    dom (params m) = dom sd ∧
    ∀ k p, params placeholder_model !! k = Some p →
      ∃ t, sd !! k = Some (PTensor t) ∧ t_shape t = t_shape p ∧ params m !! k = Some t.
Proof.
  intros Hext Hf Hsd Hc Hmiss Hunex.
  rewrite (load_run ext path w c Hf). cbv zeta. rewrite Hext, Hsd.
  rewrite (torch_strict_exact sd _ Hc Hmiss Hunex). cbn [fst snd].
  eexists. split; [reflexivity|]. cbn [eval_mode params training]. split; [done|].
  split.
  - rewrite dom_bound_params. apply set_eq. intros k. split.
    + by apply no_missing_key.
    + by apply no_unexpected_key.
  - intros k p Hp.
    assert (Hin : k ∈ dom sd).
    { apply (no_missing_key sd placeholder_model); [exact Hmiss|].
      apply elem_of_dom. exists p. exact Hp. }
    apply elem_of_dom in Hin as [v Hv].
    pose proof (no_copy_failure sd placeholder_model k p Hc Hp) as He.
    unfold copy_error in He. rewrite Hv in He. destruct v as [t| | |]; try discriminate He.
   
    apply negb_false_iff, bool_decide_eq_true in He.
    exists t. split; [exact Hv|]. split; [exact He|].
    rewrite bound_params_lookup. rewrite Hp. cbn [fmap option_fmap option_map].
    unfold copy_param. rewrite Hv.
    rewrite decide_True; [reflexivity|exact He].
Qed.

Lemma exact_checkpoint_loads_quietly_sample :
  let w := initial_world {[ "full.pth" := FCheckpoint (Ok (PDict all_weights)) ]} in
  ∃ m, loaded (load_pytorch_model faithful_externals "full.pth" w) =
         (Ok (0%N, Some m),
          [ EvPrint (Text "Loading PyTorch model from: full.pth");
            EvTorchLoad "full.pth";
            EvLoadStateDict true;
            EvPrint (Text "✓ Model loaded successfully") ]) ∧
       params m !! "4.bias" = Some (mkWTensor [14000]%Z (Stored 4)).
Proof.
  intros w.
  destruct (exact_checkpoint_loads_quietly faithful_externals "full.pth" w
              (PDict all_weights) all_weights eq_refl)
    as (m & Hrun & _ & _ & Hp).
  - vm_compute; reflexivity.
  - vm_compute; reflexivity.
  - vm_compute; reflexivity.
  - vm_compute; reflexivity.
  - vm_compute; reflexivity.
  - exists m. split; [exact Hrun|].
    destruct (Hp "4.bias" (mkWTensor [14000]%Z RandomInit)) as (t & Ht & _ & Hm).
    + vm_compute; reflexivity.
    + rewrite Hm. f_equal. vm_compute in Ht. by injection Ht as <-.
Defined.

(** X4.  The key model is looked up first and wins: a checkpoint dict whose entry
    model is not a mapping fails in the strict binding with an exception that
    is not a RuntimeError, so there is no relaxed retry, whatever the dict
    holds under state_dict. *)
Theorem model_key_shadows_state_dict (ext : Externals) (path : string) (w : World)
    (d : gmap string PyObj) (v : PyObj) :
  nn_load_state_dict ext = torch_load_state_dict →
  fs w !! path = Some (FCheckpoint (Ok (PDict d))) →
  d !! "model" = Some v →
  (∀ sd, v ≠ PDict sd) →
  loaded (load_pytorch_model ext path w) =
    (Raise not_a_mapping_error,
     log w ++ [ EvPrint (Text ("Loading PyTorch model from: " +:+ path));
                EvTorchLoad path; EvLoadStateDict true ]).
Proof.
  intros Hext Hf Hm Hv.
  rewrite (load_run ext path w _ Hf). cbv zeta.
  rewrite Hext, (extract_model d v Hm), !(torch_not_mapping _ _ _ Hv). reflexivity.
Qed.

Lemma model_key_shadows_state_dict_sample :
  let w := initial_world {[ "whole.pth" := FCheckpoint (Ok (PDict module_checkpoint)) ]} in
  loaded (load_pytorch_model faithful_externals "whole.pth" w) =
    (Raise not_a_mapping_error,
     [ EvPrint (Text "Loading PyTorch model from: whole.pth");
       EvTorchLoad "whole.pth"; EvLoadStateDict true ]).
Proof.
  intros w.
  apply (model_key_shadows_state_dict faithful_externals "whole.pth" w module_checkpoint
           (PObject "Sequential") eq_refl).
  - vm_compute; reflexivity.
  - vm_compute; reflexivity.
  - intros sd; discriminate.
Defined.

(** ** More on the conversion *)

(** What the conversion does to the module and what it records in the
    model it returns. *)
Lemma convert_details ext pm path H W units q w :
  let out := convert_to_coreml ext pm path (H, W) units q w in
  ∃ evs, log out.2 = log w ++ evs ∧
    count is_torch_load evs = 0 ∧
    count is_save evs ≤ count is_trace evs ∧
    (forallb (λ d, 0 <=? d)%Z [1; 3; H; W]%Z = false →
       is_Ok out.1 = false ∧ count is_trace evs = 0 ∧ count is_convert evs = 0 ∧
       count is_save evs = 0) ∧
    (heap w !! pm = None → out = (Raise (PyExn AttributeError "no such module"),
                                   add_log w evs)) ∧
    (∀ r', r' ≠ pm → heap out.2 !! r' = heap w !! r') ∧
    (∀ m0, heap w !! pm = Some m0 → heap out.2 !! pm = Some (eval_mode m0)) ∧
    ∀ m, out.1 = Ok m →
      (0 ≤ H)%Z ∧ (0 ≤ W)%Z ∧
      (∃ m0, heap w !! pm = Some m0 ∧ tg_module (ml_program m) = eval_mode m0) ∧
      tg_example (ml_program m) = mkImage [1; 3; H; W]%Z (rng w) ∧
      rng out.2 = N.succ (rng w) ∧
      ml_compute_units m = units ∧
      ml_deployment_target m = "macOS13" ∧
      ml_format m = "mlprogram" ∧
      ml_input_description m !! "image" =
        Some ("Input RGB image normalized to [0, 1] range. Shape: " +:+ shape_text (H, W)).
Proof.
  intros out; subst out. destruct w as [wfs wheap wnext wrng wlog]. unfold add_log.
  destruct q; run.
  all: norm_log.
  all: (eexists; split; [reflexivity|]).
  all: cbn [fs heap next_ref rng log].
  all: split_and!; try done; try (cbn; lia).
  all: try (intros r' Hr; by rewrite lookup_insert_ne).
  all: try (intros ? [= <-]; exec; reflexivity).
  all: try (intros _; split_and!; reflexivity).
  all: intros ? [= <-];
       match goal with Hb : forallb _ _ = true |- _ =>
         cbn in Hb; apply andb_true_iff in Hb as [Hb1 Hb2];
         apply andb_true_iff in Hb2 as [Hb2 _]; apply Z.leb_le in Hb1, Hb2
       end;
       cbn [ml_program ml_compute_units ml_deployment_target ml_format ml_input_description
            add_metadata tg_module tg_example];
       split_and!; try done; try (by eexists); apply lookup_insert_eq.
Qed.

Lemma log_suffix_unique (l evs evs' : list Event) : l ++ evs = l ++ evs' → evs = evs'.
Proof. apply app_inv_head. Qed.

(** X5.  A negative height or width makes the conversion raise before anything is
    traced, converted or saved; the files are untouched. *)
Theorem negative_resolution_rejected (ext : Externals) (pm : ModelRef) (path : string)
    (H W : Z) (units : ComputeUnit) (q : bool) (w : World) :
  (H < 0 ∨ W < 0)%Z →
  let out := convert_to_coreml ext pm path (H, W) units q w in
  is_Ok out.1 = false ∧ fs out.2 = fs w ∧
  ∃ evs, log out.2 = log w ++ evs ∧
    count is_trace evs = 0 ∧ count is_convert evs = 0 ∧ count is_save evs = 0.
Proof.
  intros Hneg out.
  destruct (convert_details ext pm path H W units q w) as (evs & Hlog & _ & _ & Hbad & _).
  destruct (convert_effects ext pm path (H, W) units q w)
    as (evs' & Hlog' & _ & _ & _ & _ & _ & _ & _ & _ & Hnosave & _).
  fold out in Hlog, Hbad, Hlog', Hnosave.
  assert (evs' = evs) as -> by (apply (log_suffix_unique (log w)); congruence).
  assert (Hb : forallb (λ d, 0 <=? d)%Z [1; 3; H; W]%Z = false).
  { cbn. destruct Hneg as [Hn|Hn].
    - by rewrite (proj2 (Z.leb_gt 0 H) Hn).
    - rewrite (proj2 (Z.leb_gt 0 W) Hn). by destruct (0 <=? H)%Z. }
  destruct (Hbad Hb) as (Hr & Ht & Hc & Hs).
  split_and!; [done|by apply Hnosave|]. by exists evs.
Qed.

Lemma negative_resolution_rejected_sample :
  let w := (load_pytorch_model faithful_externals "sharp.pth" sample_world).2 in
  let out := convert_to_coreml faithful_externals 0%N "out.mlpackage" (-1, 512)%Z ALL false w in
  is_Ok out.1 = false ∧ fs out.2 = fs w.
Proof.
  intros w out.
  destruct (negative_resolution_rejected faithful_externals 0%N "out.mlpackage" (-1) 512 ALL
              false w) as (H1 & H2 & _).
  - left. lia.
  - split; [exact H1 | exact H2].
Defined.

(** X6.  A conversion that returns has traced the module it was given in evaluation
    mode, and it leaves that module in evaluation mode in the store; no other
    module is touched. *)
Theorem conversion_traces_eval_module (ext : Externals) (pm : ModelRef) (path : string)
    (H W : Z) (units : ComputeUnit) (q : bool) (w w' : World) (m : MLModel) :
  convert_to_coreml ext pm path (H, W) units q w = (Ok m, w') →
  ∃ m0, heap w !! pm = Some m0 ∧
        tg_module (ml_program m) = eval_mode m0 ∧
        heap w' !! pm = Some (eval_mode m0) ∧
        ∀ r', r' ≠ pm → heap w' !! r' = heap w !! r'.
Proof.
  intros Hrun.
  destruct (convert_details ext pm path H W units q w) as (evs & _ & _ & _ & _ & _ & Hother & Hpm & Hok).
  rewrite Hrun in *. cbn [fst snd] in *.
  destruct (Hok m eq_refl) as (_ & _ & (m0 & Hm0 & Htg) & _).
  exists m0. split_and!; [done|done|by apply Hpm|done].
Qed.

Lemma conversion_traces_eval_module_sample :
  let w := (load_pytorch_model faithful_externals "sharp.pth" sample_world).2 in
  let out := convert_to_coreml faithful_externals 0%N "out.mlpackage" (768, 1024)%Z
               CPU_ONLY false w in
  ∃ m m0, out.1 = Ok m ∧ heap w !! 0%N = Some m0 ∧
          tg_module (ml_program m) = eval_mode m0.
Proof.
  intros w out.
  assert (Hok : is_Ok out.1 = true) by (vm_compute; reflexivity).
  destruct out.1 as [m|e] eqn:E; [|discriminate Hok].
  destruct (conversion_traces_eval_module faithful_externals 0%N "out.mlpackage" 768 1024
              CPU_ONLY false w out.2 m (run_eq out (Ok m) E)) as (m0 & H0 & H1 & _).
  exists m, m0. split_and!; [reflexivity | exact H0 | exact H1].
Defined.

(** X7.  A conversion that returns was asked for a resolution without negative
    side; the model it returns declares as its input the shape of the example
    image it was traced with, drawn once from the random generator, and
    records the compute units asked for, macOS13 as deployment target, the
    mlprogram format and an input description that spells the resolution. *)
Theorem converted_model_records_request (ext : Externals) (pm : ModelRef) (path : string)
    (H W : Z) (units : ComputeUnit) (q : bool) (w w' : World) (m : MLModel) :
  convert_to_coreml ext pm path (H, W) units q w = (Ok m, w') →
  (0 ≤ H)%Z ∧ (0 ≤ W)%Z ∧
  (tt_shape <$> ml_inputs m) = [Some (img_shape (tg_example (ml_program m)))] ∧
  img_seed (tg_example (ml_program m)) = rng w ∧
  rng w' = N.succ (rng w) ∧
  ml_compute_units m = units ∧
  ml_deployment_target m = "macOS13" ∧
  ml_format m = "mlprogram" ∧
  ml_input_description m !! "image" =
    Some ("Input RGB image normalized to [0, 1] range. Shape: (1, 3, "
          +:+ pretty H +:+ ", " +:+ pretty W +:+ ")").
Proof.
  intros Hrun.
  destruct (convert_details ext pm path H W units q w) as (evs & _ & _ & _ & _ & _ & _ & _ & Hok).
  destruct (convert_effects ext pm path (H, W) units q w)
    as (evs' & _ & _ & _ & _ & _ & _ & _ & _ & _ & _ & Hok').
  rewrite Hrun in *. cbn [fst snd] in *.
  destruct (Hok m eq_refl) as (HH & HW & _ & Hex & Hrng & Hu & Ht & Hf & Hd).
  destruct Hok' as (_ & _ & _ & Hin & _).
  rewrite Hin, Hex. split_and!; try done.
Qed.

Lemma converted_model_records_request_sample :
  let w := (load_pytorch_model faithful_externals "sharp.pth" sample_world).2 in
  let out := convert_to_coreml faithful_externals 0%N "out.mlpackage" (768, 1024)%Z
               CPU_ONLY false w in
  ∃ m, out.1 = Ok m ∧ ml_compute_units m = CPU_ONLY ∧
       ml_deployment_target m = "macOS13" ∧ rng out.2 = N.succ (rng w).
Proof.
  intros w out.
  assert (Hok : is_Ok out.1 = true) by (vm_compute; reflexivity).
  destruct out.1 as [m|e] eqn:E; [|discriminate Hok].
  destruct (converted_model_records_request faithful_externals 0%N "out.mlpackage" 768 1024
              CPU_ONLY false w out.2 m (run_eq out (Ok m) E))
    as (_ & _ & _ & _ & Hr & Hu & Ht & _).
  exists m. split_and!; [reflexivity | exact Hu | exact Ht | exact Hr].
Defined.

(** ** More on the validation *)

(** The comparison only prints. *)
Lemma compare_outputs_prints out t outputs : ∀ acc w,
  ∃ evs, (compare_outputs out t acc outputs w).2 = add_log w evs ∧ Forall (λ ev, ∃ l, ev = EvPrint l) evs.
Proof.
  induction outputs as [|[name x] outputs IH]; intros acc w.
  - exists []. split; [by rewrite add_log_nil|constructor].
  - cbn [compare_outputs]. unfold mbind at 1, M_bind at 1.
    assert (H1 : ∃ evs, (compare_output out t acc name x w).2 = add_log w evs ∧
                        Forall (λ ev, ∃ l, ev = EvPrint l) evs ∧
                        (is_Ok (compare_output out t acc name x w).1 = false →
                         True)).
    { unfold compare_output, getitem. destruct w as [wfs wheap wnext wrng wlog].
      unfold add_log. exec.
      destruct (out !! name) as [y|]; exec; [|exists []; by rewrite app_nil_r].
      destruct (np_sub x y) as [d|e]; exec; [|exists []; by rewrite app_nil_r].
      destruct (np_max (np_abs d)) as [mx|e]; exec; [|exists []; by rewrite app_nil_r].
      eexists. split; [reflexivity|]. split; [|done]. repeat constructor. by eexists. }
    destruct H1 as (evs1 & Hw1 & Hp1 & _).
    destruct (compare_output out t acc name x w) as [[b|e] w1]; cbn [fst snd] in *.
    + destruct (IH b w1) as (evs2 & Hw2 & Hp2). exists (evs1 ++ evs2).
      rewrite Hw2, Hw1, add_log_app. split; [done|]. by apply Forall_app.
    + exists evs1. by split.
Qed.

Lemma compare_all_prints pt out t w :
  ∃ evs, (compare_all pt out t w).2 = add_log w evs ∧ Forall (λ ev, ∃ l, ev = EvPrint l) evs.
Proof.
  unfold compare_all. unfold mbind at 1, M_bind at 1.
  destruct (compare_outputs_prints out t (named_outputs pt) true w) as (evs & Hw & Hp).
  destruct (compare_outputs out t true (named_outputs pt) w) as [[b|e] w1]; cbn [fst snd] in *.
  - subst w1. destruct w as [wfs wheap wnext wrng wlog]. unfold add_log.
    destruct b; exec; norm_log.
    + exists (evs ++ [EvPrint (Text "✓ Validation passed!")]). split; [done|].
      apply Forall_app. split; [done|]. repeat constructor. by eexists.
    + exists (evs ++ [EvPrint (ValidationFailed t)]). split; [done|].
      apply Forall_app. split; [done|]. repeat constructor. by eexists.
  - exists evs. by split.
Qed.

(** The verdict does not depend on the world the comparison runs in. *)
Lemma compare_outputs_result out t outputs : ∀ acc w w',
  (compare_outputs out t acc outputs w).1 = (compare_outputs out t acc outputs w').1.
Proof.
  induction outputs as [|[name x] outputs IH]; intros acc w w'; [done|].
  cbn [compare_outputs]. unfold mbind, M_bind.
  assert (H1 : ∀ w0, (compare_output out t acc name x w0).1 =
                     (compare_output out t acc name x (initial_world ∅)).1).
  { intros w0. unfold compare_output, getitem. destruct w0 as [wfs wheap wnext wrng wlog].
    unfold initial_world. exec.
    destruct (out !! name) as [y|]; exec; [|done].
    destruct (np_sub x y) as [d|e]; exec; [|done].
    destruct (np_max (np_abs d)) as [mx|e]; exec; done. }
  pose proof (H1 w) as Hw. pose proof (H1 w') as Hw'.
  destruct (compare_output out t acc name x w) as [[b|e] w1],
           (compare_output out t acc name x w') as [[b'|e'] w1'],
           (compare_output out t acc name x (initial_world ∅)) as [[b0|e0] w0];
    cbn [fst snd] in *; simplify_eq; try done.
Qed.

Lemma compare_all_result pt out t w w' :
  (compare_all pt out t w).1 = (compare_all pt out t w').1.
Proof.
  unfold compare_all. unfold mbind at 1 3, M_bind at 1 3.
  pose proof (compare_outputs_result out t (named_outputs pt) true w w') as H.
  destruct (compare_outputs out t true (named_outputs pt) w) as [[b|e] w1],
           (compare_outputs out t true (named_outputs pt) w') as [[b'|e'] w1'];
    cbn [fst snd] in *; simplify_eq; [|done].
  destruct w1, w1'. by destruct b'; exec.
Qed.

(** Execution that stops at the comparison. *)
Ltac exec_to_compare :=
  repeat first
    [ progress lazy beta iota zeta delta
        [ print emit raise lift raise_if get_world set_module get_module
          module_eval torch_rand mbind M_bind mret M_ret
          forward create_example_input mlmodel_predict validate_coreml_model
          fs heap next_ref rng log fst snd model negb ]
    | rewrite lookup_insert_eq
    | rewrite insert_insert_eq ].

(** Every run of the validation: it draws one input, runs the wrapper on
    it, then the converted model on the same input, then compares; it
    writes no file. *)
Lemma validate_effects ext mlmodel pm H W t w :
  let out := validate_coreml_model ext mlmodel pm (H, W) t w in
  let image := mkImage [1; 3; H; W]%Z (rng w) in
  ∃ evs, log out.2 = log w ++ evs ∧ fs out.2 = fs w ∧
    count is_torch_load evs = 0 ∧
    count is_trace evs = 0 ∧ count is_save evs = 0 ∧ count is_convert evs = 0 ∧
    count is_forward evs ≤ 1 ∧ count is_predict evs ≤ count is_forward evs ∧
    (∀ ev, ev ∈ evs → is_forward ev = true → ev = EvForward image) ∧
    (∀ ev, ev ∈ evs → is_predict ev = true → ev = EvPredict image) ∧
    (∀ r', r' ≠ pm → heap out.2 !! r' = heap w !! r') ∧
    (∀ b, out.1 = Ok b →
       count is_forward evs = 1 ∧ count is_predict evs = 1 ∧
       ∃ m0 raw answer,
         heap w !! pm = Some m0 ∧ heap out.2 !! pm = Some (eval_mode m0) ∧
         raw_forward ext (eval_mode m0) image = Ok raw ∧
         coreml_predict ext mlmodel image = Ok answer ∧
         (compare_all (decompose raw) answer t (initial_world ∅)).1 = Ok b).
Proof.
  intros out image; subst out image. destruct w as [wfs wheap wnext wrng wlog].
  exec_to_compare.
  destruct (forallb (λ d, (0 <=? d)%Z) [1%Z; 3%Z; H; W]) eqn:Hdims; exec_to_compare.
  2: { norm_log. eexists. split; [reflexivity|]. split_and!; try done; try (cbn; lia).
       all: intros ev Hev; repeat (apply elem_of_cons in Hev as [->|Hev]; [done|]);
            by apply elem_of_nil in Hev. }
  destruct (wheap !! pm) as [m0|] eqn:Hpm; exec_to_compare.
  2: { norm_log. eexists. split; [reflexivity|]. split_and!; try done; try (cbn; lia).
       all: intros ev Hev; repeat (apply elem_of_cons in Hev as [->|Hev]; [done|]);
            by apply elem_of_nil in Hev. }
  destruct (raw_forward ext (eval_mode m0) _) as [raw|e] eqn:Hraw; exec_to_compare.
  2: { norm_log. eexists. split; [reflexivity|]. split_and!; try done; try (cbn; lia).
       1,2: intros ev Hev; repeat (apply elem_of_cons in Hev as [->|Hev]; [done|]);
            by apply elem_of_nil in Hev.
       intros r' Hr. by rewrite lookup_insert_ne. }
  destruct (coreml_predict ext mlmodel _) as [answer|e] eqn:Hans; exec_to_compare.
  2: { norm_log. eexists. split; [reflexivity|]. split_and!; try done; try (cbn; lia).
       1,2: intros ev Hev; repeat (apply elem_of_cons in Hev as [->|Hev]; [done|]);
            by apply elem_of_nil in Hev.
       intros r' Hr. by rewrite lookup_insert_ne. }
  norm_log.
  match goal with |- context [compare_all ?p ?o ?t ?w0] =>
    destruct (compare_all_prints p o t w0) as (evs & Hw & Hp);
    pose proof (compare_all_result p o t w0 (initial_world ∅)) as Hres;
    destruct (compare_all p o t w0) as [r w1]
  end.
  cbn [fst snd] in *. subst w1. unfold add_log. cbn [fs heap next_ref rng log].
  rewrite <- app_assoc. eexists. split; [reflexivity|].
  rewrite !count_app, !(count_prints _ evs) by done.
  split_and!; try done; try (cbn; lia).
  - intros ev Hev Hf. apply elem_of_app in Hev as [Hev|Hev].
    + repeat (apply elem_of_cons in Hev as [->|Hev]; [done|]). by apply elem_of_nil in Hev.
    + rewrite Forall_forall in Hp. destruct (Hp ev Hev) as [l ->]. done.
  - intros ev Hev Hf. apply elem_of_app in Hev as [Hev|Hev].
    + repeat (apply elem_of_cons in Hev as [->|Hev]; [done|]). by apply elem_of_nil in Hev.
    + rewrite Forall_forall in Hp. destruct (Hp ev Hev) as [l ->]. done.
  - intros r' Hr. by rewrite lookup_insert_ne.
  - intros b ->. split_and!; try (cbn; lia).
    exists m0, raw, answer. split_and!; try done. by rewrite lookup_insert_eq.
Qed.

(** X8.  Validation writes nothing and converts nothing: the files are untouched,
    no module other than the one validated changes, nothing is traced,
    converted or saved, the wrapper runs at most once and the converted model
    no more often than the wrapper, both on the one image drawn at entry. *)
Theorem validation_is_read_only (ext : Externals) (mlmodel : MLModel) (pm : ModelRef)
    (H W : Z) (t : Q) (w : World) :
  let out := validate_coreml_model ext mlmodel pm (H, W) t w in
  let image := mkImage [1; 3; H; W]%Z (rng w) in
  fs out.2 = fs w ∧
  (∀ r', r' ≠ pm → heap out.2 !! r' = heap w !! r') ∧
  ∃ evs, log out.2 = log w ++ evs ∧
    count is_trace evs = 0 ∧ count is_convert evs = 0 ∧ count is_save evs = 0 ∧
    count is_forward evs ≤ 1 ∧ count is_predict evs ≤ count is_forward evs ∧
    (∀ ev, ev ∈ evs → is_forward ev = true → ev = EvForward image) ∧
    (∀ ev, ev ∈ evs → is_predict ev = true → ev = EvPredict image).
Proof.
  intros out image.
  destruct (validate_effects ext mlmodel pm H W t w)
    as (evs & Hlog & Hfs & _ & Ht & Hs & Hc & Hf & Hp & Hfi & Hpi & Hother & _).
  split_and!; [done|done|]. exists evs. split_and!; done.
Qed.

(** X9.  The verdict validation returns is the verdict of comparing, at the
    tolerance given, the five tensors cut from the answer of the network in
    evaluation mode with the answer of the converted model to the same image. *)
Theorem validation_verdict_is_comparison (ext : Externals) (mlmodel : MLModel)
    (pm : ModelRef) (H W : Z) (t : Q) (w w' : World) (b : bool) :
  validate_coreml_model ext mlmodel pm (H, W) t w = (Ok b, w') →
  let image := mkImage [1; 3; H; W]%Z (rng w) in
  ∃ m0 raw answer,
    heap w !! pm = Some m0 ∧ heap w' !! pm = Some (eval_mode m0) ∧
    raw_forward ext (eval_mode m0) image = Ok raw ∧
    coreml_predict ext mlmodel image = Ok answer ∧
    (compare_all (decompose raw) answer t (initial_world ∅)).1 = Ok b.
Proof.
  intros Hrun image.
  destruct (validate_effects ext mlmodel pm H W t w)
    as (evs & _ & _ & _ & _ & _ & _ & _ & _ & _ & _ & _ & Hok).
  rewrite Hrun in Hok. cbn [fst snd] in Hok.
  by destruct (Hok b eq_refl) as (_ & _ & Hex).
Qed.

(** A converted model that drifts: the verdict is the one of the
    comparison, [false]. *)
Lemma validation_verdict_is_comparison_sample :
  let w2 := (load_pytorch_model drifting_externals "sharp.pth" sample_world).2 in
  let c := convert_to_coreml drifting_externals 0%N "out.mlpackage" (512, 512)%Z ALL false w2 in
  ∃ m raw answer,
    c.1 = Ok m ∧
    (validate_coreml_model drifting_externals m 0%N (512, 512)%Z (1 # 1000) c.2).1 = Ok false ∧
    (compare_all (decompose raw) answer (1 # 1000) (initial_world ∅)).1 = Ok false.
Proof.
  intros w2 c.
  assert (Hc : is_Ok c.1 = true) by (vm_compute; reflexivity).
  destruct c.1 as [m|e] eqn:E; [|discriminate Hc].
  set (v := validate_coreml_model drifting_externals m 0%N (512, 512)%Z (1 # 1000) c.2).
  assert (Hv : v.1 = Ok false).
  { assert (Hm : Ok m = c.1) by (by rewrite E).
    subst v. vm_compute in Hm. injection Hm as ->. vm_compute; reflexivity. }
  destruct (validation_verdict_is_comparison drifting_externals m 0%N 512 512 (1 # 1000)
              c.2 v.2 false (run_eq v (Ok false) Hv)) as (m0 & raw & answer & _ & _ & _ & _ & H).
  exists m, raw, answer. split_and!; [reflexivity | exact Hv | exact H].
Defined.

Lemma abs_diffs_self x a : In a (abs_diffs x x) → (a == 0)%Q.
Proof.
  unfold abs_diffs. generalize (Tensor.ravel x). intros l.
  induction l as [|c l IH]; [done|]. cbn [zip_with In]. intros [Ha|Hin]; [|by apply IH].
  subst a. transitivity (Qabs 0); [|reflexivity]. apply Qabs_wd.
  unfold Qminus. apply Qplus_opp_r.
Qed.

Lemma same_shape_refl x : same_shape x x.
Proof.
  unfold same_shape. apply Forall2_same_length_lookup_2; [done|].
  intros i m1 m2 H1 H2. simplify_eq.
  apply Forall2_same_length_lookup_2; [done|]. intros j r1 r2 H3 H4. by simplify_eq.
Qed.

(** X10.  When the converted model reproduces every output exactly (entries are
    finite numbers, and no output is empty), the comparison passes exactly
    when the tolerance is positive: at tolerance 0 even identical outputs
    fail, because the test is strict. *)
Theorem identical_outputs_pass_iff_positive_tolerance (pt : Gaussians Q)
    (coreml_output : gmap string (Tensor.t Q)) (tolerance : Q) (w : World) :
  Forall (λ nx, coreml_output !! nx.1 = Some nx.2 ∧ Tensor.ravel nx.2 ≠ [])
    (named_outputs pt) →
  ∃ all_passed, (compare_all pt coreml_output tolerance w).1 = Ok all_passed ∧
                (all_passed = true ↔ (0 < tolerance)%Q).
Proof.
  intros H.
  assert (Hc : Forall (comparable coreml_output) (named_outputs pt)).
  { eapply Forall_impl; [exact H|]. intros nx [Hn He]. exists nx.2.
    split_and!; [done|apply same_shape_refl|done]. }
  destruct (compare_outputs_run coreml_output tolerance _ true w Hc) as (rows & Hrows & Hrun).
  exists (forallb line_passed rows). split.
  - unfold compare_all. unfold mbind, M_bind at 1. rewrite Hrun. cbn [andb].
    by destruct (forallb line_passed rows).
  - assert (Hrow : ∀ ev, ev ∈ rows → (line_passed ev = true ↔ (0 < tolerance)%Q)).
    { intros ev Hev.
      apply list_elem_of_lookup in Hev as [i Hi].
      destruct (Forall2_lookup_r _ _ _ _ _ Hrows Hi) as (nx & Hnx & Hrep).
      destruct Hrep as (y & passed & mx & mn & Hy & -> & [Hin _] & _ & Hpass).
      rewrite Forall_forall in H. destruct (H nx) as [Hsame _].
      { apply list_elem_of_lookup. eauto. }
      rewrite Hsame in Hy. injection Hy as <-.
      apply abs_diffs_self in Hin. simpl. rewrite Hpass. by rewrite Hin. }
    rewrite forallb_forall. split.
    + intros Hall. destruct rows as [|ev rows]; [by apply Forall2_length in Hrows|].
      apply (Hrow ev); [left|]. apply Hall. by left.
    + intros Ht ev Hev. apply Hrow; [|done]. by apply list_elem_of_In.
Qed.

Lemma identical_outputs_sample :
  (compare_all (decompose sample_output) (predicted sample_output) (1 # 1000)
     (initial_world ∅)).1 = Ok true ∧
  (compare_all (decompose sample_output) (predicted sample_output) 0
     (initial_world ∅)).1 = Ok false.
Proof.
  assert (H : Forall (λ nx : string * Tensor.t Q,
                        predicted sample_output !! nx.1 = Some nx.2 ∧ Tensor.ravel nx.2 ≠ [])
                (named_outputs (decompose sample_output))).
  { repeat constructor; (vm_compute; reflexivity) || discriminate. }
  split.
  - destruct (identical_outputs_pass_iff_positive_tolerance (decompose sample_output)
                (predicted sample_output) (1 # 1000) (initial_world ∅) H) as (b & Hrun & Hb).
    rewrite Hrun. f_equal. apply Hb. reflexivity.
  - destruct (identical_outputs_pass_iff_positive_tolerance (decompose sample_output)
                (predicted sample_output) 0 (initial_world ∅) H) as (b & Hrun & Hb).
    rewrite Hrun. f_equal. destruct b; [|reflexivity].
    destruct Hb as [Hb _]. specialize (Hb eq_refl). discriminate Hb.
Defined.




(** X12.  The verdict is monotone in the tolerance: outputs that can be compared and
    pass at one tolerance pass at every greater one. *)
Theorem looser_tolerance_keeps_pass (pt : Gaussians Q)
    (coreml_output : gmap string (Tensor.t Q)) (t t' : Q) (w w' : World) :
  Forall (comparable coreml_output) (named_outputs pt) →
  (t <= t')%Q →
  (compare_all pt coreml_output t w).1 = Ok true →
  (compare_all pt coreml_output t' w').1 = Ok true.
Proof.
  intros Hc Hle Hpass.
  destruct (compare_outputs_run coreml_output t _ true w Hc) as (rows & Hrows & Hrun).
  destruct (compare_outputs_run coreml_output t' _ true w' Hc) as (rows' & Hrows' & Hrun').
  assert (Hall : forallb line_passed rows = true).
  { unfold compare_all in Hpass. unfold mbind, M_bind at 1 in Hpass. rewrite Hrun in Hpass.
    cbn [andb] in Hpass. destruct (forallb line_passed rows); [done|].
    revert Hpass. by destruct (add_log w rows). }
  assert (Hall' : forallb line_passed rows' = true).
  { apply forallb_forall. intros ev' Hev'. apply list_elem_of_In in Hev'.
    apply list_elem_of_lookup in Hev' as [i Hi'].
    destruct (Forall2_lookup_r _ _ _ _ _ Hrows' Hi') as (nx & Hnx & Hrep').
    destruct (Forall2_lookup_l _ _ _ _ _ Hrows Hnx) as (ev & Hi & Hrep).
    destruct Hrep as (y & passed & mx & mn & Hy & -> & [_ Hub] & _ & Hp).
    destruct Hrep' as (y' & passed' & mx' & mn' & Hy' & -> & [Hin' _] & _ & Hp').
    rewrite Hy in Hy'. injection Hy' as <-.
    rewrite forallb_forall in Hall.
    assert (Hpassed : passed = true).
    { apply (Hall (EvPrint (ValidationLine passed nx.1 mx mn))).
      apply list_elem_of_In, list_elem_of_lookup. eauto. }
    simpl. apply Hp'. apply Hp in Hpassed.
    eapply Qle_lt_trans; [apply Hub, Hin'|]. eapply Qlt_le_trans; [exact Hpassed|exact Hle]. }
  unfold compare_all. unfold mbind, M_bind at 1. rewrite Hrun'. cbn [andb]. rewrite Hall'.
  by destruct (add_log w' rows').
Qed.

Lemma looser_tolerance_keeps_pass_sample :
  (compare_all (decompose sample_output) (predicted sample_output) (1 # 10)
     (initial_world ∅)).1 = Ok true.
Proof.
  apply (looser_tolerance_keeps_pass (decompose sample_output) (predicted sample_output)
           (1 # 1000) (1 # 10) (initial_world ∅) (initial_world ∅)).
  - apply comparable_sample. repeat constructor.
  - discriminate.
  - vm_compute; reflexivity.
Defined.

(** ** More on the driver *)
















(** X15.  Validation comes after the save and does not undo it: once the conversion
    has returned, the file system at the end of main is the one the conversion
    left, with the package at the output path, also when validation raises;
    and an exception raised by validation ends the run with status 1. *)
Theorem validation_error_keeps_artifact (ext : Externals) (args : Args) (w w1 w2 w3 : World)
    (pm : ModelRef) (m : MLModel) :
  is_Some (fs w !! input args) →
  make_output_dir ext args w = (Ok (), w1) →
  load_pytorch_model ext (input args) w1 = (Ok pm, w2) →
  convert_to_coreml ext pm (output args) (height args, width args)
    (compute_units args) (quantize args) w2 = (Ok m, w3) →
  let out := main ext args w in
  fs out.2 = fs w3 ∧
  fs out.2 !! output args = Some (FArtifact m) ∧
  (skip_validation args = false →
   ∀ e w4, validate_coreml_model ext m pm (height args, width args) (tolerance args) w3
             = (Raise e, w4) →
           is_Exception e = true → exit_status out.1 = Some 1%Z).
Proof.
  intros Hin Hdir Hload Hconv out. subst out.
  rewrite main_unfold, check_input_run, bool_decide_eq_true_2 by done.
  rewrite Hdir, pipeline_unfold, Hload, Hconv, validate_unless_skipped_run.
  assert (Hart : fs w3 !! output args = Some (FArtifact m)).
  { destruct (convert_effects ext pm (output args) (height args, width args)
                (compute_units args) (quantize args) w2)
      as (evs & _ & _ & _ & _ & _ & _ & _ & _ & _ & _ & Hok).
    rewrite Hconv in Hok. cbn [fst snd] in Hok. destruct Hok as (-> & _).
    apply lookup_insert_eq. }
  destruct (skip_validation args).
  { destruct (success_banner_run args w3) as (e4 & -> & _). cbn [fst snd add_log fs].
    split_and!; [done|done|]. intros [=]. }
  destruct (validate_effects ext m pm (height args) (width args) (tolerance args) w3)
    as (evs & _ & Hfs & _).
  destruct (validate_coreml_model ext m pm (height args, width args) (tolerance args) w3)
    as [[b|ex] w4]; cbn [fst snd] in *.
  - destruct (success_banner_run args w4) as (e4 & -> & _). cbn [fst snd add_log fs].
    rewrite Hfs. split_and!; [done|done|]. intros _ e w5 [=].
  - destruct (is_Exception ex) eqn:Hex.
    + destruct (report_failure_run ex w4) as (e4 & -> & _). cbn [fst snd add_log fs].
      rewrite Hfs. split_and!; [done|done|]. by intros _ e w5 [= <- <-] _.
    + cbn [fst snd]. rewrite Hfs. split_and!; [done|done|].
      intros _ e w5 [= <- <-] He. congruence.
Qed.

(** A converted model that cannot run: the package stays on disk, the
    status is 1. *)
Lemma validation_error_keeps_artifact_sample :
  let out := main broken_runtime_externals sample_args sample_world in
  is_Some (fs out.2 !! "models/sharp.mlpackage") ∧ exit_status out.1 = Some 1%Z.
Proof.
  intros out.
  set (d := make_output_dir broken_runtime_externals sample_args sample_world).
  set (l := load_pytorch_model broken_runtime_externals (input sample_args) d.2).
  set (c := convert_to_coreml broken_runtime_externals 0%N (output sample_args)
              (height sample_args, width sample_args) (compute_units sample_args)
              (quantize sample_args) l.2).
  assert (Hc : is_Ok c.1 = true) by (vm_compute; reflexivity).
  destruct c.1 as [m|e] eqn:E; [|discriminate Hc].
  destruct (validation_error_keeps_artifact broken_runtime_externals sample_args sample_world
              d.2 l.2 c.2 0%N m) as (_ & Hfs & Hst).
  - eexists. vm_compute; reflexivity.
  - exact (run_eq d (Ok ()) ltac:(vm_compute; reflexivity)).
  - exact (run_eq l (Ok 0%N) ltac:(vm_compute; reflexivity)).
  - exact (run_eq c (Ok m) E).
  - split; [eexists; exact Hfs|].
    set (v := validate_coreml_model broken_runtime_externals m 0%N
                (height sample_args, width sample_args) (tolerance sample_args) c.2).
    assert (Hv : v.1 = Raise (PyExn RuntimeError "Error computing NN outputs")).
    { assert (Hm : Ok m = c.1) by (by rewrite E).
      subst v. vm_compute in Hm. injection Hm as ->. vm_compute; reflexivity. }
    exact (Hst eq_refl _ v.2 (run_eq v _ Hv) eq_refl).
Defined.

(** X16.  Without the input file main prints one error line and exits with status 1
    before anything else happens. With it, when the output path names a
    directory to make, a failure to make it happens outside the try block: the
    exception leaves main as it is, with no banner, no load and no error
    report. *)
Theorem main_stops_before_loading (ext : Externals) (args : Args) (w : World) :
  (fs w !! input args = None →
   main ext args w =
     (Raise (SystemExit 1),
      add_log w [EvPrint (Text ("Error: Input file not found: " +:+ input args))])) ∧
  (is_Some (fs w !! input args) →
   ∀ e, makedirs_error ext (os_path_dirname (output args)) = Some e →
        os_path_dirname (output args) ≠ "" →
        main ext args w =
          (Raise e, add_log w [EvMakedirs (os_path_dirname (output args))])).
Proof.
  split.
  - intros Hno. rewrite main_unfold, check_input_run, bool_decide_eq_false_2; [done|].
    rewrite Hno. by intros [? ?].
  - intros Hin e He Hd. rewrite main_unfold, check_input_run, bool_decide_eq_true_2 by done.
    unfold make_output_dir. rewrite bool_decide_eq_false_2 by done.
    destruct w as [wfs wheap wnext wrng wlog]. unfold add_log. exec. rewrite He. by exec.
Qed.

Lemma main_stops_before_loading_sample :
  main faithful_externals sample_args (initial_world ∅) =
    (Raise (SystemExit 1),
     add_log (initial_world ∅) [EvPrint (Text "Error: Input file not found: sharp.pth")]) ∧
  main read_only_externals sample_args sample_world =
    (Raise (PyExn PermissionError "models"), add_log sample_world [EvMakedirs "models"]).
Proof.
  split.
  - apply (proj1 (main_stops_before_loading faithful_externals sample_args (initial_world ∅))).
    vm_compute; reflexivity.
  - apply (proj2 (main_stops_before_loading read_only_externals sample_args sample_world)).
    + eexists. vm_compute; reflexivity.
    + vm_compute; reflexivity.
    + vm_compute. discriminate.
Defined.

(** * Properties of the project generator *)

(** ** The generator: walking the tree *)

Lemma gen_parent_snoc (p : Gen.Path) c : Gen.parent (p ++ [c]) = p.
Proof. unfold Gen.parent. apply removelast_last. Qed.

Lemma gen_node_snoc fs (p : Gen.Path) c : gen_node fs (p ++ [c]) = fs !! (p ++ [c]).
Proof. by destruct p. Qed.

Lemma gen_node_nonempty fs (p : Gen.Path) : p ≠ [] → gen_node fs p = fs !! p.
Proof. by destruct p. Qed.

Lemma gen_stat_from_snoc fs todo : ∀ here n c,
  Gen.stat_from fs here n (todo ++ [c]) =
    match Gen.stat_from fs here n todo with
    | Gen.Returns Gen.Dir =>
        match fs !! (here ++ todo ++ [c]) with
        | Some n' => Gen.Returns n'
        | None => Gen.Raises (Gen.OSError Gen.ENOENT)
        end
    | Gen.Returns (Gen.File _ _) => Gen.Raises (Gen.OSError Gen.ENOTDIR)
    | Gen.Raises e => Gen.Raises e
    end.
Proof.
  induction todo as [|d todo IH]; intros here n c; simpl.
  - destruct n; [|reflexivity]. by destruct (fs !! (here ++ [c])).
  - destruct n; [|reflexivity].
    destruct (fs !! (here ++ [d])) as [n'|]; [|reflexivity].
    rewrite IH. by rewrite <- (app_assoc here [d]).
Qed.

Lemma gen_stat_snoc fs (p : Gen.Path) c :
  Gen.stat fs (p ++ [c]) =
    match Gen.stat fs p with
    | Gen.Returns Gen.Dir =>
        match fs !! (p ++ [c]) with
        | Some n' => Gen.Returns n'
        | None => Gen.Raises (Gen.OSError Gen.ENOENT)
        end
    | Gen.Returns (Gen.File _ _) => Gen.Raises (Gen.OSError Gen.ENOTDIR)
    | Gen.Raises e => Gen.Raises e
    end.
Proof. apply gen_stat_from_snoc. Qed.

(** What [stat] finds is in the tree. *)
Lemma gen_stat_node fs p n : Gen.stat fs p = Gen.Returns n → gen_node fs p = Some n.
Proof.
  destruct p as [|c p _] using rev_ind.
  - by intros [= <-].
  - rewrite gen_stat_snoc, gen_node_snoc.
    destruct (Gen.stat fs p) as [[|]|]; try discriminate.
    destruct (fs !! (p ++ [c])); [by intros [= ->] | discriminate].
Qed.

(** In a tree, [stat] finds whatever is there. *)
Lemma gen_node_stat fs p n : gen_tree fs → gen_node fs p = Some n → Gen.stat fs p = Gen.Returns n.
Proof.
  intros Hwf. revert n. induction p as [|c p IH] using rev_ind; intros n.
  - by intros [= <-].
  - rewrite gen_node_snoc, gen_stat_snoc. intros Hn.
    pose proof (Hwf _ _ Hn) as Hp. rewrite gen_parent_snoc in Hp.
    by rewrite (IH _ Hp), Hn.
Qed.

(** A walk that fails says why: something is missing, or a file is in
    the way. *)
Lemma gen_stat_raises fs p e :
  Gen.stat fs p = Gen.Raises e → e = Gen.OSError Gen.ENOENT ∨ e = Gen.OSError Gen.ENOTDIR.
Proof.
  revert e. induction p as [|c p IH] using rev_ind; intros e; [discriminate|].
  rewrite gen_stat_snoc. destruct (Gen.stat fs p) as [[|]|e'].
  - destruct (fs !! (p ++ [c])); [discriminate|]. intros [= <-]. by left.
  - intros [= <-]. by right.
  - intros [= <-]. by apply IH.
Qed.

(** A greater tree answers the same where the smaller one answers. *)
Lemma gen_stat_mono fs fs' p n :
  fs ⊆ fs' → Gen.stat fs p = Gen.Returns n → Gen.stat fs' p = Gen.Returns n.
Proof.
  intros Hsub. revert n. induction p as [|c p IH] using rev_ind; intros n; [done|].
  rewrite !gen_stat_snoc.
  destruct (Gen.stat fs p) as [[|]|] eqn:E; try discriminate.
  rewrite (IH _ eq_refl).
  destruct (fs !! (p ++ [c])) as [n'|] eqn:E'; [|discriminate].
  intros [= <-]. by rewrite (lookup_weaken _ _ _ _ E' Hsub).
Qed.

Lemma gen_node_insert_ne fs (p q : Gen.Path) n :
  q ≠ p → gen_node (<[p := n]> fs) q = gen_node fs q.
Proof. intros Hne. destruct q; [done|]. unfold gen_node. by rewrite lookup_insert_ne. Qed.

(** Putting a node into a directory of a tree gives a tree, as long as
    no directory is replaced by a file. *)
Lemma gen_tree_insert fs (p : Gen.Path) n :
  gen_tree fs → gen_node fs (Gen.parent p) = Some Gen.Dir →
  n = Gen.Dir ∨ fs !! p ≠ Some Gen.Dir →
  gen_tree (<[p := n]> fs).
Proof.
  intros Hwf Hp Hn q m Hq.
  assert (Hparent : gen_node fs (Gen.parent q) = Some Gen.Dir).
  { destruct (decide (q = p)) as [->|Hne]; [done|].
    rewrite lookup_insert_ne in Hq by done. by apply (Hwf _ _ Hq). }
  destruct (decide (Gen.parent q = p)) as [E|Hne].
  - rewrite E in *. destruct p as [|c p]; [done|].
    unfold gen_node in *. rewrite lookup_insert_eq.
    destruct Hn as [->|Hn]; [done|]. by destruct Hn.
  - by rewrite gen_node_insert_ne.
Qed.

(** Below a missing node of a tree there is nothing. *)
Lemma gen_tree_below_missing fs (p q : Gen.Path) :
  gen_tree fs → p ≠ [] → fs !! p = None → fs !! (p ++ q) = None.
Proof.
  intros Hwf Hp Hnone. induction q as [|c q IH] using rev_ind.
  - by rewrite app_nil_r.
  - destruct (fs !! (p ++ q ++ [c])) as [n|] eqn:E; [|done].
    pose proof (Hwf _ _ E) as Hpar.
    rewrite app_assoc, gen_parent_snoc in Hpar.
    rewrite gen_node_nonempty in Hpar by (by destruct p).
    congruence.
Qed.

(** Below a file of a tree there is nothing. *)
Lemma gen_tree_below_file fs (p : Gen.Path) c content mode :
  gen_tree fs → fs !! p = Some (Gen.File content mode) → p ≠ [] → fs !! (p ++ [c]) = None.
Proof.
  intros Hwf Hf Hp. destruct (fs !! (p ++ [c])) as [n|] eqn:E; [|done].
  pose proof (Hwf _ _ E) as Hpar. rewrite gen_parent_snoc in Hpar.
  destruct p; [done|]. unfold gen_node in Hpar. congruence.
Qed.

(** ** The generator: the operations on a tree *)

Lemma gen_bind_returns {A B} (m : Gen.G A) (f : A → Gen.G B) s a s' :
  m s = (Gen.Returns a, s') → (m ≫= f) s = f a s'.
Proof. intros H. unfold mbind, Gen.G_bind. by rewrite H. Qed.

Lemma gen_bind_raises {A B} (m : Gen.G A) (f : A → Gen.G B) s e s' :
  m s = (Gen.Raises e, s') → (m ≫= f) s = (Gen.Raises e, s').
Proof. intros H. unfold mbind, Gen.G_bind. by rewrite H. Qed.

Lemma gen_path_exists_run p s :
  Gen.path_exists p s =
    (Gen.Returns (match Gen.stat (Gen.files s) p with
                  | Gen.Returns _ => true | Gen.Raises _ => false end), s).
Proof. reflexivity. Qed.

Lemma gen_missing_not_found fs p :
  gen_node fs p = None →
  match Gen.stat fs p with Gen.Returns _ => true | Gen.Raises _ => false end = false.
Proof.
  intros Hn. destruct (Gen.stat fs p) as [n|] eqn:E; [|done].
  apply gen_stat_node in E. congruence.
Qed.

Lemma gen_missing_not_dir fs p :
  gen_node fs p = None →
  match Gen.stat fs p with Gen.Returns Gen.Dir => true | _ => false end = false.
Proof.
  intros Hn. destruct (Gen.stat fs p) as [n|] eqn:E; [|done].
  apply gen_stat_node in E. congruence.
Qed.

Lemma gen_os_mkdir_new (p : Gen.Path) s :
  gen_tree (Gen.files s) → p ≠ [] →
  gen_node (Gen.files s) (Gen.parent p) = Some Gen.Dir → Gen.files s !! p = None →
  Gen.os_mkdir p s =
    (Gen.Returns (), {| Gen.files := <[p := Gen.Dir]> (Gen.files s); Gen.stdout := Gen.stdout s |}).
Proof.
  intros Hwf Hp Hpar Hnone. unfold Gen.os_mkdir. destruct p; [done|].
  by rewrite (gen_node_stat _ _ _ Hwf Hpar), Hnone.
Qed.


Lemma gen_write_text_new mode0 (p : Gen.Path) content s :
  gen_tree (Gen.files s) → p ≠ [] →
  gen_node (Gen.files s) (Gen.parent p) = Some Gen.Dir → Gen.files s !! p = None →
  Gen.write_text mode0 p content s =
    (Gen.Returns (), {| Gen.files := <[p := Gen.File content mode0]> (Gen.files s);
                        Gen.stdout := Gen.stdout s |}).
Proof.
  intros Hwf Hp Hpar Hnone. unfold Gen.write_text. destruct p; [done|].
  by rewrite (gen_node_stat _ _ _ Hwf Hpar), Hnone.
Qed.

Lemma gen_os_chmod_file (p : Gen.Path) content mode mode' s :
  gen_tree (Gen.files s) → p ≠ [] → Gen.files s !! p = Some (Gen.File content mode) →
  Gen.os_chmod p mode' s =
    (Gen.Returns (), {| Gen.files := <[p := Gen.File content mode']> (Gen.files s);
                        Gen.stdout := Gen.stdout s |}).
Proof.
  intros Hwf Hp Hf. unfold Gen.os_chmod.
  rewrite (gen_node_stat _ p (Gen.File content mode) Hwf); [done|]. by destruct p.
Qed.

(** A new file and then its mode: one node. *)
Lemma gen_write_then_chmod mode0 (p : Gen.Path) content mode s :
  gen_tree (Gen.files s) → p ≠ [] →
  gen_node (Gen.files s) (Gen.parent p) = Some Gen.Dir → Gen.files s !! p = None →
  (Gen.write_text mode0 p content;; Gen.os_chmod p mode) s =
    (Gen.Returns (), {| Gen.files := <[p := Gen.File content mode]> (Gen.files s);
                        Gen.stdout := Gen.stdout s |}).
Proof.
  intros Hwf Hp Hpar Hnone.
  rewrite (gen_bind_returns _ _ _ _ _ (gen_write_text_new mode0 p content s Hwf Hp Hpar Hnone)).
  erewrite gen_os_chmod_file; cbn [Gen.files Gen.stdout].
  - by rewrite insert_insert_eq.
  - apply gen_tree_insert; [done..|]. right. congruence.
  - done.
  - apply lookup_insert_eq.
Qed.


(** ** The generator: making a directory with its parents *)

Lemma gen_mkdir_parents_rev_eq rp exist_ok :
  Gen.mkdir_parents_rev rp exist_ok =
    Gen.try_except (Gen.os_mkdir (rev rp)) (λ e,
      match e with
      | Gen.OSError Gen.ENOENT =>
          match rp with
          | [] => Gen.raise e
          | _ :: rparent =>
              Gen.mkdir_parents_rev rparent true;;
              Gen.mkdir_one (rev rp) exist_ok
          end
      | Gen.OSError _ | Gen.SameFileError => Gen.mkdir_except_OSError (rev rp) exist_ok e
      | _ => Gen.raise e
      end).
Proof. by destruct rp. Qed.

Lemma gen_ancestors_rev_length rp q n :
  gen_ancestors_rev rp !! q = Some n → length q ≤ length rp ∧ n = Gen.Dir.
Proof.
  induction rp as [|c rp IH]; [done|]. cbn [gen_ancestors_rev].
  destruct (decide (q = rev (c :: rp))) as [->|Hne].
  - rewrite lookup_insert_eq. intros [= <-]. by rewrite length_rev.
  - rewrite lookup_insert_ne by done. intros H. destruct (IH H). simpl. split; [lia|done].
Qed.

Lemma gen_union_insert_present (m1 m2 : gmap Gen.Path Gen.Node) k x :
  m1 !! k = Some x → m1 ∪ <[k := x]> m2 = m1 ∪ m2.
Proof.
  intros Hk. apply map_eq. intros j. rewrite !lookup_union.
  destruct (decide (j = k)) as [->|Hne].
  - rewrite lookup_insert_eq, Hk. by destruct (m2 !! k).
  - by rewrite lookup_insert_ne.
Qed.

(** A directory of a tree has all its ancestors. *)
Lemma gen_ancestors_present fs rp :
  gen_tree fs → gen_node fs (rev rp) = Some Gen.Dir → fs ∪ gen_ancestors_rev rp = fs.
Proof.
  intros Hwf. induction rp as [|c rp IH]; intros Hn.
  - apply (right_id _ _).
  - cbn [gen_ancestors_rev]. simpl in Hn.
    rewrite gen_node_snoc in Hn.
    rewrite gen_union_insert_present by exact Hn. apply IH.
    pose proof (Hwf _ _ Hn) as Hp. by rewrite gen_parent_snoc in Hp.
Qed.

(** A walk stopped by ENOTDIR has met a file. *)
Lemma gen_stat_enotdir fs p :
  Gen.stat fs p = Gen.Raises (Gen.OSError Gen.ENOTDIR) →
  ∃ q content mode, q `prefix_of` p ∧ fs !! q = Some (Gen.File content mode).
Proof.
  induction p as [|c p IH] using rev_ind; [discriminate|].
  rewrite gen_stat_snoc. destruct (Gen.stat fs p) as [[|content mode]|e] eqn:E.
  - by destruct (fs !! (p ++ [c])).
  - intros _. apply gen_stat_node in E. exists p, content, mode. split.
    + by apply prefix_app_r.
    + destruct p; [done|exact E].
  - intros [= ->]. destruct (IH eq_refl) as (q & content & mode & Hq & Hf).
    exists q, content, mode. split; [|done]. by apply prefix_app_r.
Qed.

Lemma gen_mkdir_except_exists (p : Gen.Path) e s :
  Gen.stat (Gen.files s) p = Gen.Returns Gen.Dir →
  Gen.mkdir_except_OSError p true e s = (Gen.Returns (), s).
Proof.
  intros Hs. unfold Gen.mkdir_except_OSError.
  assert (Hd : Gen.is_dir p s = (Gen.Returns true, s)) by (unfold Gen.is_dir; by rewrite Hs).
  by rewrite (gen_bind_returns _ _ _ _ _ Hd).
Qed.

Lemma gen_mkdir_one_new (p : Gen.Path) exist_ok s :
  gen_tree (Gen.files s) → p ≠ [] →
  gen_node (Gen.files s) (Gen.parent p) = Some Gen.Dir → Gen.files s !! p = None →
  Gen.mkdir_one p exist_ok s =
    (Gen.Returns (), {| Gen.files := <[p := Gen.Dir]> (Gen.files s); Gen.stdout := Gen.stdout s |}).
Proof.
  intros Hwf Hp Hpar Hnone. unfold Gen.mkdir_one, Gen.try_except.
  by rewrite (gen_os_mkdir_new p s Hwf Hp Hpar Hnone).
Qed.

Lemma gen_os_mkdir_snoc (p : Gen.Path) c s :
  Gen.os_mkdir (p ++ [c]) s =
    match Gen.stat (Gen.files s) p with
    | Gen.Raises e => (Gen.Raises e, s)
    | Gen.Returns (Gen.File _ _) => (Gen.Raises (Gen.OSError Gen.ENOTDIR), s)
    | Gen.Returns Gen.Dir =>
        match Gen.files s !! (p ++ [c]) with
        | Some _ => (Gen.Raises (Gen.OSError Gen.EEXIST), s)
        | None => Gen.set_node (p ++ [c]) Gen.Dir s
        end
    end.
Proof.
  unfold Gen.os_mkdir. destruct (p ++ [c]) as [|d l] eqn:El; [by destruct p|].
  rewrite <- El. by rewrite gen_parent_snoc.
Qed.

(** [mkdir(parents=True)] on a tree in which no file is in the way: every
    missing directory on the way is made, nothing else changes. *)
Lemma gen_mkdir_parents_rev_run rp : ∀ exist_ok s,
  gen_tree (Gen.files s) →
  (∀ q content mode, q `prefix_of` rev rp → Gen.files s !! q ≠ Some (Gen.File content mode)) →
  exist_ok = true ∨ gen_node (Gen.files s) (rev rp) = None →
  Gen.mkdir_parents_rev rp exist_ok s =
    (Gen.Returns (), {| Gen.files := Gen.files s ∪ gen_ancestors_rev rp;
                        Gen.stdout := Gen.stdout s |}) ∧
  gen_tree (Gen.files s ∪ gen_ancestors_rev rp) ∧
  gen_node (Gen.files s ∪ gen_ancestors_rev rp) (rev rp) = Some Gen.Dir.
Proof.
  induction rp as [|c rp IH]; intros exist_ok [fs out] Hwf Hfiles Hok; cbn [Gen.files Gen.stdout] in *.
  - destruct Hok as [->|Hok]; [|done].
    rewrite gen_mkdir_parents_rev_eq. cbn [gen_ancestors_rev rev].
    rewrite (right_id ∅ (∪) fs). split_and!; [|done|done].
    unfold Gen.try_except. cbn [Gen.os_mkdir]. by rewrite gen_mkdir_except_exists.
  - rewrite gen_mkdir_parents_rev_eq. cbn [gen_ancestors_rev].
    change (rev (c :: rp)) with (rev rp ++ [c]) in *.
    assert (Hfiles' : ∀ q content mode, q `prefix_of` rev rp →
                        fs !! q ≠ Some (Gen.File content mode)).
    { intros q content mode Hq. apply Hfiles. by apply prefix_app_r. }
    unfold Gen.try_except. rewrite gen_os_mkdir_snoc. cbn [Gen.files].
    destruct (Gen.stat fs (rev rp)) as [[|content mode]|e] eqn:E.
    + (* the parent is there *)
      pose proof (gen_stat_node _ _ _ E) as Hpar.
      destruct (fs !! (rev rp ++ [c])) as [n|] eqn:En.
      * destruct Hok as [->|Hok]; [|by rewrite gen_node_snoc, En in Hok].
        assert (n = Gen.Dir) as ->.
        { destruct n as [|content mode]; [done|].
          by destruct (Hfiles (rev rp ++ [c]) content mode). }
        rewrite gen_mkdir_except_exists
          by (cbn [Gen.files]; by rewrite gen_stat_snoc, E, En).
        rewrite gen_union_insert_present by done.
        rewrite gen_ancestors_present by done.
        rewrite gen_node_snoc. done.
      * unfold Gen.set_node. cbn [Gen.files Gen.stdout].
        rewrite <- insert_union_r by done.
        rewrite gen_ancestors_present by done.
        split_and!; [done| |].
        -- apply gen_tree_insert; [done| |by left]. by rewrite gen_parent_snoc.
        -- rewrite gen_node_snoc. apply lookup_insert_eq.
    + (* the parent is a file *)
      apply gen_stat_node in E. destruct (rev rp) as [|d l] eqn:El; [done|].
      by destruct (Hfiles' (d :: l) content mode).
    + (* the parent cannot be reached *)
      destruct (gen_stat_raises _ _ _ E) as [->| ->].
      * assert (Hmiss : gen_node fs (rev rp) = None).
        { destruct (gen_node fs (rev rp)) as [n|] eqn:En; [|done].
          apply (gen_node_stat _ _ _ Hwf) in En. congruence. }
        assert (Hne : rev rp ≠ []) by (intros Hnil; by rewrite Hnil in Hmiss).
        rewrite gen_node_nonempty in Hmiss by done.
        destruct (IH true {| Gen.files := fs; Gen.stdout := out |} Hwf Hfiles' (or_introl eq_refl))
          as (Hrun & Hwf1 & Hdir1).
        cbn [Gen.files Gen.stdout] in *.
        rewrite (gen_bind_returns _ _ _ _ _ Hrun).
        assert (Hnew : (fs ∪ gen_ancestors_rev rp) !! (rev rp ++ [c]) = None).
        { apply lookup_union_None. split.
          - by apply gen_tree_below_missing.
          - destruct (gen_ancestors_rev rp !! (rev rp ++ [c])) as [n|] eqn:En; [|done].
            apply gen_ancestors_rev_length in En as [Hlen _].
            rewrite length_app, length_rev in Hlen. simpl in Hlen. lia. }
        rewrite gen_mkdir_one_new; cbn [Gen.files Gen.stdout];
          [|done|by destruct (rev rp)|by rewrite gen_parent_snoc|done].
        rewrite insert_union_r by (by apply gen_tree_below_missing).
        split_and!; [done| |].
        -- rewrite <- insert_union_r by (by apply gen_tree_below_missing).
           apply gen_tree_insert; [done| |by left]. by rewrite gen_parent_snoc.
        -- rewrite gen_node_snoc, <- insert_union_r by (by apply gen_tree_below_missing).
           apply lookup_insert_eq.
      * destruct (gen_stat_enotdir _ _ E) as (q & content & mode & Hq & Hf).
        by destruct (Hfiles' q content mode).
Qed.

(** ** The generator: paths *)

Lemma gen_split_no_sep sep (s : Gen.str) : sep ∉ s → Gen.split sep s = [s].
Proof.
  induction s as [|c s IH]; [done|]. intros Hs. cbn [Gen.split].
  rewrite bool_decide_eq_false_2 by (intros ->; apply Hs; by left).
  rewrite IH; [done|]. intros Hin. apply Hs. by right.
Qed.

(** A string that is one component hangs below the path. *)
Lemma gen_joinpath_component (p : Gen.Path) (c : Gen.str) :
  c ≠ [] → c ≠ Gen.lit "." → 47%N ∉ c → Gen.joinpath p c = p ++ [c].
Proof.
  intros Hne Hdot Hsep. unfold Gen.joinpath, Gen.parts.
  rewrite gen_split_no_sep by done.
  assert (Gen.starts_with (Gen.lit "/") c = false) as ->.
  { destruct c as [|a c]; [done|]. cbn.
    rewrite bool_decide_eq_false_2; [done|]. intros <-. apply Hsep. by left. }
  rewrite filter_cons_True by done. by rewrite filter_nil.
Qed.

Lemma gen_joinpath_src p : Gen.joinpath p (Gen.lit "src") = p ++ [Gen.lit "src"].
Proof. reflexivity. Qed.
Lemma gen_joinpath_bin p : Gen.joinpath p (Gen.lit "bin") = p ++ [Gen.lit "bin"].
Proof. reflexivity. Qed.
Lemma gen_joinpath_build p : Gen.joinpath p (Gen.lit "build") = p ++ [Gen.lit "build"].
Proof. reflexivity. Qed.
Lemma gen_joinpath_main_cpp p : Gen.joinpath p (Gen.lit "main.cpp") = p ++ [Gen.lit "main.cpp"].
Proof. reflexivity. Qed.
Lemma gen_joinpath_cmake_template p :
  Gen.joinpath p (Gen.lit "CMakeLists.txt.template") = p ++ [Gen.lit "CMakeLists.txt.template"].
Proof. reflexivity. Qed.
Lemma gen_joinpath_cmake p :
  Gen.joinpath p (Gen.lit "CMakeLists.txt") = p ++ [Gen.lit "CMakeLists.txt"].
Proof. reflexivity. Qed.
Lemma gen_joinpath_build_sh p : Gen.joinpath p (Gen.lit "build.sh") = p ++ [Gen.lit "build.sh"].
Proof. reflexivity. Qed.
Lemma gen_joinpath_run_sh p : Gen.joinpath p (Gen.lit "run.sh") = p ++ [Gen.lit "run.sh"].
Proof. reflexivity. Qed.
Lemma gen_templates_dir env : Gen.TEMPLATES_DIR env = Gen.SCRIPT_DIR env ++ [Gen.lit "templates"].
Proof. reflexivity. Qed.

Lemma gen_ancestors_rev_prefix rp q n :
  gen_ancestors_rev rp !! q = Some n → q `prefix_of` rev rp.
Proof.
  induction rp as [|c rp IH]; [done|]. cbn [gen_ancestors_rev].
  destruct (decide (q = rev (c :: rp))) as [->|Hne]; [done|].
  rewrite lookup_insert_ne by done. intros H. simpl. by apply prefix_app_r, IH.
Qed.

Lemma gen_ancestors_prefix p q n : gen_ancestors p !! q = Some n → q `prefix_of` p.
Proof.
  unfold gen_ancestors. intros H%gen_ancestors_rev_prefix. by rewrite rev_involutive in H.
Qed.

Lemma gen_prefix_snoc_inv {A} (q l : list A) c :
  q `prefix_of` l ++ [c] → q `prefix_of` l ∨ q = l ++ [c].
Proof.
  intros [k Hk]. destruct k as [|d k _] using rev_ind.
  - right. by rewrite app_nil_r in Hk.
  - left. rewrite app_assoc in Hk. apply app_inj_tail in Hk as [-> _]. by exists k.
Qed.

(** [p.mkdir(parents=True)] on a tree in which no file is in the way and
    [p] is not there. *)
Lemma gen_mkdir_parents_run (p : Gen.Path) s :
  gen_tree (Gen.files s) →
  (∀ q content mode, q `prefix_of` p → Gen.files s !! q ≠ Some (Gen.File content mode)) →
  gen_node (Gen.files s) p = None →
  Gen.mkdir_parents p s =
    (Gen.Returns (), {| Gen.files := Gen.files s ∪ gen_ancestors p;
                        Gen.stdout := Gen.stdout s |}) ∧
  gen_tree (Gen.files s ∪ gen_ancestors p) ∧
  gen_node (Gen.files s ∪ gen_ancestors p) p = Some Gen.Dir.
Proof.
  intros Hwf Hfiles Hnone. unfold Gen.mkdir_parents, gen_ancestors.
  pose proof (gen_mkdir_parents_rev_run (rev p) false s) as H.
  rewrite rev_involutive in H. apply H; auto.
Qed.

(** [p.mkdir(parents=True)] when the parent is there and [p] is not. *)
Lemma gen_mkdir_parents_direct (p : Gen.Path) s :
  gen_tree (Gen.files s) → p ≠ [] →
  gen_node (Gen.files s) (Gen.parent p) = Some Gen.Dir → Gen.files s !! p = None →
  Gen.mkdir_parents p s =
    (Gen.Returns (), {| Gen.files := <[p := Gen.Dir]> (Gen.files s); Gen.stdout := Gen.stdout s |}).
Proof.
  intros Hwf Hp Hpar Hnone. unfold Gen.mkdir_parents.
  rewrite gen_mkdir_parents_rev_eq, rev_involutive. unfold Gen.try_except.
  by rewrite (gen_os_mkdir_new p s Hwf Hp Hpar Hnone).
Qed.

(** ** The generator: [create_project] *)

Ltac gen_ne :=
  let H := fresh in
  intros H;
  first [ apply app_inv_head in H; vm_compute in H; discriminate H
        | apply (f_equal length) in H; rewrite ?length_app in H; simpl in H; lia ].

Ltac gen_lookup :=
  repeat first [ rewrite lookup_insert_eq | rewrite lookup_insert_ne by gen_ne ].

Ltac gen_print := erewrite gen_bind_returns by reflexivity; cbn [Gen.files Gen.stdout].

(** The first stage, up to the three directories, in a tree where the
    project is not there and no file is in the way of the output path. *)
Lemma gen_create_project_dirs env name (out : Gen.Path) s :
  let pd := out ++ [name] in
  let fs3 := <[pd ++ [Gen.lit "build"] := Gen.Dir]>
             (<[pd ++ [Gen.lit "bin"] := Gen.Dir]>
             (Gen.files s ∪ gen_ancestors (pd ++ [Gen.lit "src"]))) in
  gen_tree (Gen.files s) →
  Gen.joinpath out name = pd →
  (∀ q content mode, q `prefix_of` out → Gen.files s !! q ≠ Some (Gen.File content mode)) →
  Gen.files s !! pd = None →
  Gen.create_project env name out s =
    (Gen.shutil_copy (Gen.new_file_mode env)
       (Gen.SCRIPT_DIR env ++ [Gen.lit "templates"; Gen.lit "main.cpp"])
       (pd ++ [Gen.lit "src"; Gen.lit "main.cpp"]);;
     Gen.print (Gen.lit "  Created: src/main.cpp");;
     cmake_content ← Gen.read_text
       (Gen.SCRIPT_DIR env ++ [Gen.lit "templates"; Gen.lit "CMakeLists.txt.template"]);
     Gen.write_text (Gen.new_file_mode env) (pd ++ [Gen.lit "CMakeLists.txt"])
       (Gen.fill_template name (Gen.path_str (Gen.OFLIKE_PATH env)) cmake_content);;
     Gen.print (Gen.lit "  Created: CMakeLists.txt");;
     Gen.write_text (Gen.new_file_mode env) (pd ++ [Gen.lit "build.sh"]) Gen.build_content;;
     Gen.os_chmod (pd ++ [Gen.lit "build.sh"]) 493%N;;
     Gen.print (Gen.lit "  Created: build.sh");;
     Gen.write_text (Gen.new_file_mode env) (pd ++ [Gen.lit "run.sh"]) (Gen.run_content name);;
     Gen.os_chmod (pd ++ [Gen.lit "run.sh"]) 493%N;;
     Gen.print (Gen.lit "  Created: run.sh");;
     Gen.report name pd)
      {| Gen.files := fs3; Gen.stdout := Gen.stdout s ++ gen_opening env name pd |} ∧
  gen_tree fs3 ∧ Gen.files s ⊆ fs3 ∧
  fs3 !! pd = Some Gen.Dir ∧ fs3 !! (pd ++ [Gen.lit "src"]) = Some Gen.Dir ∧
  ∀ q, q ≠ [] → q ≠ [Gen.lit "src"] → q ≠ [Gen.lit "bin"] → q ≠ [Gen.lit "build"] →
       fs3 !! (pd ++ q) = None.
Proof.
  intros pd fs3 Hwf Hjoin Hfiles Hnone.
  destruct s as [fs out0]. cbn [Gen.files Gen.stdout] in *.
  assert (Hpd : pd ≠ []) by (subst pd; by destruct out).
  assert (Hbelow : ∀ q, fs !! (pd ++ q) = None)
    by (intros q; by apply gen_tree_below_missing).
  (* the tree after the first mkdir *)
  destruct (gen_mkdir_parents_run (pd ++ [Gen.lit "src"])
              {| Gen.files := fs; Gen.stdout := out0 ++ gen_opening env name pd |})
    as (Hrun1 & Hwf1 & Hsrc1); cbn [Gen.files Gen.stdout] in *.
  { done. }
  { intros q content mode [Hq| ->]%gen_prefix_snoc_inv; [|by rewrite Hbelow].
    subst pd. apply gen_prefix_snoc_inv in Hq as [Hq| ->]; [by apply Hfiles|].
    by rewrite Hnone. }
  { rewrite gen_node_snoc. apply Hbelow. }
  set (fs1 := fs ∪ gen_ancestors (pd ++ [Gen.lit "src"])) in *.
  rewrite gen_node_snoc in Hsrc1.
  assert (Hpd1 : fs1 !! pd = Some Gen.Dir).
  { pose proof (Hwf1 _ _ Hsrc1) as H. rewrite gen_parent_snoc in H.
    by rewrite gen_node_nonempty in H. }
  assert (Hfresh1 : ∀ q, q ≠ [] → q ≠ [Gen.lit "src"] → fs1 !! (pd ++ q) = None).
  { intros q Hq1 Hq2. apply lookup_union_None. split; [apply Hbelow|].
    destruct (gen_ancestors (pd ++ [Gen.lit "src"]) !! (pd ++ q)) as [n|] eqn:E; [|done].
    apply gen_ancestors_prefix, prefix_app_inv in E.
    destruct q as [|c q]; [done|].
    pose proof (prefix_cons_inv_1 _ _ _ _ E) as ->.
    apply prefix_cons_inv_2, prefix_nil_inv in E as ->. done. }
  assert (Hwf2 : gen_tree (<[pd ++ [Gen.lit "bin"] := Gen.Dir]> fs1)).
  { apply gen_tree_insert; [done| |by left]. rewrite gen_parent_snoc.
    by rewrite gen_node_nonempty. }
  assert (Hwf3 : gen_tree fs3).
  { apply gen_tree_insert; [done| |by left]. rewrite gen_parent_snoc.
    rewrite gen_node_nonempty by done. by gen_lookup. }
  split_and!.
  - unfold Gen.create_project. cbv zeta. rewrite Hjoin. fold pd.
    rewrite !gen_templates_dir, !gen_joinpath_src, !gen_joinpath_bin, !gen_joinpath_build,
      !gen_joinpath_main_cpp, !gen_joinpath_cmake_template, !gen_joinpath_cmake,
      !gen_joinpath_build_sh, !gen_joinpath_run_sh.
    rewrite <- !(app_assoc _ [_] [_]). cbn [app].
    assert (Hex : Gen.path_exists pd {| Gen.files := fs; Gen.stdout := out0 |}
                  = (Gen.Returns false, {| Gen.files := fs; Gen.stdout := out0 |})).
    { rewrite gen_path_exists_run, gen_missing_not_found; [done|].
      by rewrite gen_node_nonempty. }
    rewrite (gen_bind_returns _ _ _ _ _ Hex).
    do 5 gen_print.
    rewrite <- !app_assoc. cbn [app]. change (_ :: _ :: _ :: [[]]) with (gen_opening env name pd).
    rewrite (gen_bind_returns _ _ _ _ _ Hrun1).
    erewrite gen_bind_returns; cycle 1.
    { apply gen_mkdir_parents_direct; cbn [Gen.files Gen.stdout].
      - done.
      - by destruct pd.
      - rewrite gen_parent_snoc. by rewrite gen_node_nonempty.
      - by apply Hfresh1. }
    cbn [Gen.files Gen.stdout].
    erewrite gen_bind_returns; cycle 1.
    { apply gen_mkdir_parents_direct; cbn [Gen.files Gen.stdout].
      - done.
      - by destruct pd.
      - rewrite gen_parent_snoc. rewrite gen_node_nonempty by done. by gen_lookup.
      - gen_lookup. by apply Hfresh1. }
    reflexivity.
  - done.
  - apply map_subseteq_spec. intros k v Hk. subst fs3.
    rewrite !lookup_insert_ne by (intros <-; rewrite Hbelow in Hk; discriminate Hk).
    by apply lookup_union_Some_l.
  - subst fs3. rewrite !lookup_insert_ne; [done|..].
    + intros H. apply (f_equal length) in H. rewrite length_app in H. simpl in H. lia.
    + intros H. apply (f_equal length) in H. rewrite length_app in H. simpl in H. lia.
  - subst fs3. by gen_lookup.
  - intros q H1 H2 H3 H4. subst fs3.
    rewrite !lookup_insert_ne by (intros H%app_inv_head; congruence).
    by apply Hfresh1.
Qed.

(** ** The generator: the examples *)

Lemma gen_sample_disk_tree : gen_tree (gen_sample_disk gen_sample_templates).
Proof.
  apply (bool_decide_unpack
           (map_Forall (λ p _, gen_node (gen_sample_disk gen_sample_templates) (Gen.parent p)
                               = Some Gen.Dir)
              (gen_sample_disk gen_sample_templates))).
  vm_compute. exact I.
Qed.

Lemma gen_bare_disk_tree : gen_tree (gen_sample_disk []).
Proof.
  apply (bool_decide_unpack
           (map_Forall (λ p _, gen_node (gen_sample_disk []) (Gen.parent p) = Some Gen.Dir)
              (gen_sample_disk []))).
  vm_compute. exact I.
Qed.

(** No file is in the way of [out] when none is at any of its
    prefixes. *)
Lemma gen_clear_way (fs : gmap Gen.Path Gen.Node) (out : Gen.Path) :
  (∀ k content mode, k ≤ length out → fs !! take k out ≠ Some (Gen.File content mode)) →
  ∀ q content mode, q `prefix_of` out → fs !! q ≠ Some (Gen.File content mode).
Proof.
  intros H q content mode [k ->].
  specialize (H (length q) content mode). rewrite take_app_length in H.
  apply H. rewrite length_app. lia.
Qed.

Ltac gen_component_tac :=
  split_and!;
  [ by vm_compute | apply (bool_decide_unpack _); by vm_compute | by vm_compute | by vm_compute ].


Lemma gen_bare_clear_way :
  ∀ q content mode, q `prefix_of` [Gen.lit "home"; Gen.lit "me"; Gen.lit "Projects"] →
    gen_sample_disk [] !! q ≠ Some (Gen.File content mode).
Proof.
  apply gen_clear_way. intros k content mode Hk.
  destruct k as [|[|[|[|k]]]]; [by vm_compute..|simpl in Hk; lia].
Qed.

Lemma gen_tree_new_node fs (p : Gen.Path) n :
  gen_tree fs → gen_node fs (Gen.parent p) = Some Gen.Dir → fs !! p = None →
  gen_tree (<[p := n]> fs).
Proof. intros Hwf Hpar Hnone. apply gen_tree_insert; [done..|]. right. congruence. Qed.





(** The check of lines 30-32, when something is at the path. *)
Lemma gen_check_there (p : Gen.Path) (line : Gen.str) (k : Gen.G unit) s n :
  Gen.stat (Gen.files s) p = Gen.Returns n →
  (there ← Gen.path_exists p;
   (if there : bool then Gen.print line;; Gen.sys_exit 1 else mret ());;
   k) s = (Gen.Raises (Gen.SystemExit 1), gen_printed s [line]).
Proof.
  intros Hthere.
  assert (Hex : Gen.path_exists p s = (Gen.Returns true, s))
    by (by rewrite gen_path_exists_run, Hthere).
  rewrite (gen_bind_returns _ _ _ _ _ Hex).
  erewrite gen_bind_raises; [reflexivity|].
  erewrite gen_bind_returns by reflexivity. reflexivity.
Qed.

(** X21.  When anything, a directory or a file, is at the project path,
    create_project prints the one line that the directory already exists and
    exits with status 1; the file tree is untouched. *)
Theorem create_project_refuses_existing (env : Gen.Env) (name : Gen.str) (out : Gen.Path)
    (s : Gen.State) (n : Gen.Node) :
  Gen.stat (Gen.files s) (Gen.joinpath out name) = Gen.Returns n →
  let r := Gen.create_project env name out s in
  r = (Gen.Raises (Gen.SystemExit 1),
       gen_printed s [ Gen.lit "Error: Directory '" ++ Gen.path_str (Gen.joinpath out name)
                         ++ Gen.lit "' already exists." ]) ∧
  Gen.files r.2 = Gen.files s ∧ Gen.exit_status r.1 = 1%Z.
Proof.
  intros Hthere r. subst r. unfold Gen.create_project. cbv zeta.
  rewrite (gen_check_there _ _ _ s n Hthere). by split_and!.
Qed.

Lemma create_project_refuses_existing_sample :
  let r := Gen.create_project gen_sample_env (Gen.lit "me") [Gen.lit "home"]
             (gen_sample_state gen_sample_templates) in
  r.1 = Gen.Raises (Gen.SystemExit 1) ∧
  Gen.stdout r.2 = [Gen.lit "Error: Directory '/home/me' already exists."].
Proof.
  intros r.
  destruct (create_project_refuses_existing gen_sample_env (Gen.lit "me") [Gen.lit "home"]
              (gen_sample_state gen_sample_templates) Gen.Dir) as (Hr & _).
  - by vm_compute.
  - subst r. rewrite Hr. split; [done|by vm_compute].
Defined.

(** X23.  create_project is not atomic: when main.cpp is missing among the
    templates, it raises FileNotFoundError after it has made the project
    directory with src, bin and build, and leaves them behind with no Created
    line printed, so that a second run on the same name is refused because the
    directory already exists. *)
Theorem create_project_missing_template (env : Gen.Env) (name : Gen.str) (out : Gen.Path)
    (s : Gen.State) :
  let pd := out ++ [name] in
  let template := Gen.SCRIPT_DIR env ++ [Gen.lit "templates"; Gen.lit "main.cpp"] in
  let r := Gen.create_project env name out s in
  gen_tree (Gen.files s) →
  gen_component name →
  (∀ q content mode, q `prefix_of` out → Gen.files s !! q ≠ Some (Gen.File content mode)) →
  Gen.files s !! pd = None →
  Gen.files s !! (Gen.SCRIPT_DIR env ++ [Gen.lit "templates"]) = Some Gen.Dir →
  Gen.files s !! template = None →
  ¬ template `prefix_of` pd →
  r.1 = Gen.Raises (Gen.OSError Gen.ENOENT) ∧
  Gen.files r.2 =
    <[pd ++ [Gen.lit "build"] := Gen.Dir]>
      (<[pd ++ [Gen.lit "bin"] := Gen.Dir]>
         (Gen.files s ∪ gen_ancestors (pd ++ [Gen.lit "src"]))) ∧
  Gen.stdout r.2 = Gen.stdout s ++ gen_opening env name pd ∧
  Gen.create_project env name out r.2 =
    (Gen.Raises (Gen.SystemExit 1),
     gen_printed r.2 [ Gen.lit "Error: Directory '" ++ Gen.path_str pd
                         ++ Gen.lit "' already exists." ]).
Proof.
  intros pd template r Hwf Hcomp Hfiles Hnone Htemplates Hmissing Hnotin.
  assert (Hjoin : Gen.joinpath out name = pd)
    by (destruct Hcomp as (? & ? & ? & _); by apply gen_joinpath_component).
  destruct (gen_create_project_dirs env name out s Hwf Hjoin Hfiles Hnone)
    as (Hrun & Hwf3 & Hsub & Hpd3 & Hsrc3 & Hfresh).
  fold pd in Hrun, Hwf3, Hsub, Hpd3, Hsrc3, Hfresh.
  destruct s as [fs out0]. cbn [Gen.files Gen.stdout] in *.
  set (fs3 := <[pd ++ [Gen.lit "build"] := Gen.Dir]> _) in *.
  set (s3 := {| Gen.files := fs3; Gen.stdout := out0 ++ gen_opening env name pd |}) in *.
  assert (Hpd : pd ≠ []) by (subst pd; by destruct out).
  assert (Htpl3 : fs3 !! template = None).
  { subst fs3. rewrite !lookup_insert_ne.
    - apply lookup_union_None. split; [done|].
      destruct (gen_ancestors (pd ++ [Gen.lit "src"]) !! template) as [n|] eqn:E; [|done].
      apply gen_ancestors_prefix, gen_prefix_snoc_inv in E as [E|E]; [done|].
      subst template. change (?l ++ [?a; ?b]) with (l ++ [a] ++ [b]) in E.
      rewrite app_assoc in E. apply app_inj_tail in E as [_ E]. vm_compute in E. discriminate E.
    - subst template. change (?l ++ [?a; ?b]) with (l ++ [a] ++ [b]).
      rewrite app_assoc. intros [_ E]%app_inj_tail. vm_compute in E. discriminate E.
    - subst template. change (?l ++ [?a; ?b]) with (l ++ [a] ++ [b]).
      rewrite app_assoc. intros [_ E]%app_inj_tail. vm_compute in E. discriminate E. }
  assert (Hstat : Gen.stat (Gen.files s3) template = Gen.Raises (Gen.OSError Gen.ENOENT)).
  { unfold s3. cbn [Gen.files]. subst template. change (?l ++ [?a; ?b]) with (l ++ [a] ++ [b]) in *.
    rewrite app_assoc in *. rewrite gen_stat_snoc.
    rewrite (gen_node_stat fs3 _ Gen.Dir Hwf3).
    - by rewrite Htpl3.
    - rewrite gen_node_nonempty by (by destruct (Gen.SCRIPT_DIR env)).
      by apply (lookup_weaken _ _ _ _ Htemplates). }
  assert (Hcopy : Gen.shutil_copy (Gen.new_file_mode env) template
                    (pd ++ [Gen.lit "src"; Gen.lit "main.cpp"]) s3
                  = (Gen.Raises (Gen.OSError Gen.ENOENT), s3)).
  { unfold Gen.shutil_copy.
    assert (Hd : Gen.is_dir (pd ++ [Gen.lit "src"; Gen.lit "main.cpp"]) s3
                 = (Gen.Returns false, s3)).
    { unfold Gen.is_dir. rewrite gen_missing_not_dir; [done|].
      rewrite gen_node_nonempty by (by destruct pd). by apply Hfresh. }
    rewrite (gen_bind_returns _ _ _ _ _ Hd). cbv zeta.
    assert (Hsame : (if bool_decide (template = pd ++ [Gen.lit "src"; Gen.lit "main.cpp"])
                     then Gen.path_exists template else mret false) s3
                    = (Gen.Returns false, s3)).
    { destruct (bool_decide _); [|done]. by rewrite gen_path_exists_run, Hstat. }
    rewrite (gen_bind_returns _ _ _ _ _ Hsame).
    erewrite gen_bind_returns by reflexivity.
    erewrite gen_bind_raises; [reflexivity|].
    unfold Gen.read_text. by rewrite Hstat. }
  assert (Hr : r = (Gen.Raises (Gen.OSError Gen.ENOENT), s3)).
  { subst r. rewrite Hrun. by rewrite (gen_bind_raises _ _ _ _ _ Hcopy). }
  rewrite Hr. cbn [fst snd Gen.files Gen.stdout]. split_and!; [done..|].
  unfold Gen.create_project. cbv zeta. rewrite Hjoin. fold pd.
  apply (gen_check_there _ _ _ s3 Gen.Dir).
  apply (gen_node_stat _ _ _ Hwf3). by rewrite gen_node_nonempty.
Qed.

(** Without [main.cpp] among the templates: the directories stay, and a
    second run is refused. *)
Lemma create_project_missing_template_sample :
  let r := Gen.create_project gen_sample_env (Gen.lit "mySketch")
             [Gen.lit "home"; Gen.lit "me"; Gen.lit "Projects"] (gen_sample_state []) in
  r.1 = Gen.Raises (Gen.OSError Gen.ENOENT) ∧
  Gen.files r.2 !! [Gen.lit "home"; Gen.lit "me"; Gen.lit "Projects"; Gen.lit "mySketch";
                    Gen.lit "src"] = Some Gen.Dir ∧
  (Gen.create_project gen_sample_env (Gen.lit "mySketch")
     [Gen.lit "home"; Gen.lit "me"; Gen.lit "Projects"] r.2).1 = Gen.Raises (Gen.SystemExit 1).
Proof.
  intros r.
  destruct (create_project_missing_template gen_sample_env (Gen.lit "mySketch")
              [Gen.lit "home"; Gen.lit "me"; Gen.lit "Projects"] (gen_sample_state []))
    as (Hr & Hfs & _ & Hretry).
  - apply gen_bare_disk_tree.
  - gen_component_tac.
  - apply gen_bare_clear_way.
  - by vm_compute.
  - by vm_compute.
  - by vm_compute.
  - apply (bool_decide_unpack _). by vm_compute.
  - fold r in Hr, Hfs, Hretry. split_and!; [exact Hr| |by rewrite Hretry].
    rewrite Hfs. by vm_compute.
Defined.

(** ** The generator: strings *)

(** Replacing one character by nothing filters it out. *)
Lemma gen_replace_char (c : N) (s : Gen.str) :
  Gen.replace [c] [] s = filter (λ x, x ≠ c) s.
Proof.
  unfold Gen.replace. induction s as [|a s IH]; [done|].
  cbn [Gen.replace_from Gen.starts_with length Nat.sub app].
  destruct (decide (c = a)) as [->|Hne].
  - rewrite bool_decide_eq_true_2 by done. cbn [andb].
    rewrite filter_cons_False by (by intros H). exact IH.
  - rewrite bool_decide_eq_false_2 by done. cbn [andb].
    rewrite filter_cons_True by (by intros ->). by rewrite IH.
Qed.

(** The test of line 122 looks at the name without its underscores and
    hyphens. *)
Lemma gen_valid_name_filter (alnum : N → bool) (name : Gen.str) :
  Gen.valid_name alnum name = true ↔
    (∃ c, c ∈ name ∧ c ≠ 95%N ∧ c ≠ 45%N) ∧
    (∀ c, c ∈ name → c ≠ 95%N → c ≠ 45%N → alnum c = true).
Proof.
  unfold Gen.valid_name, Gen.isalnum.
  change (Gen.lit "-") with [45%N]. change (Gen.lit "_") with [95%N].
  rewrite !gen_replace_char.
  set (l := filter (λ x, x ≠ 45%N) (filter (λ x, x ≠ 95%N) name)).
  assert (Hl : ∀ c, c ∈ l ↔ c ∈ name ∧ c ≠ 95%N ∧ c ≠ 45%N).
  { intros c. subst l. rewrite !list_elem_of_filter. tauto. }
  rewrite andb_true_iff, negb_true_iff, bool_decide_eq_false, forallb_forall. split.
  - intros [Hne Hall]. split.
    + destruct l as [|c l'] eqn:El; [done|]. exists c. apply Hl. by left.
    + intros c Hc H1 H2. apply Hall. apply list_elem_of_In. by apply Hl.
  - intros [(c & Hc) Hall]. split.
    + intros Hnil. apply Hl in Hc. rewrite Hnil in Hc. by apply not_elem_of_nil in Hc.
    + intros c' Hc'%list_elem_of_In. apply Hl in Hc' as (Hin & H1 & H2). by apply Hall.
Qed.

(** X17.  The test on the project name passes exactly the names that hold at least
    one character other than underscore and hyphen, and whose every character
    is an underscore, a hyphen or alphanumeric for str.isalnum: the empty name
    and the names made of underscores and hyphens only are rejected. *)
Theorem valid_name_spec (alnum : N → bool) (name : Gen.str) :
  Gen.valid_name alnum name = true ↔
    (∃ c, c ∈ name ∧ c ≠ 95%N ∧ c ≠ 45%N) ∧
    (∀ c, c ∈ name → c = 95%N ∨ c = 45%N ∨ alnum c = true).
Proof.
  rewrite gen_valid_name_filter. split; intros [Hsome Hall]; (split; [exact Hsome|]).
  - intros c Hc. destruct (decide (c = 95%N)) as [|H1]; [by left|].
    destruct (decide (c = 45%N)) as [|H2]; [by right; left|].
    right; right. by apply Hall.
  - intros c Hc H1 H2. by destruct (Hall c Hc) as [?|[?|?]].
Qed.

(** X18.  Since neither the slash nor the dot is alphanumeric, a name that passes
    the test is one path component (not empty, without slash, neither . nor
    ..), so the project directory is a direct child of the output path. *)
Theorem valid_name_is_component (alnum : N → bool) (name : Gen.str) :
  alnum 47%N = false → alnum 46%N = false →
  Gen.valid_name alnum name = true →
  gen_component name ∧ ∀ out, Gen.joinpath out name = out ++ [name].
Proof.
  intros Hslash Hdot [(c & Hc & _) Hall]%gen_valid_name_filter.
  assert (Hno : ∀ x, alnum x = false → x ≠ 95%N → x ≠ 45%N → x ∉ name).
  { intros x Hx H1 H2 Hin. rewrite (Hall x Hin H1 H2) in Hx. discriminate Hx. }
  assert (Hcomp : gen_component name).
  { split_and!.
    - intros ->. by apply not_elem_of_nil in Hc.
    - by apply Hno.
    - intros ->. apply (Hno 46%N); [done..|]. by left.
    - intros ->. apply (Hno 46%N); [done..|]. by left. }
  split; [done|]. intros out. destruct Hcomp as (? & ? & ? & _).
  by apply gen_joinpath_component.
Qed.

Lemma valid_name_is_component_sample :
  gen_component (Gen.lit "my-sketch_2") ∧
  Gen.joinpath [Gen.lit "home"; Gen.lit "me"] (Gen.lit "my-sketch_2")
    = [Gen.lit "home"; Gen.lit "me"; Gen.lit "my-sketch_2"].
Proof.
  destruct (valid_name_is_component gen_ascii_alnum (Gen.lit "my-sketch_2")) as [Hc Hj].
  - reflexivity.
  - reflexivity.
  - by vm_compute.
  - split; [exact Hc|]. apply Hj.
Defined.

Lemma gen_starts_with_app (old s : Gen.str) : Gen.starts_with old (old ++ s) = true.
Proof.
  induction old as [|a old IH]; [done|]. cbn. by rewrite bool_decide_eq_true_2, IH.
Qed.

Lemma gen_replace_skip (old new l s : Gen.str) :
  Gen.replace_from old new (length l) (l ++ s) = Gen.replace_from old new 0 s.
Proof. induction l as [|a l IH]; [done|]. exact IH. Qed.

(** An occurrence at the head is replaced, and the scan goes on behind
    it. *)
Lemma gen_replace_head (a : N) (old new s : Gen.str) :
  Gen.replace_from (a :: old) new 0 ((a :: old) ++ s) =
    new ++ Gen.replace_from (a :: old) new 0 s.
Proof.
  pose proof (gen_starts_with_app (a :: old) s) as Hs.
  cbn [app Gen.replace_from] in *. rewrite Hs.
  cbn [length Nat.sub]. by rewrite Nat.sub_0_r, gen_replace_skip.
Qed.

(** Text whose opening braces stand alone is passed over by the scan
    for a pattern that begins with two of them. *)
Lemma gen_replace_lone (old new a s : Gen.str) :
  gen_lone_braces a = true →
  Gen.replace_from (123%N :: 123%N :: old) new 0 (a ++ s) =
    a ++ Gen.replace_from (123%N :: 123%N :: old) new 0 s.
Proof.
  induction a as [|c a IH]; [done|]. cbn [gen_lone_braces].
  intros [Hc Ha]%andb_true_iff. cbn [app Gen.replace_from].
  assert (Gen.starts_with (123%N :: 123%N :: old) (c :: a ++ s) = false) as ->.
  { cbn [Gen.starts_with]. destruct (decide (c = 123%N)) as [->|Hne].
    - rewrite bool_decide_eq_true_2 in Hc by done.
      destruct a as [|d a]; [done|]. cbn [app].
      apply negb_true_iff, bool_decide_eq_false in Hc.
      rewrite (bool_decide_eq_false_2 (123%N = d)) by (by intros <-).
      by rewrite andb_false_r.
    - by rewrite bool_decide_eq_false_2. }
  by rewrite IH.
Qed.

Lemma gen_lone_braces_app (a b : Gen.str) :
  gen_lone_braces a = true → gen_lone_braces b = true → gen_lone_braces (a ++ b) = true.
Proof.
  intros Ha Hb. induction a as [|c a IH]; [done|]. cbn [gen_lone_braces app] in *.
  apply andb_true_iff in Ha as [Hc Ha]. rewrite (IH Ha), andb_true_r.
  destruct (bool_decide (c = 123%N)); [|done]. by destruct a.
Qed.

(** X25.  For a CMake template of the form a {{PROJECT_NAME}} b {{OFLIKE_PATH}} c in
    which neither a, b, c nor the project name runs into a placeholder (every
    opening brace is followed by a character that is not an opening brace),
    the text written is a, the name, b, the path, c. The path is inserted as
    it is, whatever it holds. *)
Theorem fill_template_fills (name path a b c : Gen.str) :
  gen_lone_braces a = true → gen_lone_braces b = true → gen_lone_braces c = true →
  gen_lone_braces name = true →
  Gen.fill_template name path
    (a ++ Gen.lit "{{PROJECT_NAME}}" ++ b ++ Gen.lit "{{OFLIKE_PATH}}" ++ c) =
    a ++ name ++ b ++ path ++ c.
Proof.
  intros Ha Hb Hc Hname. unfold Gen.fill_template, Gen.replace.
  change (Gen.lit "{{PROJECT_NAME}}") with (123%N :: 123%N :: Gen.lit "PROJECT_NAME}}").
  change (Gen.lit "{{OFLIKE_PATH}}") with (123%N :: 123%N :: Gen.lit "OFLIKE_PATH}}").
  (* the scan for the name *)
  rewrite (gen_replace_lone _ name a) by done.
  rewrite gen_replace_head.
  rewrite (gen_replace_lone _ name b) by done.
  assert (Hpath : Gen.replace_from (123%N :: 123%N :: Gen.lit "PROJECT_NAME}}") name 0
                    ((123%N :: 123%N :: Gen.lit "OFLIKE_PATH}}") ++ c)
                  = (123%N :: 123%N :: Gen.lit "OFLIKE_PATH}}") ++ c).
  { change ((123%N :: 123%N :: Gen.lit "OFLIKE_PATH}}") ++ c)
      with (123%N :: 123%N :: (Gen.lit "OFLIKE_PATH}}" ++ c)).
    change (Gen.replace_from ?o name 0 (123%N :: 123%N :: Gen.lit "OFLIKE_PATH}}" ++ c))
      with (123%N :: 123%N :: Gen.replace_from o name 0 (Gen.lit "OFLIKE_PATH}}" ++ c)).
    rewrite (gen_replace_lone _ name (Gen.lit "OFLIKE_PATH}}")) by done.
    rewrite <- (app_nil_r c) at 1. rewrite (gen_replace_lone _ name c []) by done.
    by rewrite app_nil_r. }
  rewrite Hpath.
  (* the scan for the path *)
  rewrite (app_assoc a name), (app_assoc (a ++ name) b).
  rewrite (gen_replace_lone _ path ((a ++ name) ++ b)).
  - rewrite gen_replace_head.
    rewrite <- (app_nil_r c) at 1. rewrite (gen_replace_lone _ path c []) by done.
    by rewrite app_nil_r, <- !app_assoc.
  - by repeat apply gen_lone_braces_app.
Qed.

Lemma fill_template_fills_sample :
  Gen.fill_template (Gen.lit "mySketch") (Gen.lit "/opt/oflike") gen_sample_cmake =
    Gen.lit "project(mySketch)" ++ Gen.newline ++
    Gen.lit "add_subdirectory(/opt/oflike ${CMAKE_BINARY_DIR}/oflike)" ++ Gen.newline.
Proof.
  apply (fill_template_fills (Gen.lit "mySketch") (Gen.lit "/opt/oflike")
           (Gen.lit "project(")
           (Gen.lit ")" ++ Gen.newline ++ Gen.lit "add_subdirectory(")
           (Gen.lit " ${CMAKE_BINARY_DIR}/oflike)" ++ Gen.newline)); by vm_compute.
Defined.

(** ** The generator: [main] *)

(** X19.  main with fewer than two arguments prints the usage text and exits with
    status 1; with -h or --help as first argument it prints the usage text and
    exits with status 0, whatever follows; with a name that fails the test it
    prints the two error lines and exits with status 1. In all three cases
    nothing else is printed and the file tree is untouched. *)
Theorem main_usage_and_rejections (env : Gen.Env) (s : Gen.State) :
  (∀ argv, length argv < 2 →
     Gen.main env argv s = (Gen.Raises (Gen.SystemExit 1), gen_printed s [Gen.doc])) ∧
  (∀ prog flag rest, flag = Gen.lit "-h" ∨ flag = Gen.lit "--help" →
     Gen.main env (prog :: flag :: rest) s =
       (Gen.Raises (Gen.SystemExit 0), gen_printed s [Gen.doc])) ∧
  (∀ prog name rest, name ≠ Gen.lit "-h" → name ≠ Gen.lit "--help" →
     Gen.valid_name (Gen.unicode_alnum env) name = false →
     Gen.main env (prog :: name :: rest) s =
       (Gen.Raises (Gen.SystemExit 1),
        gen_printed s
          [ Gen.lit "Error: Invalid project name '" ++ name ++ Gen.lit "'";
            Gen.lit "Project name should only contain letters, numbers, underscores, and hyphens." ])).
Proof.
  split_and!.
  - intros [|prog [|name rest]] Hlen; [done|done|]. simpl in Hlen. lia.
  - intros prog flag rest Hflag. unfold Gen.main.
    rewrite bool_decide_eq_true_2; [done|].
    destruct Hflag as [-> | ->]; [by left|]. right. by left.
  - intros prog name rest H1 H2 Hvalid. unfold Gen.main.
    rewrite bool_decide_eq_false_2.
    + rewrite Hvalid. cbn [negb].
      erewrite gen_bind_raises; [reflexivity|].
      do 2 gen_print. unfold gen_printed. by rewrite <- app_assoc.
    + intros Hin. apply list_elem_of_In in Hin. destruct Hin as [<-|[<-|[]]]; congruence.
Qed.

(** X20.  Every run of main either leaves the file tree as it was and ends by an
    exception (an exit, or a failure to resolve the output path), or it is a
    run of create_project, on a name that passed the test and is no help flag,
    on the resolved second argument or else the working directory, with the
    templates directory present. *)
Theorem main_hands_over (env : Gen.Env) (argv : list Gen.str) (s : Gen.State) :
  let r := Gen.main env argv s in
  (Gen.files r.2 = Gen.files s ∧ ∃ e, r.1 = Gen.Raises e) ∨
  (∃ prog name rest out n,
     argv = prog :: name :: rest ∧
     name ≠ Gen.lit "-h" ∧ name ≠ Gen.lit "--help" ∧
     Gen.valid_name (Gen.unicode_alnum env) name = true ∧
     match rest with
     | arg :: _ => Gen.resolve env arg
     | [] => Gen.cwd env
     end = Gen.Returns out ∧
     Gen.stat (Gen.files s) (Gen.TEMPLATES_DIR env) = Gen.Returns n ∧
     r = Gen.create_project env name out s).
Proof.
  intros r. subst r. destruct argv as [|prog [|name rest]].
  - left. split; [done|]. by eexists.
  - left. split; [done|]. by eexists.
  - unfold Gen.main.
    destruct (decide (name ∈ [Gen.lit "-h"; Gen.lit "--help"])) as [Hflag|Hflag].
    { rewrite bool_decide_eq_true_2 by done. left. split; [done|]. by eexists. }
    rewrite bool_decide_eq_false_2 by done.
    assert (H1 : name ≠ Gen.lit "-h") by (intros ->; apply Hflag; by left).
    assert (H2 : name ≠ Gen.lit "--help") by (intros ->; apply Hflag; right; by left).
    destruct (Gen.valid_name (Gen.unicode_alnum env) name) eqn:Hvalid; cbn [negb].
    2:{ left. split; [done|]. by eexists. }
    erewrite gen_bind_returns by reflexivity.
    set (target := match rest with arg :: _ => Gen.resolve env arg | [] => Gen.cwd env end).
    assert (Ht : match rest with
                 | arg :: _ => Gen.lift (Gen.resolve env arg)
                 | [] => Gen.lift (Gen.cwd env)
                 end s = (target, s)) by (subst target; by destruct rest).
    destruct target as [out|e] eqn:Etarget.
    2:{ rewrite (gen_bind_raises _ _ _ _ _ Ht). left. split; [done|]. by eexists. }
    rewrite (gen_bind_returns _ _ _ _ _ Ht).
    erewrite gen_bind_returns by apply gen_path_exists_run.
    destruct (Gen.stat (Gen.files s) (Gen.TEMPLATES_DIR env)) as [n|e] eqn:Etpl.
    2:{ left. split; [done|]. by eexists. }
    erewrite gen_bind_returns by reflexivity.
    right. exists prog, name, rest, out, n. by split_and!.
Qed.

(** ** The generator: what [create_project] leaves alone *)

Lemma gen_keeps_ret {A} I (a : A) : gen_keeps I (mret a : Gen.G A).
Proof. by intros s. Qed.

Lemma gen_keeps_raise {A} I e : gen_keeps I (Gen.raise e : Gen.G A).
Proof. by intros s. Qed.

Lemma gen_keeps_bind {A B} I (m : Gen.G A) (f : A → Gen.G B) :
  gen_keeps I m → (∀ a, gen_keeps I (f a)) → gen_keeps I (m ≫= f).
Proof.
  intros Hm Hf s Hs. specialize (Hm s Hs). unfold mbind, Gen.G_bind.
  destruct (m s) as [[a|e] s1]; [|done]. by apply Hf.
Qed.

Lemma gen_keeps_try_except {A} I (body : Gen.G A) handler :
  gen_keeps I body → (∀ e, gen_keeps I (handler e)) →
  gen_keeps I (Gen.try_except body handler).
Proof.
  intros Hm Hh s Hs. specialize (Hm s Hs). unfold Gen.try_except.
  destruct (body s) as [[a|e] s1]; [done|]. by apply Hh.
Qed.

Section Confined.
Variable fs0 : gmap Gen.Path Gen.Node.
Variable pd : Gen.Path.
Hypothesis Hbelow0 : ∀ q, fs0 !! (pd ++ q) = None.

Lemma gen_keeps_print line : gen_keeps (gen_around fs0 pd) (Gen.print line).
Proof. by intros s. Qed.

Lemma gen_keeps_path_exists p : gen_keeps (gen_around fs0 pd) (Gen.path_exists p).
Proof. by intros s. Qed.

Lemma gen_keeps_is_dir p : gen_keeps (gen_around fs0 pd) (Gen.is_dir p).
Proof. by intros s. Qed.

Lemma gen_keeps_read_text p : gen_keeps (gen_around fs0 pd) (Gen.read_text p).
Proof. intros s Hs. unfold Gen.read_text. by destruct (Gen.stat _ _) as [[|]|]. Qed.

Lemma gen_keeps_stat_mode p : gen_keeps (gen_around fs0 pd) (Gen.stat_mode p).
Proof. intros s Hs. unfold Gen.stat_mode. by destruct (Gen.stat _ _) as [[|]|]. Qed.

Lemma gen_confined_new_dir fs (p : Gen.Path) :
  gen_confined fs0 pd fs → pd `prefix_of` p ∨ p `prefix_of` pd →
  gen_node fs (Gen.parent p) = Some Gen.Dir → fs !! p = None →
  gen_confined fs0 pd (<[p := Gen.Dir]> fs).
Proof.
  intros (Hwf & Hsub & Hnew) Hnear Hpar Hnone. split_and!.
  - by apply gen_tree_new_node.
  - apply insert_subseteq_r; [by eapply lookup_weaken_None|done].
  - intros q n Hq Hq0. destruct (decide (q = p)) as [->|Hne].
    + rewrite lookup_insert_eq in Hq. injection Hq as <-.
      destruct Hnear; [by left|by right].
    + rewrite lookup_insert_ne in Hq by done. by apply Hnew.
Qed.

Lemma gen_confined_file fs (p : Gen.Path) content mode :
  gen_confined fs0 pd fs → pd `prefix_of` p →
  gen_node fs (Gen.parent p) = Some Gen.Dir → fs !! p ≠ Some Gen.Dir →
  gen_confined fs0 pd (<[p := Gen.File content mode]> fs).
Proof.
  intros (Hwf & Hsub & Hnew) [q ->] Hpar Hnone. split_and!.
  - apply gen_tree_insert; [done..|by right].
  - apply insert_subseteq_r; [apply Hbelow0|done].
  - intros q' n Hq Hq0. destruct (decide (q' = pd ++ q)) as [->|Hne].
    + left. by exists q.
    + rewrite lookup_insert_ne in Hq by done. by apply Hnew.
Qed.

Lemma gen_keeps_os_mkdir (p : Gen.Path) :
  pd `prefix_of` p ∨ p `prefix_of` pd → gen_keeps (gen_around fs0 pd) (Gen.os_mkdir p).
Proof.
  intros Hnear [fs out] Hs. unfold Gen.os_mkdir. destruct p as [|c p]; [done|].
  cbn [Gen.files]. destruct (Gen.stat fs (Gen.parent (c :: p))) as [[|]|] eqn:E; [|done..].
  destruct (fs !! (c :: p)) eqn:En; [done|].
  apply gen_confined_new_dir; [done..| |done]. by apply gen_stat_node.
Qed.

Lemma gen_keeps_write_text mode0 (p : Gen.Path) content :
  pd `prefix_of` p → gen_keeps (gen_around fs0 pd) (Gen.write_text mode0 p content).
Proof.
  intros Hunder [fs out] Hs. unfold Gen.write_text. destruct p as [|c p]; [done|].
  cbn [Gen.files]. destruct (Gen.stat fs (Gen.parent (c :: p))) as [[|]|] eqn:E; [|done..].
  apply gen_stat_node in E.
  destruct (fs !! (c :: p)) as [[|content' mode']|] eqn:En; [done| |];
    (apply gen_confined_file;
       [exact Hs|done|done|intros H; discriminate (eq_trans (eq_sym En) H)]).
Qed.

Lemma gen_keeps_os_chmod (p : Gen.Path) mode :
  pd `prefix_of` p → gen_keeps (gen_around fs0 pd) (Gen.os_chmod p mode).
Proof.
  intros Hunder [fs out] Hs. unfold Gen.os_chmod. cbn [Gen.files].
  destruct (Gen.stat fs p) as [[|content mode']|] eqn:E; [done| |done].
  apply gen_stat_node in E. destruct p as [|c p]; [done|]. cbn in E.
  apply gen_confined_file;
    [exact Hs|done| |intros H; discriminate (eq_trans (eq_sym E) H)].
  destruct Hs as (Hwf & _). by apply (Hwf _ _ E).
Qed.

Lemma gen_keeps_mkdir_except p exist_ok e :
  gen_keeps (gen_around fs0 pd) (Gen.mkdir_except_OSError p exist_ok e).
Proof.
  apply gen_keeps_bind; [apply gen_keeps_is_dir|]. intros d.
  destruct (negb exist_ok || negb d); [apply gen_keeps_raise|apply gen_keeps_ret].
Qed.

Lemma gen_keeps_mkdir_one (p : Gen.Path) exist_ok :
  pd `prefix_of` p ∨ p `prefix_of` pd → gen_keeps (gen_around fs0 pd) (Gen.mkdir_one p exist_ok).
Proof.
  intros Hnear. apply gen_keeps_try_except; [by apply gen_keeps_os_mkdir|].
  intros [[]| | |]; first [apply gen_keeps_raise | apply gen_keeps_mkdir_except].
Qed.

Lemma gen_near_parent (l : Gen.Path) c :
  pd `prefix_of` l ++ [c] ∨ l ++ [c] `prefix_of` pd → pd `prefix_of` l ∨ l `prefix_of` pd.
Proof.
  intros [[H| ->]%gen_prefix_snoc_inv|H].
  - by left.
  - right. by apply prefix_app_r.
  - right. by apply (prefix_app_l _ _ [c]).
Qed.

Lemma gen_keeps_mkdir_parents_rev rp : ∀ exist_ok,
  pd `prefix_of` rev rp ∨ rev rp `prefix_of` pd →
  gen_keeps (gen_around fs0 pd) (Gen.mkdir_parents_rev rp exist_ok).
Proof.
  induction rp as [|c rp IH]; intros exist_ok Hnear; rewrite gen_mkdir_parents_rev_eq.
  - apply gen_keeps_try_except; [by apply gen_keeps_os_mkdir|].
    intros [[]| | |]; first [apply gen_keeps_raise | apply gen_keeps_mkdir_except].
  - apply gen_keeps_try_except; [by apply gen_keeps_os_mkdir|].
    intros [[]| | |]; try first [apply gen_keeps_raise | apply gen_keeps_mkdir_except].
    apply gen_keeps_bind.
    + apply IH. simpl in Hnear. by apply gen_near_parent in Hnear.
    + intros _. by apply gen_keeps_mkdir_one.
Qed.

Lemma gen_keeps_mkdir_parents (p : Gen.Path) :
  pd `prefix_of` p → gen_keeps (gen_around fs0 pd) (Gen.mkdir_parents p).
Proof.
  intros Hp. apply gen_keeps_mkdir_parents_rev. rewrite rev_involutive. by left.
Qed.

Lemma gen_keeps_shutil_copy mode0 (src dst : Gen.Path) :
  pd `prefix_of` dst → gen_keeps (gen_around fs0 pd) (Gen.shutil_copy mode0 src dst).
Proof.
  intros Hdst. unfold Gen.shutil_copy.
  apply gen_keeps_bind; [apply gen_keeps_is_dir|]. intros d. cbv zeta.
  assert (Hdst' : pd `prefix_of` (if d then dst ++ Gen.basename src else dst))
    by (destruct d; [by apply prefix_app_r|done]).
  apply gen_keeps_bind.
  { destruct (bool_decide _); [apply gen_keeps_path_exists|apply gen_keeps_ret]. }
  intros same. apply gen_keeps_bind.
  { destruct same; [apply gen_keeps_raise|apply gen_keeps_ret]. }
  intros _. apply gen_keeps_bind; [apply gen_keeps_read_text|]. intros content.
  apply gen_keeps_bind; [by apply gen_keeps_write_text|]. intros _.
  apply gen_keeps_bind; [apply gen_keeps_stat_mode|]. intros mode.
  by apply gen_keeps_os_chmod.
Qed.

Lemma gen_keeps_report name : gen_keeps (gen_around fs0 pd) (Gen.report name pd).
Proof.
  unfold Gen.report.
  repeat (apply gen_keeps_bind; [apply gen_keeps_print|intros _]). apply gen_keeps_print.
Qed.

End Confined.

Lemma gen_keeps_create_project (env : Gen.Env) (name : Gen.str) (out : Gen.Path)
    (fs0 : gmap Gen.Path Gen.Node) :
  Gen.joinpath out name = out ++ [name] →
  (∀ q, fs0 !! ((out ++ [name]) ++ q) = None) →
  gen_keeps (gen_around fs0 (out ++ [name])) (Gen.create_project env name out).
Proof.
  intros Hjoin Hbelow. unfold Gen.create_project. cbv zeta. rewrite Hjoin.
  set (pd := out ++ [name]) in *.
  rewrite !gen_templates_dir, !gen_joinpath_src, !gen_joinpath_bin, !gen_joinpath_build,
    !gen_joinpath_main_cpp, !gen_joinpath_cmake_template, !gen_joinpath_cmake,
    !gen_joinpath_build_sh, !gen_joinpath_run_sh.
  assert (Hunder : ∀ q, pd `prefix_of` pd ++ q) by (intros q; by exists q).
  apply gen_keeps_bind; [apply gen_keeps_path_exists|]. intros there.
  apply gen_keeps_bind.
  { destruct there; [|apply gen_keeps_ret].
    apply gen_keeps_bind; [apply gen_keeps_print|]. intros _. apply gen_keeps_raise. }
  intros _.
  do 4 (apply gen_keeps_bind; [apply gen_keeps_print|]; intros _).
  do 3 (apply gen_keeps_bind; [apply gen_keeps_mkdir_parents; solve [auto]|]; intros _).
  apply gen_keeps_bind.
  { rewrite <- (app_assoc pd). apply gen_keeps_shutil_copy; solve [auto]. }
  intros _. apply gen_keeps_bind; [apply gen_keeps_print|]. intros _.
  apply gen_keeps_bind; [apply gen_keeps_read_text|]. intros cmake_content.
  apply gen_keeps_bind; [apply gen_keeps_write_text; solve [auto]|]. intros _.
  apply gen_keeps_bind; [apply gen_keeps_print|]. intros _.
  apply gen_keeps_bind; [apply gen_keeps_write_text; solve [auto]|]. intros _.
  apply gen_keeps_bind; [apply gen_keeps_os_chmod; solve [auto]|]. intros _.
  apply gen_keeps_bind; [apply gen_keeps_print|]. intros _.
  apply gen_keeps_bind; [apply gen_keeps_write_text; solve [auto]|]. intros _.
  apply gen_keeps_bind; [apply gen_keeps_os_chmod; solve [auto]|]. intros _.
  apply gen_keeps_bind; [apply gen_keeps_print|]. intros _.
  apply gen_keeps_report.
Qed.

Lemma gen_confined_refl fs pd : gen_tree fs → gen_confined fs pd fs.
Proof.
  intros Hwf. split_and!; [done..|]. intros q n Hq Hq0.
  discriminate (eq_trans (eq_sym Hq) Hq0).
Qed.

(** What [create_project] does to a tree, however it ends. *)
Lemma gen_create_project_confined (env : Gen.Env) (name : Gen.str) (out : Gen.Path)
    (s : Gen.State) :
  gen_tree (Gen.files s) → gen_component name →
  gen_confined (Gen.files s) (out ++ [name])
    (Gen.files (Gen.create_project env name out s).2).
Proof.
  intros Hwf Hcomp. set (pd := out ++ [name]).
  assert (Hjoin : Gen.joinpath out name = pd)
    by (destruct Hcomp as (? & ? & ? & _); by apply gen_joinpath_component).
  destruct (Gen.stat (Gen.files s) pd) as [n|e] eqn:E.
  - (* the project is there: nothing is touched *)
    unfold Gen.create_project. cbv zeta. rewrite Hjoin.
    rewrite (gen_check_there _ _ _ s n E). by apply gen_confined_refl.
  - apply (gen_keeps_create_project env name out (Gen.files s) Hjoin).
    + intros q. apply gen_tree_below_missing; [done|by destruct out|].
      destruct (Gen.files s !! pd) as [n|] eqn:En; [|done].
      rewrite (gen_node_stat _ pd n Hwf) in E; [done|].
      by rewrite gen_node_nonempty by (by destruct out).
    + by apply gen_confined_refl.
Qed.



(** X24.  However create_project ends, the file tree stays a tree, nothing that was
    there is removed or changed, and whatever is new lies at or below the
    project path or is a directory on the way down to it. *)
Theorem create_project_spares_the_rest (env : Gen.Env) (name : Gen.str) (out : Gen.Path)
    (s : Gen.State) :
  gen_tree (Gen.files s) → gen_component name →
  let pd := out ++ [name] in
  let fs' := Gen.files (Gen.create_project env name out s).2 in
  gen_tree fs' ∧
  (∀ q n, Gen.files s !! q = Some n → fs' !! q = Some n) ∧
  (∀ q n, fs' !! q = Some n → Gen.files s !! q = None →
          pd `prefix_of` q ∨ (q `prefix_of` pd ∧ n = Gen.Dir)).
Proof.
  intros Hwf Hcomp pd fs'.
  destruct (gen_create_project_confined env name out s Hwf Hcomp) as (Htree & Hsub & Hnew).
  split_and!; [done| |done].
  intros q n Hq. by apply (lookup_weaken _ _ _ _ Hq).
Qed.

(** The templates are still there after the project was made. *)
Lemma create_project_spares_the_rest_sample :
  let r := Gen.create_project gen_sample_env (Gen.lit "mySketch")
             [Gen.lit "home"; Gen.lit "me"; Gen.lit "Projects"]
             (gen_sample_state gen_sample_templates) in
  gen_tree (Gen.files r.2) ∧
  Gen.files r.2 !! [Gen.lit "opt"; Gen.lit "oflike"; Gen.lit "tools"; Gen.lit "templates";
                    Gen.lit "CMakeLists.txt.template"] = Some (Gen.File gen_sample_cmake 420%N).
Proof.
  intros r.
  destruct (create_project_spares_the_rest gen_sample_env (Gen.lit "mySketch")
              [Gen.lit "home"; Gen.lit "me"; Gen.lit "Projects"]
              (gen_sample_state gen_sample_templates)) as (Htree & Hkept & _).
  - apply gen_sample_disk_tree.
  - gen_component_tac.
  - split; [exact Htree|]. apply Hkept. by vm_compute.
Defined.

(** ** The generator: a project is made *)




